(** * Clay data extractor: capture and normalisation pipeline

    A shallow embedding of the data-capture core of the browser extension:
    - [background.js]: the capture store, the API-response parser
      ([findAllTableArrays], [extractHeadersFromObjects], [flattenValue],
      [parseApiResponsesToTable]), the CSV writer and [applyRange];
    - [content.js]: [mergeRows], [convertRowsMapToArray] and the scroll
      sweep of [scrapeAllRowsByScrolling] with its horizontal scan positions;
    - [popup.js]: [parseRowRange]; [interceptor.js]: [containsTableData].

    Conventions of the embedding.
    - A JavaScript string is a [string]: the bytes of its UTF-8 encoding.
      The byte 0x22 only ever encodes the double quote, 0x2C the comma,
      so the character-level operations of the source (the quote-doubling
      [replace], [join]) are exact on bytes.
    - A JSON number is an integer [Z], printed in decimal by [String(n)];
      fractions, and the exponent form [String] gives from 10^21 on, are
      outside the model.
    - A JSON object is the list of its own properties in [Object.keys]
      order; a JavaScript object has no two properties of the same name.
      An object built by assignment keeps its keys in the order of their
      first assignment; keys that are array indices, which JavaScript
      enumerates first, are outside the model.
    - Lengths of the scroll container are exact rationals in the sweep; the
      horizontal scan positions are also given as the code computes them,
      in binary64 ([Content.IEEE]).
    - Property reads [o[k]] see own properties only: names inherited from
      the built-in prototypes ([constructor], [toString], ...) are outside
      the model.
    - An exception is a [Throw] result. *)

From Stdlib Require Import String Ascii List ZArith Lia Bool Arith.
From Stdlib Require Import Sorted Permutation.
From Stdlib Require DecimalNat DecimalFacts.
From Stdlib Require Import QArith Qminmax Qround Qabs Qpower Lqa DecimalString.
From Corelib Require Import SpecFloat.
Import ListNotations.

Set Warnings "-register-all".
Open Scope list_scope.
Open Scope string_scope.

(* ================================================================= *)
(** ** The JavaScript fragment the sources use *)

Module JS.

(** Exceptions. *)
Inductive result (A : Type) : Type :=
| Ok (a : A)
| Throw (e : string).
Arguments Ok {A} a.
Arguments Throw {A} e.

Definition bind {A B} (r : result A) (k : A -> result B) : result B :=
  match r with
  | Ok a => k a
  | Throw e => Throw e
  end.

Notation "x <- r ;; k" := (bind r (fun x => k))
  (at level 61, r at next level, right associativity).

Fixpoint mapM {A B} (f : A -> result B) (l : list A) : result (list B) :=
  match l with
  | [] => Ok []
  | a :: tl => b <- f a ;; bs <- mapM f tl ;; Ok (b :: bs)
  end.

(** JSON values, as delivered by [response.json()] and structured clone. *)
Inductive json : Type :=
| JNull
| JBool (b : bool)
| JNum (n : Z)
| JStr (s : string)
| JArr (items : list json)
| JObj (props : list (string * json)).

(** [String(n)] for an integer and for an array index. *)
Definition numToString (n : Z) : string :=
  NilZero.string_of_int (Z.to_int n).

Definition indexToString (i : nat) : string :=
  NilZero.string_of_uint (Nat.to_uint i).

(** [Array.prototype.join] on strings. *)
Definition join (sep : string) (l : list string) : string :=
  String.concat sep l.

(** Lookup of an own property, applying [f] to the value found.  The
    continuation is a parameter of the section so that recursive callers
    stay structurally recursive. *)
Section Lookup.
Context {A B : Type} (f : A -> B).

Fixpoint lookupWith (k : string) (ps : list (string * A)) : option B :=
  match ps with
  | [] => None
  | (k', v) :: tl => if String.eqb k k' then Some (f v) else lookupWith k tl
  end.
End Lookup.

Definition getOwn {A} (k : string) (ps : list (string * A)) : option A :=
  lookupWith (fun v => v) k ps.

Definition hasOwn {A} (k : string) (ps : list (string * A)) : bool :=
  match getOwn k ps with Some _ => true | None => false end.

(** [arr.includes(k)] on strings. *)
Definition includes (l : list string) (k : string) : bool :=
  existsb (String.eqb k) l.

(** [typeof v === 'object' && v !== null]: objects and arrays. *)
Definition isObjectLike (v : json) : bool :=
  match v with
  | JArr _ | JObj _ => true
  | _ => false
  end.

(** [typeof v !== 'object' || v === null]. *)
Definition isPrimitive (v : json) : bool := negb (isObjectLike v).

(** [Object.keys(v)] for a value that is not [null]: the property names of
    an object, the indices of an array, the indices of a string. *)
Definition objectKeys (v : json) : list string :=
  match v with
  | JObj props => map fst props
  | JArr items => map indexToString (seq 0 (length items))
  | JStr s => map indexToString (seq 0 (String.length s))
  | _ => []
  end.

(** [String(v)].  An array prints as its elements joined by a comma, with
    [null] elements printed empty; an object prints as [[object Object]]. *)
Fixpoint toString (v : json) : string :=
  match v with
  | JNull => "null"
  | JBool true => "true"
  | JBool false => "false"
  | JNum n => numToString n
  | JStr s => s
  | JArr items =>
      join "," (map (fun x => match x with JNull => "" | _ => toString x end) items)
  | JObj _ => "[object Object]"
  end.

(** The double quote, the comma, and carriage return / line feed. *)
Definition dquote : ascii := ascii_of_nat 34.
Definition CR : ascii := ascii_of_nat 13.
Definition LF : ascii := ascii_of_nat 10.
Definition CRLF : string := String CR (String LF "").

(** [JSON.stringify] of a string: quotes, backslashes and control characters
    are escaped. *)
Definition hexDigit (n : nat) : ascii :=
  nth n (list_ascii_of_string "0123456789abcdef") "0"%char.

Definition escapeChar (c : ascii) : string :=
  let n := nat_of_ascii c in
  if Nat.eqb n 34 then String "\"%char (String dquote "")
  else if Nat.eqb n 92 then "\\"
  else if Nat.eqb n 8 then "\b"
  else if Nat.eqb n 9 then "\t"
  else if Nat.eqb n 10 then "\n"
  else if Nat.eqb n 12 then "\f"
  else if Nat.eqb n 13 then "\r"
  else if Nat.ltb n 32 then
    "\u00" ++ String (hexDigit (n / 16)) (String (hexDigit (n mod 16)) "")
  else String c "".

Fixpoint escapeString (s : string) : string :=
  match s with
  | EmptyString => ""
  | String c tl => escapeChar c ++ escapeString tl
  end.

Definition quote (s : string) : string :=
  String dquote (escapeString s ++ String dquote "").

(** [JSON.stringify(v)] without indentation. *)
Fixpoint stringify (v : json) : string :=
  match v with
  | JNull => "null"
  | JBool true => "true"
  | JBool false => "false"
  | JNum n => numToString n
  | JStr s => quote s
  | JArr items => "[" ++ join "," (map stringify items) ++ "]"
  | JObj props =>
      "{" ++ join "," (map (fun kv => quote (fst kv) ++ ":" ++ stringify (snd kv)) props)
          ++ "}"
  end.

(** [s.includes(t)]. *)
Fixpoint strIncludes (t s : string) : bool :=
  if String.prefix t s then true
  else match s with
       | EmptyString => false
       | String _ tl => strIncludes t tl
       end.

(** [Array.prototype.slice(begin, end)]: a negative bound counts from the
    end of the array, and both bounds are then brought into [0, length]. *)
Definition relativeIndex (len i : Z) : Z :=
  if (i <? 0)%Z then Z.max (len + i) 0 else Z.min i len.

Definition slice {A} (l : list A) (begin_ end_ : Z) : list A :=
  let len := Z.of_nat (length l) in
  let k := relativeIndex len begin_ in
  let final := relativeIndex len end_ in
  firstn (Z.to_nat (Z.max (final - k) 0)) (skipn (Z.to_nat k) l).

End JS.

(* ================================================================= *)
(** ** Numbers in arithmetic

    A JavaScript number is an IEEE 754 binary64 value.  Where a property
    turns on the rounding of its arithmetic, numbers are the [spec_float] of
    the standard library at precision 53 and maximal exponent 1024, with the
    library's operations. *)

Module Double.

Definition double : Type := spec_float.

(** [a + b], [a * b], [a / b] and [a < b]. *)
Definition add : double -> double -> double := SFadd 53 1024.
Definition mul : double -> double -> double := SFmul 53 1024.
Definition div : double -> double -> double := SFdiv 53 1024.
Definition ltb : double -> double -> bool := SFltb.

(** The number of a whole-number literal, and of an integer the DOM
    reports. *)
Definition ofZ (n : Z) : double := binary_normalize 53 1024 n 0 false.

(** [Math.max(a, b)]: [NaN] when either is, [+0] above [-0]. *)
Definition Math_max (a b : double) : double :=
  match a, b with
  | S754_nan, _ | _, S754_nan => S754_nan
  | S754_zero true, S754_zero false => b
  | _, _ => if ltb a b then b else a
  end.

End Double.

(* ================================================================= *)
(** ** background.js: the API path *)

Module Background.
Import JS.

Definition orElse {A} (o : option A) (d : A) : A :=
  match o with
  | Some a => a
  | None => d
  end.

(** [flattenValue(val)] for a JSON value.  The array branch keeps the
    source's two ways of printing; an object is tried against ten property
    names in order, the first six flattened recursively and the last four
    printed with [String]. *)
Fixpoint flattenValue (val : json) : string :=
  match val with
  | JNull => ""
  | JStr s => s
  | JNum n => toString (JNum n)
  | JBool b => toString (JBool b)
  | JArr items =>
      if Nat.eqb (length items) 0 then ""
      else if forallb isPrimitive items
      then join "; " (map (fun v => match v with JNull => "" | _ => toString v end) items)
      else join "; " (map flattenValue items)
  | JObj props =>
      orElse (lookupWith flattenValue "value" props) (
      orElse (lookupWith flattenValue "text" props) (
      orElse (lookupWith flattenValue "name" props) (
      orElse (lookupWith flattenValue "label" props) (
      orElse (lookupWith flattenValue "title" props) (
      orElse (lookupWith flattenValue "display" props) (
      orElse (lookupWith toString "url" props) (
      orElse (lookupWith toString "href" props) (
      orElse (lookupWith toString "email" props) (
      orElse (lookupWith toString "phone" props) (
        let keys := map fst props in
        if Nat.leb (length keys) 4
        then join ", "
               (map (fun k => k ++ ": " ++ orElse (lookupWith flattenValue k props) "") keys)
        else stringify (JObj props)))))))))))
  end.

(** [flattenValue(item[h])]: a property that is not there reads as
    [undefined], which flattens to the empty string. *)
Definition flattenValueU (val : option json) : string :=
  match val with
  | None => ""
  | Some v => flattenValue v
  end.

(** The body of [flattenValue] with its recursive calls made through
    [self], which may fail to answer: the shape of the source's call tree. *)
Section FlattenBody.
Variable self : json -> option string.





End FlattenBody.


(** The consistency test of [findAllTableArrays] on an array [obj]: the
    first element is a plain object of at least two keys, and each of the
    first five elements is an object or array having at least half of the
    first element's keys.  [overlap.length >= firstKeys.length * 0.5] is
    compared in integers, doubled. *)
Definition overlap (firstKeys keys : list string) : list string :=
  filter (fun k => includes keys k) firstKeys.

Definition isConsistent (firstKeys : list string) (obj : list json) : bool :=
  forallb
    (fun item =>
       if negb (isObjectLike item) then false
       else
         let keys := objectKeys item in
         Nat.leb (length firstKeys) (2 * length (overlap firstKeys keys)))
    (slice obj 0 (Z.of_nat (Nat.min 5 (length obj)))).

Definition looksLikeTable (obj : list json) : bool :=
  match obj with
  | JObj firstProps :: _ =>
      let firstKeys := map fst firstProps in
      Nat.leb 2 (length firstKeys) && isConsistent firstKeys obj
  | _ => false
  end.

(** [findAllTableArrays(obj, depth, results)].  An object's values are
    visited in key order. *)
Fixpoint findAllTableArrays (obj : json) (depth : nat) (results : list (list json))
  : list (list json) :=
  if Nat.ltb 8 depth then results
  else
    match obj with
    | JArr items =>
        let results1 :=
          if looksLikeTable items then (results ++ [items])%list else results in
        fold_left
          (fun acc item =>
             if isObjectLike item then findAllTableArrays item (S depth) acc else acc)
          items results1
    | JObj props =>
        fold_left (fun acc kv => findAllTableArrays (snd kv) (S depth) acc) props results
    | _ => results
    end.

(** An insertion-ordered [Set] of strings, as a list without repeats. *)
Definition setAdd (s : list string) (k : string) : list string :=
  if includes s k then s else (s ++ [k])%list.

Definition skipKeys : list string :=
  ["__typename"; "_id"; "createdAt"; "updatedAt"; "created_at"; "updated_at";
   "__v"; "cursor"; "node"].

(** [extractHeadersFromObjects(arr)].  [Object.keys] throws on the
    [undefined] first element of an empty array and on [null]. *)
Definition extractHeadersFromObjects (arr : list json) : result (list string) :=
  match arr with
  | [] => Throw "TypeError"
  | JNull :: _ => Throw "TypeError"
  | first :: _ =>
      let firstKeys := objectKeys first in
      let allKeys := fold_left setAdd firstKeys [] in
      let allKeys :=
        fold_left
          (fun acc item =>
             if isObjectLike item then fold_left setAdd (objectKeys item) acc else acc)
          (skipn 1 (firstn (Nat.min (length arr) 10) arr)) allKeys in
      Ok (filter (fun k => negb (includes skipKeys k)) allKeys)
  end.

(** [item[h]]: the own property [h] of a row element.  Reading a property
    of [null] throws; an array or a string has its indices and [length];
    a number or a boolean has no own property. *)
Definition findIndex (h : string) (len : nat) : option nat :=
  find (fun i => String.eqb (indexToString i) h) (seq 0 len).

Definition getProp (item : json) (h : string) : result (option json) :=
  match item with
  | JNull => Throw "TypeError"
  | JObj props => Ok (getOwn h props)
  | JArr items =>
      if String.eqb h "length" then Ok (Some (JNum (Z.of_nat (length items))))
      else match findIndex h (length items) with
           | Some i => Ok (nth_error items i)
           | None => Ok None
           end
  | JStr s =>
      if String.eqb h "length" then Ok (Some (JNum (Z.of_nat (String.length s))))
      else match findIndex h (String.length s) with
           | Some i => Ok (Some (JStr (String.substring i 1 s)))
           | None => Ok None
           end
  | JNum _ | JBool _ => Ok None
  end.

Record Table : Type := mkTable {
  headers : list string;
  rows : list (list string)
}.

(** [tableData.map(item => headers.map(h => flattenValue(item[h])))]. *)
Definition buildRows (hs : list string) (tableData : list json)
  : result (list (list string)) :=
  mapM (fun item =>
          mapM (fun h => v <- getProp item h ;; Ok (flattenValueU v)) hs)
       tableData.

(** A captured API response, as relayed by the interceptor. *)
Module Payload.
Record t : Type := mk {
  url : string;
  method : string;
  data : json;
  hasTableData : bool;
  timestamp : Z
}.
End Payload.

Fixpoint foldM {A B} (f : A -> B -> result A) (l : list B) (a : A) : result A :=
  match l with
  | [] => Ok a
  | b :: tl => a' <- f a b ;; foldM f tl a'
  end.

(** One turn of the inner loop of [parseApiResponsesToTable]. *)
Definition considerCandidate (bestResult : option Table) (tableData : list json)
  : result (option Table) :=
  if Nat.eqb (length tableData) 0 then Ok bestResult
  else
    hs <- extractHeadersFromObjects tableData ;;
    if Nat.eqb (length hs) 0 then Ok bestResult
    else
      rs <- buildRows hs tableData ;;
      match bestResult with
      | None => Ok (Some (mkTable hs rs))
      | Some best =>
          if Nat.ltb (length (rows best)) (length rs)
          then Ok (Some (mkTable hs rs))
          else Ok bestResult
      end.

Definition parseApiResponsesToTable (responses : list Payload.t)
  : result (option Table) :=
  foldM (fun bestResult resp =>
           foldM considerCandidate (findAllTableArrays resp.(Payload.data) 0 []) bestResult)
        responses None.

(** *** The capture store *)

Record TableMeta : Type := mkTableMeta {
  tableName : string;
  sourceName : string;
  sourceLabel : string;
  totalRecords : Z;
  searchFields : list (string * string)
}.

Record CapturedData : Type := mkCapturedData {
  apiResponses : list Payload.t;
  parsedTable : option Table;
  method : option string;
  capturedAt : option Z;
  sourceUrl : option string;
  tableMeta : option TableMeta
}.

(** The store at start-up and after [CLEAR_DATA]. *)
Definition emptyData : CapturedData :=
  mkCapturedData [] None None None None None.

Definition setApiResponses (l : list Payload.t) (cd : CapturedData) : CapturedData :=
  mkCapturedData l (parsedTable cd) (method cd) (capturedAt cd) (sourceUrl cd)
                 (tableMeta cd).

Definition setSourceUrl (u : option string) (cd : CapturedData) : CapturedData :=
  mkCapturedData (apiResponses cd) (parsedTable cd) (method cd) (capturedAt cd) u
                 (tableMeta cd).

(** The three assignments every successful capture makes. *)
Definition setCapture (t : Table) (m : string) (now : Z) (cd : CapturedData)
  : CapturedData :=
  mkCapturedData (apiResponses cd) (Some t) (Some m) (Some now) (sourceUrl cd)
                 (tableMeta cd).

(** [x || null] on an optional string: the empty string is falsy. *)
Definition truthyString (x : option string) : option string :=
  match x with
  | Some u => if String.eqb u "" then None else Some u
  | None => None
  end.

(** The buffer update of [handleApiCapture]: [unshift] a flagged response,
    [push] any other, then keep the first hundred. *)
Definition storeResponse (payload : Payload.t) (responses : list Payload.t)
  : list Payload.t :=
  let responses1 :=
    if Payload.hasTableData payload then payload :: responses
    else (responses ++ [payload])%list in
  if Nat.ltb 100 (length responses1) then slice responses1 0 100 else responses1.

(** [parsed && parsed.rows.length > 0]. *)
Definition hasRows (parsed : option Table) : option Table :=
  match parsed with
  | Some p => if Nat.ltb 0 (length (rows p)) then Some p else None
  | None => None
  end.

(** [handleApiCapture(payload, tab)], with [tab?.url] and [Date.now()]
    given.  The store is returned as the handler leaves it, also when the
    parser throws. *)
Definition handleApiCapture (payload : Payload.t) (tabUrl : option string) (now : Z)
           (cd : CapturedData) : CapturedData * result unit :=
  let cd := setApiResponses (storeResponse payload (apiResponses cd)) cd in
  let cd := setSourceUrl (truthyString tabUrl) cd in
  if Payload.hasTableData payload then
    match parseApiResponsesToTable (apiResponses cd) with
    | Throw e => (cd, Throw e)
    | Ok parsed =>
        match hasRows parsed with
        | Some p =>
            let replace :=
              match parsedTable cd with
              | None => true
              | Some old => Nat.leb (length (rows old)) (length (rows p))
              end in
            if replace then (setCapture p "api" now cd, Ok tt) else (cd, Ok tt)
        | None => (cd, Ok tt)
        end
    end
  else (cd, Ok tt).

(** What a handler passes to [sendResponse]. *)
Inductive Response : Type :=
| Success (hs : list string) (rs : list (list string)) (rowCount : nat) (m : string)
| Failure (error : string).

Definition noResponsesError : string :=
  "No API responses captured yet. Navigate to a Clay table, reload the page (Ctrl+R), then try again.".

Definition noTableError (responses : list Payload.t) : string :=
  let withTableData := length (filter Payload.hasTableData responses) in
  let urls := join ", " (map Payload.url (slice responses 0 5)) in
  "Captured " ++ indexToString (length responses) ++ " API responses ("
    ++ indexToString withTableData
    ++ " with table-like data) but could not map to table columns. URLs: "
    ++ urls ++ ". Try DOM scraping instead.".

(** [handleUseApiData(sendResponse)]. *)
Definition handleUseApiData (now : Z) (cd : CapturedData)
  : CapturedData * result Response :=
  if Nat.eqb (length (apiResponses cd)) 0 then (cd, Ok (Failure noResponsesError))
  else
    match parseApiResponsesToTable (apiResponses cd) with
    | Throw e => (cd, Throw e)
    | Ok parsed =>
        match hasRows parsed with
        | Some p =>
            (setCapture p "api" now cd,
             Ok (Success (headers p) (rows p) (length (rows p)) "api"))
        | None => (cd, Ok (Failure (noTableError (apiResponses cd))))
        end
    end.

(** The content script's answer to [SCRAPE_VISIBLE] / [SCRAPE_ALL]. *)
Inductive ScrapeReply : Type :=
| Scraped (hs : list string) (rs : list (list string)) (m : string)
| ScrapeError (error : string).

(** [forwardToContentScript(action, sendResponse)].  [tab] is the active
    tab with its URL, if any; [reply] is what [chrome.tabs.sendMessage]
    resolves to ([None] for [undefined]) or the error it rejects with. *)
Definition forwardToContentScript (tab : option (option string))
           (reply : result (option ScrapeReply)) (now : Z) (cd : CapturedData)
  : CapturedData * result (option ScrapeReply) :=
  match tab with
  | None => (cd, Ok (Some (ScrapeError "No active tab found")))
  | Some tabUrl =>
      match truthyString tabUrl with
      | None => (cd, Ok (Some (ScrapeError "Not on a Clay.com page")))
      | Some u =>
          if negb (strIncludes "app.clay.com" u)
          then (cd, Ok (Some (ScrapeError "Not on a Clay.com page")))
          else
            match reply with
            | Throw e =>
                (cd, Ok (Some (ScrapeError
                   ("Could not communicate with the page: " ++ e
                      ++ ". Try reloading the Clay page."))))
            | Ok (Some (Scraped hs rs m)) =>
                (setSourceUrl (Some u) (setCapture (mkTable hs rs) m now cd),
                 Ok (Some (Scraped hs rs m)))
            | Ok other => (cd, Ok other)
            end
      end
  end.

(** *** CSV generation and row ranges *)

(** [obj[k] = v] on an object kept as its list of properties: a new key
    goes last (keys that are array indices apart, see the conventions). *)
Fixpoint objSet {V} (k : string) (v : V) (o : list (string * V)) : list (string * V) :=
  match o with
  | [] => [(k, v)]
  | (k', v') :: tl =>
      if String.eqb k k' then (k, v) :: tl else (k', v') :: objSet k v tl
  end.

(** [buildSearchMetadata()]; the record count is kept in its [String]
    form, the only way the CSV writer reads it. *)
Definition buildSearchMetadata (meta : option TableMeta)
  : option (list (string * string)) :=
  match meta with
  | None => None
  | Some m =>
      let result := [] in
      let result :=
        if String.eqb (tableName m) "" then result
        else objSet "Table Name" (tableName m) result in
      let result :=
        if String.eqb (sourceName m) "" then result
        else objSet "Source" (sourceName m) result in
      let result :=
        if Z.eqb (totalRecords m) 0 then result
        else objSet "Total Records" (numToString (totalRecords m)) result in
      let result :=
        fold_left (fun acc kv => objSet (fst kv) (snd kv) acc) (searchFields m) result in
      if Nat.ltb 0 (length result) then Some result else None
  end.

(** [str.replace] of every double quote by two. *)
Fixpoint doubleQuotes (str : string) : string :=
  match str with
  | EmptyString => EmptyString
  | String c tl =>
      if Ascii.eqb c dquote then String dquote (String dquote (doubleQuotes tl))
      else String c (doubleQuotes tl)
  end.

(** [escape(val)]: [val ?? ''], quotes doubled, wrapped in quotes. *)
Definition escape (val : option string) : string :=
  let str := orElse val "" in
  String dquote (doubleQuotes str ++ String dquote "").

Definition BOM : string :=
  String (ascii_of_nat 239) (String (ascii_of_nat 187) (String (ascii_of_nat 191) "")).

(** A string literal of the source that is written with its quotes. *)
Definition quoted (s : string) : string :=
  String dquote (s ++ String dquote "").

Definition metadataLine (kv : string * string) : string :=
  escape (Some (fst kv)) ++ "," ++ escape (Some (snd kv)).

Definition csvRow (hs : list string) (row : list string) : string :=
  join "," (map (fun i => escape (nth_error row i)) (seq 0 (length hs))).

(** [generateCSV(headers, rows)], reading the metadata of the store. *)
Definition generateCSV (meta : option TableMeta) (hs : list string)
           (rs : list (list string)) : string :=
  let lines :=
    match buildSearchMetadata meta with
    | Some metadata =>
        app (quoted "--- SEARCH PARAMETERS ---" :: map metadataLine metadata)
            [quoted "---"; ""]
    | None => []
    end in
  let lines := app lines [join "," (map (fun h => escape (Some h)) hs)] in
  let lines := app lines (map (csvRow hs) rs) in
  BOM ++ join CRLF lines.

Record Range : Type := mkRange {
  start : Z;
  end_ : Z
}.

(** [applyRange(rows, range)]. *)
Definition applyRange {A} (rs : list A) (range : option Range) : list A :=
  match range with
  | None => rs
  | Some r => slice rs (start r - 1) (end_ r)
  end.

(** The content that [exportAsFile] downloads and [copyToClipboard] copies
    when the format is not [json]: the CSV text of the selected rows, or
    the error both answer with when nothing is captured. *)
Definition csvContent (range : option Range) (cd : CapturedData) : string + string :=
  match parsedTable cd with
  | None => inl "No data captured yet"
  | Some table =>
      let rs := applyRange (rows table) range in
      inr (generateCSV (tableMeta cd) (headers table) rs)
  end.

End Background.

(* ================================================================= *)
(** ** content.js: the DOM path *)

Module Content.
Import JS.

(** A JavaScript [Map] keyed by strings: its entries in insertion order.
    [set] on a key already there keeps the entry's place. *)
Definition Map (V : Type) : Type := list (string * V).

Definition mapGet {V} (k : string) (m : Map V) : option V := getOwn k m.

Definition mapHas {V} (k : string) (m : Map V) : bool := hasOwn k m.

Fixpoint mapSet {V} (k : string) (v : V) (m : Map V) : Map V :=
  match m with
  | [] => [(k, v)]
  | (k', v') :: tl =>
      if String.eqb k k' then (k, v) :: tl else (k', v') :: mapSet k v tl
  end.

(** A captured row: [{ index, cells: Map<fieldId, value> }]. *)
Record RowData : Type := mkRowData {
  index : Z;
  cells : Map string
}.

(** The inner loop body of [mergeRows]:
    [if (val && (!existing.cells.has(fid) || existing.cells.get(fid) === ''))
       existing.cells.set(fid, val)]. *)
Definition fillCell (existingCells : Map string) (entry : string * string)
  : Map string :=
  let fid := fst entry in
  let val := snd entry in
  if negb (String.eqb val "")
     && (negb (mapHas fid existingCells)
         || match mapGet fid existingCells with
            | Some old => String.eqb old ""
            | None => false
            end)
  then mapSet fid val existingCells
  else existingCells.

(** The outer loop body: an existing row keeps its object (and so its
    index) and has its cells filled; a new row is stored as it comes. *)
Definition mergeRow (target : Map RowData) (entry : string * RowData) : Map RowData :=
  let rowId := fst entry in
  let rowData := snd entry in
  if mapHas rowId target then
    match mapGet rowId target with
    | Some existing =>
        mapSet rowId
               (mkRowData (index existing)
                          (fold_left fillCell (cells rowData) (cells existing)))
               target
    | None => target
    end
  else mapSet rowId rowData target.

(** [mergeRows(target, source)]. *)
Definition mergeRows (target source : Map RowData) : Map RowData :=
  fold_left mergeRow source target.

(** *** Horizontal scan positions of [scrapeAllRowsByScrolling]

    First over exact rationals: the positions without the rounding of the
    arithmetic, which is all the sweep needs of them.  The same code in the
    arithmetic of JavaScript numbers follows in [IEEE]. *)

Definition Qltb (a b : Q) : bool := negb (Qle_bool b a).

(** [Math.max(scrollContainer.clientWidth * 0.6, 300)]. *)
Definition horizontalStep (clientWidth : Q) : Q :=
  Qmax (clientWidth * 0.6) 300.

(** [while (hPos < maxScrollLeft) { hPositions.push(hPos); hPos += step }],
    run for at most [fuel] tests of the loop condition. *)
Fixpoint scanLoop (fuel : nat) (step maxScrollLeft hPos : Q) (hPositions : list Q)
  : option (list Q) :=
  match fuel with
  | O => None
  | S fuel' =>
      if Qltb hPos maxScrollLeft
      then scanLoop fuel' step maxScrollLeft (hPos + step) (hPositions ++ [hPos])%list
      else Some hPositions
  end.

(** The list [hPositions] the traversal iterates over. *)
Definition buildHPositions (fuel : nat) (maxScrollLeft clientWidth : Q)
  : option (list Q) :=
  let step := horizontalStep clientWidth in
  let hPositions := [0%Q] in
  if Qltb 10 maxScrollLeft then
    match scanLoop fuel step maxScrollLeft step hPositions with
    | Some hPositions => Some (hPositions ++ [maxScrollLeft])%list
    | None => None
    end
  else Some hPositions.

(** The scan positions as the code computes them, in binary64. *)
Module IEEE.

(** [Math.max(scrollContainer.clientWidth * 0.6, 300)]; the literal [0.6]
    is the double nearest to 6/10. *)
Definition horizontalStep (clientWidth : Double.double) : Double.double :=
  Double.Math_max (Double.mul clientWidth (Double.div (Double.ofZ 6) (Double.ofZ 10)))
                  (Double.ofZ 300).

(** [while (hPos < maxScrollLeft) { hPositions.push(hPos); hPos += step }],
    run for at most [fuel] tests of the loop condition. *)
Fixpoint scanLoop (fuel : nat) (step maxScrollLeft hPos : Double.double)
         (hPositions : list Double.double) : option (list Double.double) :=
  match fuel with
  | O => None
  | S fuel' =>
      if Double.ltb hPos maxScrollLeft
      then scanLoop fuel' step maxScrollLeft (Double.add hPos step)
                    (hPositions ++ [hPos])%list
      else Some hPositions
  end.

(** The list [hPositions] the traversal iterates over. *)
Definition buildHPositions (fuel : nat) (maxScrollLeft clientWidth : Double.double)
  : option (list Double.double) :=
  let step := horizontalStep clientWidth in
  let hPositions := [Double.ofZ 0] in
  if Double.ltb (Double.ofZ 10) maxScrollLeft then
    match scanLoop fuel step maxScrollLeft step hPositions with
    | Some hPositions => Some (hPositions ++ [maxScrollLeft])%list
    | None => None
    end
  else Some hPositions.

End IEEE.

(** *** From the accumulator to the table *)

(** [Array.prototype.sort] with the comparator [a.index - b.index]: the
    sort is stable, so the result is the one an insertion sort gives that
    puts a row before the first row of an index not smaller than its own. *)
Fixpoint insertByIndex (row : RowData) (sorted : list RowData) : list RowData :=
  match sorted with
  | [] => [row]
  | r :: tl =>
      if (index row <=? index r)%Z then row :: r :: tl
      else r :: insertByIndex row tl
  end.

Definition sortByIndex (values : list RowData) : list RowData :=
  fold_right insertByIndex [] values.

(** [fieldIds.map(fid => row.cells.get(fid) || '')]. *)
Definition projectRow (fieldIds : list string) (row : RowData) : list string :=
  map (fun fid =>
         match mapGet fid (cells row) with
         | Some val => if String.eqb val "" then "" else val
         | None => ""
         end)
      fieldIds.

(** [convertRowsMapToArray(rowsMap, fieldIds)]. *)
Definition convertRowsMapToArray (rowsMap : Map RowData) (fieldIds : list string)
  : list (list string) :=
  let sorted := sortByIndex (map snd rowsMap) in
  map (projectRow fieldIds) sorted.

(** *** The vertical sweep of [scrapeAllRowsByScrolling]

    The scroll container and the rendered grid are the environment of the
    loop: [setScrollTop x] is the [scrollTop] the container reports after
    [x] is assigned to it, and [extractRenderedRows top] are the rows
    [extractRenderedRows(fieldIds)] finds rendered at that [scrollTop] (at
    the horizontal position of the sweep). *)
Section VerticalSweep.
Variable setScrollTop : Q -> Q.
Variable extractRenderedRows : Q -> Map RowData.
Variable verticalStep : Q.

(** The [while (stableCount < 3)] loop, run for at most [fuel] tests of its
    condition, from the current [scrollTop]; it returns the accumulator and
    the final [scrollTop]. *)
Fixpoint sweepLoop (fuel : nat) (scrollTop prevScrollTop : Q) (stableCount : nat)
         (allRows : Map RowData) : option (Map RowData * Q) :=
  match fuel with
  | O => None
  | S fuel' =>
      if Nat.ltb stableCount 3 then
        let rendered := extractRenderedRows scrollTop in
        let allRows := mergeRows allRows rendered in
        let scrollTop := setScrollTop (scrollTop + verticalStep) in
        let stableCount :=
          if Qltb (Qabs (scrollTop - prevScrollTop)) 2 then S stableCount else O in
        sweepLoop fuel' scrollTop scrollTop stableCount allRows
      else Some (allRows, scrollTop)
  end.

(** One vertical sweep: [scrollTop = 0], [prevScrollTop = -1],
    [stableCount = 0], then the loop. *)
Definition verticalSweep (fuel : nat) (allRows : Map RowData)
  : option (Map RowData * Q) :=
  sweepLoop fuel (setScrollTop 0) (-1) 0 allRows.

(** The [scrollTop] at which the loop extracts in its [k]-th turn. *)
Fixpoint sweepTop (k : nat) : Q :=
  match k with
  | O => setScrollTop 0
  | S j => setScrollTop (sweepTop j + verticalStep)
  end.
End VerticalSweep.

(** *** [scrapeAllRowsByScrolling]

    The path on which the headers and the scroll container are found.  The
    container answers assignments to [scrollLeft] and [scrollTop] with the
    position it ends at, and [extractRenderedRowsAt left top] are the rows
    rendered at that position.  [labels] and [fieldIds] are what
    [extractHeaders()] returned.  Restoring the original scroll position
    does not bear on the result. *)
Section Scrape.
Variable setScrollTop setScrollLeft : Q -> Q.
Variable extractRenderedRowsAt : Q -> Q -> Map RowData.



End Scrape.

End Content.

(* ================================================================= *)
(** ** popup.js: the row range typed by the user *)

Module Popup.
Import JS Background.

(** The byte length of the white space character at the head of a text, 0
    when there is none.  White space is what [trim] removes and what [\s]
    matches: tab, line feed, vertical tab, form feed, carriage return and
    space, and in UTF-8 the characters U+00A0, U+1680, U+2000 to U+200A,
    U+2028, U+2029, U+202F, U+205F, U+3000 and U+FEFF. *)
Definition whiteSpaceLength (s : string) : nat :=
  match s with
  | EmptyString => 0
  | String a rest =>
      let a := nat_of_ascii a in
      if (Nat.leb 9 a && Nat.leb a 13) || Nat.eqb a 32 then 1
      else
        match rest with
        | EmptyString => 0
        | String b rest' =>
            let b := nat_of_ascii b in
            if Nat.eqb a 194 && Nat.eqb b 160 then 2
            else
              match rest' with
              | EmptyString => 0
              | String c _ =>
                  let c := nat_of_ascii c in
                  if Nat.eqb a 225 && Nat.eqb b 154 && Nat.eqb c 128 then 3
                  else if Nat.eqb a 226 && Nat.eqb b 128
                          && ((Nat.leb 128 c && Nat.leb c 138)
                              || Nat.eqb c 168 || Nat.eqb c 169 || Nat.eqb c 175)
                  then 3
                  else if Nat.eqb a 226 && Nat.eqb b 129 && Nat.eqb c 159 then 3
                  else if Nat.eqb a 227 && Nat.eqb b 128 && Nat.eqb c 128 then 3
                  else if Nat.eqb a 239 && Nat.eqb b 187 && Nat.eqb c 191 then 3
                  else 0
              end
        end
  end.

(** The text after its leading white space, [skip] bytes of a white space
    character still to be dropped. *)
Fixpoint dropWhiteSpace (skip : nat) (s : string) {struct s} : string :=
  match s with
  | EmptyString => EmptyString
  | String c tl =>
      match skip with
      | S k => dropWhiteSpace k tl
      | O =>
          match whiteSpaceLength s with
          | O => s
          | S k => dropWhiteSpace k tl
          end
      end
  end.

Definition isBlank (s : string) : bool :=
  match dropWhiteSpace 0 s with
  | EmptyString => true
  | _ => false
  end.

Fixpoint trimEnd (s : string) : string :=
  match s with
  | EmptyString => EmptyString
  | String c tl => if isBlank s then EmptyString else String c (trimEnd tl)
  end.

(** [s.trim()]. *)
Definition trim (s : string) : string := trimEnd (dropWhiteSpace 0 s).

(** [\d]. *)
Definition isDigit (c : ascii) : bool :=
  let n := nat_of_ascii c in Nat.leb 48 n && Nat.leb n 57.

(** The longest run of digits at the head of a text, and what follows. *)
Fixpoint spanDigits (s : string) : string * string :=
  match s with
  | EmptyString => (EmptyString, EmptyString)
  | String c tl =>
      if isDigit c then let (ds, rest) := spanDigits tl in (String c ds, rest)
      else (EmptyString, s)
  end.

(** The number a run of decimal digits denotes. *)
Fixpoint digitsValue (acc : nat) (ds : string) : nat :=
  match ds with
  | EmptyString => acc
  | String c tl => digitsValue (10 * acc + (nat_of_ascii c - 48)) tl
  end.

(** [parseInt(s, 10)], [None] for [NaN]: white space, an optional sign,
    then the longest run of digits; whatever follows is ignored. *)
Definition parseInt (s : string) : option Z :=
  let s := dropWhiteSpace 0 s in
  let signed :=
    match s with
    | String c tl =>
        if Ascii.eqb c "-"%char then (true, tl)
        else if Ascii.eqb c "+"%char then (false, tl)
        else (false, s)
    | EmptyString => (false, s)
    end in
  let (ds, _) := spanDigits (snd signed) in
  match ds with
  | EmptyString => None
  | _ =>
      let n := Z.of_nat (digitsValue 0 ds) in
      Some (if fst signed then (- n)%Z else n)
  end.

(** [trimmed.match(/^(\d+)\s*-\s*(\d+)$/)]: the two groups of digits. *)
Definition matchRange (trimmed : string) : option (string * string) :=
  let (first, rest) := spanDigits trimmed in
  match first with
  | EmptyString => None
  | _ =>
      match dropWhiteSpace 0 rest with
      | String c rest' =>
          if Ascii.eqb c "-"%char then
            let (second, rest'') := spanDigits (dropWhiteSpace 0 rest') in
            match second, rest'' with
            | String _ _, EmptyString => Some (first, second)
            | _, _ => None
            end
          else None
      | EmptyString => None
      end
  end.

(** [parseRowRange(input, totalRows)]: [Ok None] for all rows, a range, or
    the error thrown. *)
Definition parseRowRange (input : string) (totalRows : Z) : result (option Range) :=
  let trimmed := trim input in
  match trimmed with
  | EmptyString => Ok None
  | _ =>
      match matchRange trimmed with
      | None =>
          match parseInt trimmed with
          | Some single =>
              if (1 <=? single)%Z && (single <=? totalRows)%Z
              then Ok (Some (mkRange single single))
              else Throw ("Invalid range " ++ quoted trimmed ++ ". Use format: 1-25")
          | None => Throw ("Invalid range " ++ quoted trimmed ++ ". Use format: 1-25")
          end
      | Some (first, second) =>
          match parseInt first, parseInt second with
          | Some start, Some end_ =>
              if (start <? 1)%Z then Throw "Start row must be at least 1"
              else if (totalRows <? end_)%Z
              then Throw ("End row can't exceed " ++ numToString totalRows)
              else if (end_ <? start)%Z
              then Throw "Start must be less than or equal to end"
              else Ok (Some (mkRange start end_))
          | _, _ => Throw "TypeError"
          end
      end
  end.

End Popup.

(* ================================================================= *)
(** ** interceptor.js: flagging responses *)

Module Interceptor.
Import JS.

(** What [findArraysOfObjects] records of an array of objects. *)
Record Found : Type := mkFound {
  arrayLength : nat;
  keys : nat;
  sample : list string
}.

(** [for (const item of arr.slice(0, n)) ...] with the results appended:
    a walk over the first [n] elements. *)
Section Prefix.
Context {A B : Type} (f : A -> list B).

Fixpoint overPrefix (n : nat) (l : list A) : list B :=
  match n, l with
  | S k, x :: tl => (f x ++ overPrefix k tl)%list
  | _, _ => []
  end.
End Prefix.

(** [findArraysOfObjects(obj, depth)]. *)
Fixpoint findArraysOfObjects (obj : json) (depth : nat) : list Found :=
  if Nat.ltb 6 depth then []
  else
    match obj with
    | JArr items =>
        let results :=
          match items with
          | JObj firstProps :: _ =>
              let keyCount := length (map fst firstProps) in
              if Nat.leb 2 keyCount
              then [mkFound (length items) keyCount (slice (map fst firstProps) 0 5)]
              else []
          | _ => []
          end in
        (results
           ++ overPrefix
                (fun item =>
                   if isObjectLike item then findArraysOfObjects item (S depth) else [])
                3 items)%list
    | JObj props =>
        flat_map (fun kv => findArraysOfObjects (snd kv) (S depth)) props
    | _ => []
    end.

(** [containsTableData(data)]: the flag [hasTableData] of a relayed
    response. *)
Definition containsTableData (data : json) : bool :=
  if negb (isObjectLike data) then false
  else Nat.ltb 0 (length (findArraysOfObjects data 0)).

End Interceptor.

(* ================================================================= *)
(** ** Vocabulary of the properties *)

Import JS Background Content.
Import Popup Interceptor.

(** The [k]-th multiple of the horizontal step. *)
Definition multiple (step : Q) (k : nat) : Q := inject_Z (Z.of_nat k) * step.

(** A slot to be filled: missing, or the empty string; and the cell the
    merge rule leaves, given the accumulated slot and the incoming one. *)
Definition isGap (slot : option string) : bool :=
  match slot with
  | None => true
  | Some v => String.eqb v ""
  end.

Definition mergedCell (accumulated incoming : option string) : option string :=
  match incoming with
  | Some val => if isGap accumulated && negb (String.eqb val "") then Some val else accumulated
  | None => accumulated
  end.

(** A later state of a row that has kept the index and every non-empty
    cell of an earlier one. *)
Definition keeps (before after : RowData) : Prop :=
  index after = index before /\
  forall fid v, mapGet fid (cells before) = Some v -> v <> "" ->
                mapGet fid (cells after) = Some v.

(** Nesting depth of a JSON value. *)
Fixpoint depth (v : json) : nat :=
  match v with
  | JArr items => S (list_max (map depth items))
  | JObj props => S (list_max (map (fun kv => depth (snd kv)) props))
  | _ => 0
  end.

(** The property names [flattenValue] tries on an object, in order: those
    whose value it flattens, then those whose value it prints. *)
Definition flattenedKeys : list string :=
  ["value"; "text"; "name"; "label"; "title"; "display"].

Definition printedKeys : list string := ["url"; "href"; "email"; "phone"].

Definition priorityKeys : list string := (flattenedKeys ++ printedKeys)%list.

(** The first of [keys] that is a property of the object, with its value. *)
Fixpoint firstPresent (keys : list string) (props : list (string * json))
  : option (string * json) :=
  match keys with
  | [] => None
  | k :: tl =>
      match getOwn k props with
      | Some v => Some (k, v)
      | None => firstPresent tl props
      end
  end.

(** Strings, numbers and booleans. *)
Definition isScalar (v : json) : bool :=
  match v with
  | JStr _ | JNum _ | JBool _ => true
  | _ => false
  end.

(** [nestedAt d doc v]: the value [v] sits [d] levels below the root of
    [doc], each level an array element or a property value. *)
Inductive nestedAt : nat -> json -> json -> Prop :=
| nested_here (v : json) : nestedAt 0 v v
| nested_item (d : nat) (items : list json) (x v : json) :
    In x items -> nestedAt d x v -> nestedAt (S d) (JArr items) v
| nested_prop (d : nat) (props : list (string * json)) (k : string) (x v : json) :
    In (k, x) props -> nestedAt d x v -> nestedAt (S d) (JObj props) v.

(** How many of the first element's keys an element has. *)
Definition sharedKeys (firstKeys : list string) (item : json) : nat :=
  length (filter (fun k => includes (objectKeys item) k) firstKeys).

(** An array of table shape: not empty, its first element a plain object of
    at least two keys, and each of its first five elements an object (or
    array) with at least half of those keys. *)
Definition qualifies (arr : list json) : Prop :=
  (1 <= length arr)%nat /\
  exists firstProps : list (string * json),
    nth_error arr 0 = Some (JObj firstProps) /\
    (2 <= length firstProps)%nat /\
    forall (i : nat) (item : json),
      (i < Nat.min 5 (length arr))%nat -> nth_error arr i = Some item ->
      isObjectLike item = true /\
      (length firstProps <= 2 * sharedKeys (map fst firstProps) item)%nat.

(** [v] wrapped in [n] one-element arrays. *)
Fixpoint wrap (n : nat) (v : json) : json :=
  match n with
  | O => v
  | S k => JArr [wrap k v]
  end.

(** A record with the given keys. *)
Definition record (keys : list string) : json :=
  JObj (map (fun k => (k, JNum 1)) keys).

(** What a call at depth [d] reports, starting from no results. *)
Definition found (d : nat) (v : json) : list (list json) := findAllTableArrays v d [].

(** The keys an element contributes to the header row. *)
Definition keysOf (item : json) : list string :=
  if isObjectLike item then objectKeys item else [].

(** A list of keys with only the first occurrence of each kept. *)
Fixpoint dedup (l : list string) : list string :=
  match l with
  | [] => []
  | k :: tl => k :: filter (fun k' => negb (String.eqb k' k)) (dedup tl)
  end.

(** The ordered union of the keys of the first ten elements. *)
Definition unionOfKeys (arr : list json) : list string :=
  dedup (concat (map keysOf (firstn (Nat.min 10 (length arr)) arr))).

(** A captured response with the given body. *)
Definition response (body : json) : Payload.t :=
  Payload.mk "https://api.clay.com/v3/records" "GET" body true 0.

(** The end-to-end payload of the specification. *)
Definition itemsPayload : json :=
  JObj [("data", JObj [("items", JArr [
    JObj [("id", JNum 1); ("name", JStr "A"); ("__typename", JStr "X")];
    JObj [("id", JNum 2); ("name", JStr "B"); ("__typename", JStr "X")]])])].

(** Five records followed by [null]. *)
Definition recordsThenNull : list json :=
  let r := JObj [("id", JNum 1); ("name", JStr "A")] in
  [r; r; r; r; r; JNull].

(** The batch after a run of arrivals, from the empty store. *)
Definition runCaptures (arrivals : list Payload.t) : list Payload.t :=
  fold_left (fun responses payload => storeResponse payload responses) arrivals [].

Definition flagged (p : Payload.t) : Prop := Payload.hasTableData p = true.

Definition unflagged (p : Payload.t) : Prop := Payload.hasTableData p = false.

(** The batch before the cap is applied. *)
Definition appended (payload : Payload.t) (responses : list Payload.t)
  : list Payload.t :=
  if Payload.hasTableData payload then payload :: responses
  else (responses ++ [payload])%list.

(** [e] is dropped when [payload] is stored. *)
Definition evictedBy (payload : Payload.t) (responses : list Payload.t)
           (e : Payload.t) : Prop :=
  In e (appended payload responses) /\ ~ In e (storeResponse payload responses).

(** Eviction of the oldest entry of a tier first: whatever is dropped is no
    younger than any entry of its tier that stays. *)
Definition oldestFirst (payload : Payload.t) (responses : list Payload.t) : Prop :=
  forall e e' : Payload.t,
    evictedBy payload responses e ->
    In e' (storeResponse payload responses) ->
    Payload.hasTableData e' = Payload.hasTableData e ->
    (Payload.timestamp e <= Payload.timestamp e')%Z.

(** An unflagged response relayed at time [t]. *)
Definition plain (t : nat) : Payload.t :=
  Payload.mk "https://api.clay.com/v3/me" "GET" JNull false (Z.of_nat t).

(** Row count of the stored table, none counting as zero. *)
Definition rowCount (t : option Table) : nat :=
  match t with
  | Some t => length (rows t)
  | None => 0
  end.

(** The replacement policy of the claim C1 between two states of the store:
    the table is the same, or the new one has at least as many rows. *)
Definition monotone (before after : CapturedData) : Prop :=
  parsedTable after = parsedTable before \/
  (rowCount (parsedTable before) <= rowCount (parsedTable after))%nat.

(** A store holding a three-row table from a DOM scrape and one captured
    response of two records. *)
Definition scrollTable : Table :=
  mkTable ["Name"] [["Ada"]; ["Grace"]; ["Edsger"]].

Definition storeAfterScroll : CapturedData :=
  mkCapturedData [response itemsPayload] (Some scrollTable) (Some "dom_scroll")
                 (Some 1700000000000%Z) (Some "https://app.clay.com/workspaces/1")
                 None.

(** *** Reading CSV back

    A reader for the CSV text: it strips the byte-order mark, splits lines
    at CRLF and fields at commas outside quotes, and unquotes each field,
    undoubling the quotes inside.  It is written on its own bytes, not on
    the constants of the writer. *)

(** The bytes of the format, as the reader knows them: the double quote,
    carriage return and line feed, and the three bytes EF BB BF of the UTF-8
    byte-order mark. *)
Definition quoteByte : ascii := ascii_of_nat 34.
Definition crByte : ascii := ascii_of_nat 13.
Definition lfByte : ascii := ascii_of_nat 10.

Definition lineBreak : string := String crByte (String lfByte "").

Definition utf8Mark : string :=
  String (ascii_of_nat 239) (String (ascii_of_nat 187) (String (ascii_of_nat 191) "")).

(** A field with each of its double quotes written twice. *)
Fixpoint doubled (f : string) : string :=
  match f with
  | EmptyString => EmptyString
  | String c tl =>
      if Ascii.eqb c quoteByte then String quoteByte (String quoteByte (doubled tl))
      else String c (doubled tl)
  end.

Inductive readerState : Type :=
| LineStart   (* before the first field of a line *)
| FieldStart  (* after a comma *)
| InField     (* inside the quotes of a field *)
| QuoteSeen   (* after a quote inside a field *)
| AfterCR.    (* after the carriage return ending a line *)

Fixpoint readCSV (st : readerState) (field : string) (row : list string)
         (done : list (list string)) (text : string) : option (list (list string)) :=
  match text with
  | EmptyString =>
      match st with
      | LineStart => Some (done ++ [[]])%list
      | QuoteSeen => Some (done ++ [row ++ [field]])%list
      | _ => None
      end
  | String c tl =>
      match st with
      | LineStart =>
          if Ascii.eqb c quoteByte then readCSV InField "" [] done tl
          else if Ascii.eqb c crByte then readCSV AfterCR "" [] done tl
          else None
      | FieldStart =>
          if Ascii.eqb c quoteByte then readCSV InField "" row done tl else None
      | InField =>
          if Ascii.eqb c quoteByte then readCSV QuoteSeen field row done tl
          else readCSV InField (field ++ String c "") row done tl
      | QuoteSeen =>
          if Ascii.eqb c quoteByte then readCSV InField (field ++ String quoteByte "") row done tl
          else if Ascii.eqb c ","%char then readCSV FieldStart "" (row ++ [field])%list done tl
          else if Ascii.eqb c crByte then readCSV AfterCR "" (row ++ [field])%list done tl
          else None
      | AfterCR =>
          if Ascii.eqb c lfByte then readCSV LineStart "" [] (done ++ [row])%list tl else None
      end
  end.

(** [text] without the leading [mark], if it starts with it. *)
Fixpoint stripPrefix (mark text : string) : option string :=
  match mark, text with
  | EmptyString, _ => Some text
  | String a mark', String b text' =>
      if Ascii.eqb a b then stripPrefix mark' text' else None
  | _, _ => None
  end.

Definition parseCSV (text : string) : option (list (list string)) :=
  match stripPrefix utf8Mark text with
  | Some body => readCSV LineStart "" [] [] body
  | None => None
  end.

(** The table read back: the first line its headers, the others its rows. *)
Definition parseTable (text : string) : option Table :=
  match parseCSV text with
  | Some (hs :: rs) => Some (mkTable hs rs)
  | _ => None
  end.

(** A field in quotes with its quotes doubled, and a line of such fields. *)
Definition quoteField (f : string) : string :=
  String quoteByte (doubled f ++ String quoteByte "").

Definition csvLine (fields : list string) : string :=
  join "," (map quoteField fields).

(** A table whose rows are as wide as its header row. *)
Definition rectangular (hs : list string) (rs : list (list string)) : Prop :=
  Forall (fun row => length row = length hs) rs.

(** The text after the first field of a line. *)
Fixpoint tailOf (fs : list string) : string :=
  match fs with
  | [] => ""
  | g :: gs => "," ++ quoteField g ++ tailOf gs
  end.

(** Rows in ascending order of their index. *)
Definition byIndex (a b : RowData) : Prop := (index a <= index b)%Z.

(** The text a table shows for field [fid] of an accumulated row: the
    stored value, and the empty string where the row has none. *)
Definition cellText (r : RowData) (fid : string) : string :=
  match mapGet fid (cells r) with
  | Some v => v
  | None => ""
  end.

(** The rows of a given index. *)
Definition withIndex (i : Z) (l : list RowData) : list RowData :=
  filter (fun r => Z.eqb (index r) i) l.

(** The accumulator holds a non-empty value for field [fid] of row [k]. *)
Definition filled (m : Map RowData) (k fid : string) : Prop :=
  exists (ex : RowData) (v : string),
    mapGet k m = Some ex /\ mapGet fid (cells ex) = Some v /\ v <> "".

(** The accumulator after a sequence of passes. *)
Definition mergePasses (target : Map RowData) (passes : list (Map RowData))
  : Map RowData :=
  fold_left mergeRows passes target.

(** Every candidate array of a batch, in the order the parser meets them. *)
Definition candidatesOf (responses : list Payload.t) : list (list json) :=
  flat_map (fun resp => findAllTableArrays (Payload.data resp) 0 []) responses.

(** What the parser keeps of a well-formed table. *)
Definition wellFormedTable (t : Table) : Prop :=
  headers t <> [] /\ rows t <> [] /\
  rectangular (headers t) (rows t) /\
  NoDup (headers t) /\
  Forall (fun h => includes skipKeys h = false) (headers t).

(** The table [t] is assembled from the candidate [arr]. *)
Definition assembledFrom (t : Table) (arr : list json) : Prop :=
  extractHeadersFromObjects arr = Ok (headers t) /\
  buildRows (headers t) arr = Ok (rows t).

(** The lines of the metadata block as the reader returns them. *)
Definition metadataBlock (metadata : list (string * string)) : list (list string) :=
  (["--- SEARCH PARAMETERS ---"] :: map (fun kv => [fst kv; snd kv]) metadata
     ++ [["---"]; []])%list.

(** The entries [buildSearchMetadata] writes before the search fields. *)
Definition standardEntries (m : TableMeta) : list (string * string) :=
  ((if String.eqb (tableName m) "" then [] else [("Table Name", tableName m)])
     ++ (if String.eqb (sourceName m) "" then [] else [("Source", sourceName m)])
     ++ (if Z.eqb (totalRecords m) 0 then []
         else [("Total Records", numToString (totalRecords m))]))%list.

(** A range within a table of [totalRows] rows. *)
Definition validRange (totalRows : Z) (r : Range) : Prop :=
  (1 <= start r)%Z /\ (start r <= end_ r)%Z /\ (end_ r <= totalRows)%Z.

(** A run of [n] spaces. *)
Fixpoint spaces (n : nat) : string :=
  match n with
  | O => ""
  | S k => String " " (spaces k)
  end.

(** [reachedAt d doc v]: the value [v] sits [d] levels below the root of
    [doc] on a path the interceptor walks: through one of the first three
    elements of an array, or through a property value. *)
Inductive reachedAt : nat -> json -> json -> Prop :=
| reached_here (v : json) : reachedAt 0 v v
| reached_item (d : nat) (items : list json) (i : nat) (x v : json) :
    (i < 3)%nat -> nth_error items i = Some x -> reachedAt d x v ->
    reachedAt (S d) (JArr items) v
| reached_prop (d : nat) (props : list (string * json)) (k : string) (x v : json) :
    In (k, x) props -> reachedAt d x v -> reachedAt (S d) (JObj props) v.

(** The record [findArraysOfObjects] makes of an array whose first element
    is a plain object of at least two keys. *)
Definition describes (fd : Found) (arr : list json) : Prop :=
  exists (firstProps : list (string * json)) (tl : list json),
    arr = JObj firstProps :: tl /\
    (2 <= length firstProps)%nat /\
    fd = mkFound (length arr) (length firstProps) (firstn 5 (map fst firstProps)).

(** A scroll container that clamps: assigning [x] to [scrollTop] leaves it
    at [x] brought into the interval from 0 to [maxScrollTop]. *)
Definition clamps (setScrollTop : Q -> Q) (maxScrollTop : Q) : Prop :=
  forall x : Q, setScrollTop x == Qmin (Qmax x 0) maxScrollTop.

(** The clamping itself, as a container. *)
Definition clampTo (maxScrollTop : Q) (x : Q) : Q := Qmin (Qmax x 0) maxScrollTop.

(** The passes of [m] turns of a vertical sweep, from turn [from] on. *)
Definition sweepPasses (setScrollTop : Q -> Q) (extractRenderedRows : Q -> Map RowData)
           (verticalStep : Q) (from m : nat) : list (Map RowData) :=
  map (fun k => extractRenderedRows (sweepTop setScrollTop verticalStep k)) (seq from m).

(** *** Doubles and their values *)

(** The rational number a finite double stands for. *)
Definition valueOf (x : spec_float) : Q :=
  match x with
  | S754_finite s m e =>
      (if s then - inject_Z (Zpos m) else inject_Z (Zpos m)) * 2 ^ e
  | _ => 0
  end.

(** A positive normal double: a mantissa of 53 bits. *)
Definition normalPos (x : spec_float) : Prop :=
  match x with
  | S754_finite false m e => Zpos (digits2_pos m) = 53%Z /\ (-1074 <= e <= 971)%Z
  | _ => False
  end.

Definition zeroOrNormal (x : spec_float) : Prop :=
  x = S754_zero false \/ normalPos x.

(** A length in pixels: [+0], or a double from 1 up to, not including,
    2^31.  The whole numbers the DOM reports are among them. *)
Definition pixels (x : Double.double) : bool :=
  match x with
  | S754_zero false => true
  | S754_finite false m e =>
      Z.eqb (Zpos (digits2_pos m)) 53 && Z.leb (-52) e && Z.leb e (-22)
  | _ => false
  end.

(** The step added [k] times, in the arithmetic of doubles. *)
Fixpoint runningSum (step : Double.double) (k : nat) : Double.double :=
  match k with
  | O => Double.ofZ 0
  | S j => Double.add (runningSum step j) step
  end.

(* ================================================================= *)
(** ** Properties *)

(* ----------------------------------------------------------------- *)
(** *** Row ranges *)

Lemma slice_nth_error {A} (l : list A) (b e : Z) (i : nat) :
  (0 <= b)%Z -> (0 <= e)%Z ->
  nth_error (slice l b e) i =
  if (Z.of_nat i <? e - b)%Z then nth_error l (Z.to_nat b + i) else None.
Proof.
  intros Hb He. unfold slice, relativeIndex.
  destruct (Z.ltb_spec b 0); [lia|]. destruct (Z.ltb_spec e 0); [lia|].
  rewrite nth_error_firstn, nth_error_skipn.
  destruct (Nat.ltb_spec i
              (Z.to_nat (Z.max (Z.min e (Z.of_nat (length l))
                                - Z.min b (Z.of_nat (length l))) 0)));
    destruct (Z.ltb_spec (Z.of_nat i) (e - b)).
  - f_equal. lia.
  - lia.
  - symmetry. apply nth_error_None. lia.
  - reflexivity.
Qed.

(** A slice from the start is a prefix. *)
Lemma slice_head {A} (l : list A) (n : nat) :
  slice l 0 (Z.of_nat n) = firstn n l.
Proof.
  unfold slice, relativeIndex.
  destruct (Z.ltb_spec 0 0); [lia|]. destruct (Z.ltb_spec (Z.of_nat n) 0); [lia|].
  rewrite (Z.min_l 0) by lia. cbn [Z.to_nat skipn]. rewrite Z.sub_0_r.
  destruct (Nat.le_gt_cases n (length l)).
  - f_equal. lia.
  - rewrite !firstn_all2 by lia. reflexivity.
Qed.



(* ----------------------------------------------------------------- *)
(** *** Horizontal scan positions *)

Lemma Qltb_spec (a b : Q) : Qltb a b = true <-> a < b.
Proof.
  unfold Qltb. rewrite negb_true_iff. split; intro H.
  - apply Qnot_le_lt. intro Hle. apply Qle_bool_iff in Hle. congruence.
  - destruct (Qle_bool b a) eqn:E; [|reflexivity].
    apply Qle_bool_iff in E. exfalso. apply (Qlt_not_le _ _ H E).
Qed.

Lemma Qltb_false (a b : Q) : Qltb a b = false <-> b <= a.
Proof.
  split; intro H.
  - apply Qnot_lt_le. intro Hlt. apply Qltb_spec in Hlt. congruence.
  - destruct (Qltb a b) eqn:E; [|reflexivity].
    apply Qltb_spec in E. exfalso. apply (Qlt_not_le _ _ E H).
Qed.

Lemma inject_S (k : nat) : inject_Z (Z.of_nat (S k)) == inject_Z (Z.of_nat k) + 1.
Proof. rewrite Nat2Z.inj_succ. unfold Z.succ. rewrite inject_Z_plus. reflexivity. Qed.


Lemma multiple_0 (step : Q) : multiple step 0 == 0.
Proof. unfold multiple. simpl. unfold inject_Z. ring. Qed.

Lemma multiple_S (step : Q) (k : nat) : multiple step (S k) == multiple step k + step.
Proof. unfold multiple. rewrite inject_S. ring. Qed.



Lemma multiple_mono (step : Q) (j k : nat) :
  0 < step -> (j <= k)%nat -> multiple step j <= multiple step k.
Proof.
  intros Hs H. induction H; [lra|]. rewrite multiple_S. lra.
Qed.

(* ----------------------------------------------------------------- *)
(** *** Horizontal scan positions in double arithmetic *)

(** Rounding to 53 bits, on the integers of mantissa and exponent. *)
Section BinaryRounding.
Local Open Scope Z_scope.

Lemma digits2_pos_log2 (m : positive) :
  Zpos (digits2_pos m) = Z.log2 (Zpos m) + 1.
Proof.
  induction m as [m IH|m IH|]; cbn [digits2_pos].
  - rewrite Pos2Z.inj_succ, IH. cbn [Z.log2]. destruct m; cbn; lia.
  - rewrite Pos2Z.inj_succ, IH. cbn [Z.log2]. destruct m; cbn; lia.
  - reflexivity.
Qed.

Lemma digits2_pos_bounds (m : positive) :
  2 ^ (Zpos (digits2_pos m) - 1) <= Zpos m < 2 ^ Zpos (digits2_pos m).
Proof.
  rewrite digits2_pos_log2. replace (Z.log2 (Zpos m) + 1 - 1) with (Z.log2 (Zpos m)) by lia.
  pose proof (Z.log2_spec (Zpos m) ltac:(lia)) as H.
  replace (Z.log2 (Zpos m) + 1) with (Z.succ (Z.log2 (Zpos m))) by lia. exact H.
Qed.

Lemma digits2_pos_unique (m : positive) (d : Z) :
  2 ^ (d - 1) <= Zpos m < 2 ^ d -> Zpos (digits2_pos m) = d.
Proof.
  intro H. rewrite digits2_pos_log2.
  assert (0 < d).
  { destruct (Z.lt_ge_cases 0 d) as [|Hd]; [assumption|].
    destruct H as [_ H]. destruct (Z.eq_dec d 0) as [->|]; [simpl in H; lia|].
    rewrite Z.pow_neg_r in H by lia. lia. }
  assert (Z.log2 (Zpos m) = d - 1); [|lia].
  apply Z.log2_unique; [lia|]. replace (Z.succ (d - 1)) with d by lia. exact H.
Qed.

Lemma shr_1_m (mrs : shr_record) :
  0 <= shr_m mrs -> shr_m (shr_1 mrs) = shr_m mrs / 2.
Proof.
  destruct mrs as [m r s]. cbn [shr_m shr_1]. intro H.
  destruct m as [|p|p]; [reflexivity| |lia].
  destruct p as [p|p|]; cbn [shr_m].
  - rewrite Pos2Z.inj_xI. apply Z.div_unique with (r := 1); lia.
  - rewrite Pos2Z.inj_xO. apply Z.div_unique with (r := 0); lia.
  - reflexivity.
Qed.

Lemma iter_shr_m (n : positive) :
  forall mrs : shr_record,
    0 <= shr_m mrs ->
    shr_m (iter_pos shr_1 n mrs) = shr_m mrs / 2 ^ Zpos n.
Proof.
  induction n as [n IH|n IH|]; intros mrs H; cbn [iter_pos].
  - assert (H1 : 0 <= shr_m (shr_1 mrs)) by (rewrite shr_1_m by assumption; apply Z.div_pos; lia).
    assert (H2 : 0 <= shr_m (iter_pos shr_1 n (shr_1 mrs)))
      by (rewrite IH by assumption; apply Z.div_pos; lia).
    rewrite IH, IH, shr_1_m by assumption.
    rewrite !Z.div_div by lia.
    f_equal. rewrite Pos2Z.inj_xI. rewrite Z.pow_add_r, Z.pow_mul_r by lia.
    change (2 ^ 2) with 4. rewrite Z.pow_1_r.
    replace (4 ^ Zpos n) with (2 ^ Zpos n * 2 ^ Zpos n); [lia|].
    rewrite <- Z.pow_add_r by lia. replace (Zpos n + Zpos n) with (2 * Zpos n) by lia.
    rewrite Z.pow_mul_r by lia. reflexivity.
  - assert (H2 : 0 <= shr_m (iter_pos shr_1 n mrs))
      by (rewrite IH by assumption; apply Z.div_pos; lia).
    rewrite IH, IH by assumption. rewrite Z.div_div by lia.
    f_equal. rewrite Pos2Z.inj_xO. rewrite <- Z.pow_add_r by lia. f_equal. lia.
  - rewrite shr_1_m by assumption. reflexivity.
Qed.

Lemma round_nearest_even_cases (m : Z) (l : location) :
  round_nearest_even m l = m \/ round_nearest_even m l = m + 1.
Proof.
  destruct l as [|[| |]]; cbn [round_nearest_even]; auto.
  destruct (Z.even m); auto.
Qed.

Lemma shr_fexp_pos (m : positive) (e : Z) :
  53 <= Zpos (digits2_pos m) -> -1074 <= e ->
  shr_fexp 53 1024 (Zpos m) e loc_Exact
  = shr (Build_shr_record (Zpos m) false false) e (Zpos (digits2_pos m) - 53).
Proof.
  intros Hd He. unfold shr_fexp, fexp, emin. cbn [Zdigits2 shr_record_of_loc].
  f_equal. lia.
Qed.

Lemma shr_zero (mrs : shr_record) (e : Z) : shr mrs e 0 = (mrs, e).
Proof. reflexivity. Qed.

Lemma shr_pos (mrs : shr_record) (e : Z) (p : positive) :
  shr mrs e (Zpos p) = (iter_pos shr_1 p mrs, e + Zpos p).
Proof. reflexivity. Qed.

(** A mantissa of exactly 53 bits is kept. *)
Lemma binary_round_aux_exact (m : positive) (e : Z) :
  Zpos (digits2_pos m) = 53 -> -1074 <= e <= 971 ->
  binary_round_aux 53 1024 false (Zpos m) e loc_Exact = S754_finite false m e.
Proof.
  intros Hd He. unfold binary_round_aux.
  rewrite shr_fexp_pos by lia. rewrite Hd. change (53 - 53) with 0. rewrite shr_zero.
  cbn [shr_m loc_of_shr_record round_nearest_even].
  rewrite shr_fexp_pos by lia. rewrite Hd. change (53 - 53) with 0. rewrite shr_zero.
  cbn [shr_m]. destruct (Z.leb_spec e (1024 - 53)); [reflexivity | lia].
Qed.

(** A longer mantissa is cut to 53 bits, moving by less than one unit of
    the last place kept. *)
Lemma binary_round_aux_normal (m : positive) (e : Z) :
  53 <= Zpos (digits2_pos m) -> -1074 <= e -> e + Zpos (digits2_pos m) <= 1023 ->
  exists (m' : positive) (k : Z),
    binary_round_aux 53 1024 false (Zpos m) e loc_Exact = S754_finite false m' (e + k) /\
    Zpos (digits2_pos m') = 53 /\
    (k = Zpos (digits2_pos m) - 53 \/ k = Zpos (digits2_pos m) - 52) /\
    Z.abs (Zpos m' * 2 ^ k - Zpos m) <= 2 ^ (Zpos (digits2_pos m) - 53).
Proof.
  intros Hd He Hmax.
  destruct (Z.eq_dec (Zpos (digits2_pos m)) 53) as [E|NE].
  { exists m, 0. rewrite binary_round_aux_exact by lia. rewrite Z.add_0_r.
    split; [reflexivity|]. split; [exact E|]. split; [left; lia|].
    rewrite E. change (2 ^ (53 - 53)) with 1. change (2 ^ 0) with 1. lia. }
  set (d := Zpos (digits2_pos m)) in *.
  assert (Hn : exists n : positive, d - 53 = Zpos n).
  { destruct (d - 53) as [|n|n] eqn:En; [lia | exists n; reflexivity | lia]. }
  destruct Hn as [n Hn].
  pose proof (digits2_pos_bounds m) as Hb. fold d in Hb.
  set (m1 := Zpos m / 2 ^ Zpos n).
  assert (Hpow : 0 < 2 ^ Zpos n) by (apply Z.pow_pos_nonneg; lia).
  assert (Hm1 : 2 ^ 52 <= m1 < 2 ^ 53).
  { unfold m1. split.
    - apply Z.div_le_lower_bound; [lia|].
      rewrite <- Z.pow_add_r by lia. replace (Zpos n + 52) with (d - 1) by lia. lia.
    - apply Z.div_lt_upper_bound; [lia|].
      rewrite <- Z.pow_add_r by lia. replace (Zpos n + 53) with d by lia. lia. }
  assert (Hdiv : m1 * 2 ^ Zpos n <= Zpos m < (m1 + 1) * 2 ^ Zpos n).
  { unfold m1. pose proof (Z.div_mod (Zpos m) (2 ^ Zpos n) ltac:(lia)) as E.
    pose proof (Z.mod_pos_bound (Zpos m) (2 ^ Zpos n) Hpow). nia. }
  unfold binary_round_aux. rewrite shr_fexp_pos by lia. fold d. rewrite Hn, shr_pos.
  set (mrs := iter_pos shr_1 n _).
  assert (Hmrs : shr_m mrs = m1).
  { unfold mrs. rewrite iter_shr_m by (cbn; lia). reflexivity. }
  rewrite Hmrs.
  set (m2 := round_nearest_even m1 (loc_of_shr_record mrs)).
  assert (Hm2 : m2 = m1 \/ m2 = m1 + 1) by apply round_nearest_even_cases.
  assert (Hm2pos : exists p2 : positive, m2 = Zpos p2).
  { destruct m2 as [|p2|p2] eqn:E2; [lia | exists p2; reflexivity | lia]. }
  destruct Hm2pos as [p2 Hp2]. rewrite Hp2.
  destruct (Z.eq_dec m2 (2 ^ 53)) as [Etop|Ntop].
  - (* the rounded mantissa has 54 bits: one more shift *)
    assert (Hd2 : Zpos (digits2_pos p2) = 54).
    { apply digits2_pos_unique. rewrite <- Hp2, Etop. cbn. lia. }
    rewrite shr_fexp_pos by lia. rewrite Hd2. change (54 - 53) with 1.
    change 1 with (Zpos 1) at 1. rewrite shr_pos. cbn [iter_pos].
    assert (Ep2 : p2 = (2 ^ 53)%positive).
    { apply Pos2Z.inj. rewrite <- Hp2, Etop. reflexivity. }
    rewrite Ep2. cbn [shr_1 shr_m Pos.pow Pos.iter Pos.mul].
    destruct (Z.leb_spec (e + Zpos n + 1) (1024 - 53)); [|lia].
    eexists. exists (Zpos n + 1). rewrite Z.add_assoc.
    split; [reflexivity|]. split; [reflexivity|]. split; [right; lia|].
    rewrite Z.pow_add_r by lia. rewrite Z.pow_1_r.
    replace (d - 53) with (Zpos n) by lia.
    assert (m1 + 1 = 2 ^ 53) by lia.
    change (Zpos (xO (xO (xO (xO (xO (xO (xO (xO (xO (xO (xO (xO (xO (xO (xO (xO (xO (xO
             (xO (xO (xO (xO (xO (xO (xO (xO (xO (xO (xO (xO (xO (xO (xO (xO (xO (xO
             (xO (xO (xO (xO (xO (xO (xO (xO (xO (xO (xO (xO (xO (xO (xO (xO xH)))))))))))))))))))))))))))))))))))))))))))))))))))))
      with (2 ^ 52).
    nia.
  - assert (Hd2 : Zpos (digits2_pos p2) = 53).
    { apply digits2_pos_unique. rewrite <- Hp2. change (53 - 1) with 52. lia. }
    rewrite shr_fexp_pos by lia. rewrite Hd2. change (53 - 53) with 0. rewrite shr_zero.
    cbn [shr_m].
    destruct (Z.leb_spec (e + Zpos n) (1024 - 53)); [|lia].
    exists p2, (Zpos n). split; [reflexivity|]. split; [exact Hd2|]. split; [left; lia|].
    replace (d - 53) with (Zpos n) by lia. rewrite <- Hp2. nia.
Qed.

End BinaryRounding.

Lemma pow2_pos (e : Z) : 0 < 2 ^ e.
Proof. apply Qpower_0_lt. reflexivity. Qed.

Lemma pow2_add (a b : Z) : 2 ^ (a + b) == 2 ^ a * 2 ^ b.
Proof. apply Qpower_plus. discriminate. Qed.

Lemma pow2_Z (k : Z) : (0 <= k)%Z -> 2 ^ k == inject_Z (2 ^ k).
Proof. intro H. rewrite Zpower_Qpower by assumption. reflexivity. Qed.

Lemma pow2_le (a b : Z) : (a <= b)%Z -> 2 ^ a <= 2 ^ b.
Proof. intro H. apply Qpower_le_compat_l; [exact H | discriminate]. Qed.

Lemma pow2_lt (a b : Z) : (a < b)%Z -> 2 ^ a < 2 ^ b.
Proof. intro H. apply Qpower_lt_compat_l; [exact H | reflexivity]. Qed.

Lemma pow2_lt_inv (a b : Z) : 2 ^ a < 2 ^ b -> (a < b)%Z.
Proof.
  intro H. destruct (Z.lt_ge_cases a b) as [|Hge]; [assumption|].
  pose proof (pow2_le b a Hge). lra.
Qed.

Lemma inject_Z_le (a b : Z) : (a <= b)%Z -> inject_Z a <= inject_Z b.
Proof. intro H. rewrite <- Zle_Qle. exact H. Qed.

Lemma inject_Z_lt (a b : Z) : (a < b)%Z -> inject_Z a < inject_Z b.
Proof. intro H. rewrite <- Zlt_Qlt. exact H. Qed.

(** The value of a normal number lies in the binade of its exponent. *)
Lemma normal_bounds (m : positive) (e : Z) :
  Zpos (digits2_pos m) = 53%Z ->
  2 ^ (e + 52) <= inject_Z (Zpos m) * 2 ^ e /\
  inject_Z (Zpos m) * 2 ^ e < 2 ^ (e + 53).
Proof.
  intro Hd. pose proof (digits2_pos_bounds m) as Hb. rewrite Hd in Hb.
  change (53 - 1)%Z with 52%Z in Hb.
  pose proof (pow2_pos e) as He.
  rewrite !pow2_add. rewrite (pow2_Z 52), (pow2_Z 53) by lia.
  destruct Hb as [Hlo Hhi]. apply inject_Z_le in Hlo. apply inject_Z_lt in Hhi.
  split.
  - rewrite (Qmult_comm (2 ^ e)). apply Qmult_le_compat_r; [exact Hlo | lra].
  - rewrite (Qmult_comm (2 ^ e)). apply Qmult_lt_compat_r; [exact He | exact Hhi].
Qed.

Lemma valueOf_normal (x : spec_float) : normalPos x -> 0 < valueOf x.
Proof.
  destruct x as [| | |[|] m e]; cbn [normalPos]; try tauto.
  intros [Hd He]. cbn [valueOf]. pose proof (normal_bounds m e Hd) as [H _].
  pose proof (pow2_pos (e + 52)). lra.
Qed.

Lemma round_value (M : positive) (e : Z) :
  (53 <= Zpos (digits2_pos M))%Z -> (-1074 <= e)%Z ->
  (e + Zpos (digits2_pos M) <= 1023)%Z ->
  exists z : spec_float,
    binary_round_aux 53 1024 false (Zpos M) e loc_Exact = z /\
    normalPos z /\
    Qabs (valueOf z - inject_Z (Zpos M) * 2 ^ e)
    <= 2 ^ (-52) * (inject_Z (Zpos M) * 2 ^ e).
Proof.
  intros Hd He Hmax.
  destruct (binary_round_aux_normal M e Hd He Hmax) as (m' & k & Hrun & Hd' & Hk & Hval).
  exists (S754_finite false m' (e + k)). split; [exact Hrun|].
  split; [cbn [normalPos]; split; [exact Hd' | lia]|].
  cbn [valueOf].
  set (d := Zpos (digits2_pos M)) in *.
  pose proof (digits2_pos_bounds M) as Hb. fold d in Hb. destruct Hb as [Hlo _].
  assert (Hk0 : (0 <= k)%Z) by lia.
  assert (Hn0 : (0 <= d - 53)%Z) by lia.
  pose proof (pow2_pos e) as Hpe.
  rewrite pow2_add, (pow2_Z k Hk0).
  assert (Hz1 : (Zpos M <= Zpos m' * 2 ^ k + 2 ^ (d - 53))%Z) by lia.
  assert (Hz2 : (Zpos m' * 2 ^ k <= Zpos M + 2 ^ (d - 53))%Z) by lia.
  apply inject_Z_le in Hz1, Hz2.
  rewrite inject_Z_plus, ?inject_Z_mult in Hz1, Hz2.
  assert (Hulp : inject_Z (2 ^ (d - 53)) <= 2 ^ (-52) * inject_Z (Zpos M)).
  { apply inject_Z_le in Hlo. rewrite <- (pow2_Z (d - 1)) in Hlo by lia.
    rewrite <- (pow2_Z (d - 53)) by lia.
    replace (d - 53)%Z with (-52 + (d - 1))%Z by lia. rewrite pow2_add.
    apply Qmult_le_l; [apply pow2_pos | exact Hlo]. }
  set (a := inject_Z (Zpos m')) in *. set (b := inject_Z (2 ^ k)) in *.
  set (c := inject_Z (Zpos M)) in *. set (u := inject_Z (2 ^ (d - 53))) in *.
  set (t := 2 ^ (-52)) in *. set (p := 2 ^ e) in *.
  apply Qabs_Qle_condition. split.
  - assert (H : - (t * c) * p <= (a * b + - c) * p).
    { apply Qmult_le_compat_r; lra. }
    lra.
  - assert (H : (a * b + - c) * p <= (t * c) * p).
    { apply Qmult_le_compat_r; lra. }
    lra.
Qed.

Lemma digits_range (n : positive) (lo hi : Z) :
  (0 <= lo)%Z -> (2 ^ lo <= Zpos n < 2 ^ hi)%Z ->
  (lo < Zpos (digits2_pos n) <= hi)%Z.
Proof.
  intros Hlo [H1 H2]. pose proof (digits2_pos_bounds n) as [B1 B2].
  set (d := Zpos (digits2_pos n)) in *.
  assert (Hd : (0 < d)%Z) by (unfold d; lia).
  split.
  - apply (Z.pow_lt_mono_r_iff 2); lia.
  - destruct (Z.lt_ge_cases hi d) as [Hlt|]; [|lia].
    assert ((2 ^ hi <= 2 ^ (d - 1))%Z) by (apply Z.pow_le_mono_r; lia). lia.
Qed.

Lemma mul_normal (mx my : positive) (ex ey : Z) :
  Zpos (digits2_pos mx) = 53%Z -> Zpos (digits2_pos my) = 53%Z ->
  (-1074 <= ex + ey)%Z -> (ex + ey <= 917)%Z ->
  exists z : spec_float,
    SFmul 53 1024 (S754_finite false mx ex) (S754_finite false my ey) = z /\
    normalPos z /\
    Qabs (valueOf z - valueOf (S754_finite false mx ex) * valueOf (S754_finite false my ey))
    <= 2 ^ (-52) * (valueOf (S754_finite false mx ex) * valueOf (S754_finite false my ey)).
Proof.
  intros Hx Hy Hlo Hhi. cbn [SFmul xorb valueOf].
  pose proof (digits2_pos_bounds mx) as Bx. rewrite Hx in Bx.
  pose proof (digits2_pos_bounds my) as By. rewrite Hy in By.
  change (53 - 1)%Z with 52%Z in Bx, By.
  assert (Hd : (104 < Zpos (digits2_pos (mx * my)) <= 106)%Z).
  { apply digits_range; [lia|]. rewrite Pos2Z.inj_mul.
    change (2 ^ 104)%Z with (2 ^ 52 * 2 ^ 52)%Z. change (2 ^ 106)%Z with (2 ^ 53 * 2 ^ 53)%Z.
    split; [apply Z.mul_le_mono_nonneg; lia | apply Z.mul_lt_mono_nonneg; lia]. }
  destruct (round_value (mx * my) (ex + ey)) as (z & Hrun & Hn & Hval); [lia..|].
  exists z. split; [exact Hrun|]. split; [exact Hn|].
  rewrite Pos2Z.inj_mul, inject_Z_mult, pow2_add in Hval.
  assert (E : inject_Z (Zpos mx) * inject_Z (Zpos my) * (2 ^ ex * 2 ^ ey)
              == inject_Z (Zpos mx) * 2 ^ ex * (inject_Z (Zpos my) * 2 ^ ey)) by ring.
  rewrite E in Hval. exact Hval.
Qed.

Lemma iter_xO (m d : positive) : Zpos (Pos.iter xO m d) = (Zpos m * 2 ^ Zpos d)%Z.
Proof.
  induction d as [|d IH] using Pos.peano_ind.
  - cbn [Pos.iter]. rewrite Z.pow_1_r. lia.
  - rewrite Pos.iter_succ, Pos2Z.inj_xO, IH, Pos2Z.inj_succ, Z.pow_succ_r by lia. lia.
Qed.

Lemma shl_align_value (m : positive) (e e' : Z) :
  (e' <= e)%Z ->
  Zpos (fst (shl_align m e e')) = (Zpos m * 2 ^ (e - e'))%Z.
Proof.
  intro H. unfold shl_align. destruct (e' - e)%Z as [|d|d] eqn:E.
  - replace (e - e')%Z with 0%Z by lia. cbn [fst]. lia.
  - lia.
  - cbn [fst]. rewrite iter_xO. f_equal. f_equal. lia.
Qed.

Lemma add_normal (mx my : positive) (ex ey : Z) :
  Zpos (digits2_pos mx) = 53%Z -> Zpos (digits2_pos my) = 53%Z ->
  (-1074 <= ex <= 969)%Z -> (-1074 <= ey <= 969)%Z ->
  exists z : spec_float,
    SFadd 53 1024 (S754_finite false mx ex) (S754_finite false my ey) = z /\
    normalPos z /\
    Qabs (valueOf z - (valueOf (S754_finite false mx ex) + valueOf (S754_finite false my ey)))
    <= 2 ^ (-52) * (valueOf (S754_finite false mx ex) + valueOf (S754_finite false my ey)).
Proof.
  intros Hx Hy Hex Hey. cbn [SFadd cond_Zopp valueOf].
  set (ez := Z.min ex ey).
  pose proof (digits2_pos_bounds mx) as Bx. rewrite Hx in Bx.
  pose proof (digits2_pos_bounds my) as By. rewrite Hy in By.
  change (53 - 1)%Z with 52%Z in Bx, By.
  set (ax := fst (shl_align mx ex ez)). set (ay := fst (shl_align my ey ez)).
  assert (Hax : Zpos ax = (Zpos mx * 2 ^ (ex - ez))%Z) by (apply shl_align_value; lia).
  assert (Hay : Zpos ay = (Zpos my * 2 ^ (ey - ez))%Z) by (apply shl_align_value; lia).
  change (Zpos ax + Zpos ay)%Z with (Zpos (ax + ay)).
  cbn [binary_normalize]. unfold binary_round.
  set (g := Z.max ex ey).
  assert (Hpx : (1 <= 2 ^ (ex - ez) <= 2 ^ (g - ez))%Z).
  { split; [|apply Z.pow_le_mono_r; lia].
    change 1%Z with (2 ^ 0)%Z. apply Z.pow_le_mono_r; lia. }
  assert (Hpy : (1 <= 2 ^ (ey - ez) <= 2 ^ (g - ez))%Z).
  { split; [|apply Z.pow_le_mono_r; lia].
    change 1%Z with (2 ^ 0)%Z. apply Z.pow_le_mono_r; lia. }
  assert (Hd : (52 < Zpos (digits2_pos (ax + ay)) <= g - ez + 54)%Z).
  { apply digits_range; [lia|]. rewrite Pos2Z.inj_add, Hax, Hay.
    replace (g - ez + 54)%Z with (1 + (53 + (g - ez)))%Z by lia.
    rewrite (Z.pow_add_r 2 1), (Z.pow_add_r 2 53) by lia. rewrite Z.pow_1_r. nia. }
  assert (Eal : shl_align (ax + ay) ez
                  (fexp 53 1024 (Zpos (digits2_pos (ax + ay)) + ez)) = ((ax + ay)%positive, ez)).
  { unfold shl_align, fexp, emin.
    destruct (Z.max (Zpos (digits2_pos (ax + ay)) + ez - 53) (3 - 1024 - 53) - ez)%Z
      as [|q|q] eqn:E; [reflexivity | reflexivity | lia]. }
  rewrite Eal.
  destruct (round_value (ax + ay) ez) as (z & Hrun & Hn & Hval); [lia..|].
  exists z. split; [exact Hrun|]. split; [exact Hn|].
  assert (E : inject_Z (Zpos (ax + ay)) * 2 ^ ez
              == inject_Z (Zpos mx) * 2 ^ ex + inject_Z (Zpos my) * 2 ^ ey).
  { rewrite Pos2Z.inj_add, inject_Z_plus, Hax, Hay, !inject_Z_mult.
    rewrite <- !pow2_Z by lia.
    replace ex with ((ex - ez) + ez)%Z at 2 by lia.
    replace ey with ((ey - ez) + ez)%Z at 2 by lia.
    rewrite !pow2_add. ring. }
  rewrite E in Hval. exact Hval.
Qed.


Lemma ltb_normal (mx my : positive) (ex ey : Z) :
  Zpos (digits2_pos mx) = 53%Z -> Zpos (digits2_pos my) = 53%Z ->
  (SFltb (S754_finite false mx ex) (S754_finite false my ey) = true
   <-> valueOf (S754_finite false mx ex) < valueOf (S754_finite false my ey)).
Proof.
  intros Hx Hy. unfold SFltb. cbn [SFcompare valueOf].
  pose proof (normal_bounds mx ex Hx) as [Lx Ux].
  pose proof (normal_bounds my ey Hy) as [Ly Uy].
  destruct (Z.compare_spec ex ey) as [E|E|E].
  - subst ey. rewrite Pos.compare_cont_spec. cbn [Pos.switch_Eq].
    pose proof (pow2_pos ex) as Hp.
    destruct (Pos.compare_spec mx my) as [C|C|C].
    + subst my. split; [discriminate | intro H; lra].
    + split; [intros _ | reflexivity].
      apply Qmult_lt_compat_r; [exact Hp | apply inject_Z_lt; lia].
    + split; [discriminate|]. intro H. exfalso.
      assert (inject_Z (Zpos my) * 2 ^ ex < inject_Z (Zpos mx) * 2 ^ ex).
      { apply Qmult_lt_compat_r; [exact Hp | apply inject_Z_lt; lia]. }
      lra.
  - split; [intros _ | reflexivity].
    pose proof (pow2_le (ex + 53) (ey + 52) ltac:(lia)). lra.
  - split; [discriminate|]. intro H. exfalso.
    pose proof (pow2_le (ey + 53) (ex + 52) ltac:(lia)). lra.
Qed.

Lemma ltb_spec (x y : spec_float) :
  zeroOrNormal x -> zeroOrNormal y ->
  (SFltb x y = true <-> valueOf x < valueOf y).
Proof.
  intros [->|Hx] [->|Hy].
  - cbn. split; [discriminate | intro H; lra].
  - pose proof (valueOf_normal y Hy) as Hv.
    destruct y as [| | |[|] m e]; cbn [normalPos] in Hy; try contradiction.
    split; [intros _; exact Hv | reflexivity].
  - pose proof (valueOf_normal x Hx) as Hv.
    destruct x as [| | |[|] m e]; cbn [normalPos] in Hx; try contradiction.
    split; [discriminate | intro H; cbn [valueOf] in *; lra].
  - destruct x as [| | |[|] mx ex]; cbn [normalPos] in Hx; try contradiction.
    destruct y as [| | |[|] my ey]; cbn [normalPos] in Hy; try contradiction.
    apply ltb_normal; tauto.
Qed.

Lemma ltb_false (x y : spec_float) :
  zeroOrNormal x -> zeroOrNormal y ->
  (SFltb x y = false <-> valueOf y <= valueOf x).
Proof.
  intros Hx Hy. pose proof (ltb_spec x y Hx Hy) as H.
  destruct (SFltb x y).
  - split; [discriminate|]. intro Hle. apply proj1 in H. specialize (H eq_refl). lra.
  - split; [intros _ | reflexivity].
    apply Qnot_lt_le. intro Hlt. apply H in Hlt. discriminate.
Qed.

Lemma literal_0_6 : Double.div (Double.ofZ 6) (Double.ofZ 10) = S754_finite false 5404319552844595 (-53).
Proof. vm_compute. reflexivity. Qed.

Lemma literal_300 : Double.ofZ 300 = S754_finite false 5277655813324800 (-44).
Proof. vm_compute. reflexivity. Qed.

Lemma literal_10 : Double.ofZ 10 = S754_finite false 5629499534213120 (-49).
Proof. vm_compute. reflexivity. Qed.

Lemma pixels_inv (x : Double.double) :
  pixels x = true ->
  x = S754_zero false \/
  exists (m : positive) (e : Z),
    x = S754_finite false m e /\ Zpos (digits2_pos m) = 53%Z /\ (-52 <= e <= -22)%Z.
Proof.
  destruct x as [[|]| | |[|] m e]; cbn [pixels]; try discriminate.
  - intros _. left. reflexivity.
  - intro H. apply andb_true_iff in H. destruct H as [H H3].
    apply andb_true_iff in H. destruct H as [H1 H2].
    apply Z.eqb_eq in H1. apply Z.leb_le in H2, H3.
    right. exists m, e. repeat split; assumption.
Qed.

Lemma pow2_0 : 2 ^ 0 == 1.
Proof. reflexivity. Qed.

Lemma pow2_31 : 2 ^ 31 == 2147483648.
Proof. reflexivity. Qed.

Lemma pixels_value (m : positive) (e : Z) :
  Zpos (digits2_pos m) = 53%Z -> (-52 <= e <= -22)%Z ->
  1 <= valueOf (S754_finite false m e) /\ valueOf (S754_finite false m e) < 2147483648.
Proof.
  intros Hd He. cbn [valueOf]. pose proof (normal_bounds m e Hd) as [L U].
  pose proof (pow2_le 0 (e + 52) ltac:(lia)) as H0. rewrite pow2_0 in H0.
  pose proof (pow2_le (e + 53) 31 ltac:(lia)) as H1. rewrite pow2_31 in H1.
  lra.
Qed.

Lemma exponent_bound (m : positive) (e B : Z) :
  Zpos (digits2_pos m) = 53%Z ->
  valueOf (S754_finite false m e) < 2 ^ B -> (e + 52 < B)%Z.
Proof.
  intros Hd H. cbn [valueOf] in H. pose proof (normal_bounds m e Hd) as [L _].
  apply pow2_lt_inv. lra.
Qed.

Lemma normalPos_inv (x : Double.double) :
  normalPos x ->
  exists (m : positive) (e : Z),
    x = S754_finite false m e /\ Zpos (digits2_pos m) = 53%Z /\ (-1074 <= e <= 971)%Z.
Proof.
  destruct x as [| | |[|] m e]; cbn [normalPos]; try contradiction.
  intros [Hd He]. exists m, e. repeat split; try assumption; lia.
Qed.

Lemma value_0_6 :
  valueOf (S754_finite false 5404319552844595 (-53))
  == 5404319552844595 # 9007199254740992.
Proof. reflexivity. Qed.

Lemma value_300 : valueOf (S754_finite false 5277655813324800 (-44)) == 300.
Proof. reflexivity. Qed.

Lemma value_10 : valueOf (S754_finite false 5629499534213120 (-49)) == 10.
Proof. reflexivity. Qed.

Lemma pow2_m52 : 2 ^ (-52) == 1 # 4503599627370496.
Proof. reflexivity. Qed.

Lemma pow2_m20 : 2 ^ (-20) == 1 # 1048576.
Proof. reflexivity. Qed.

(** The step: a normal double of at least 300, below 2^31, within
    [2^-52 * clientWidth] of [max (0.6 * clientWidth) 300]. *)
Lemma horizontalStep_spec (clientWidth : Double.double) :
  pixels clientWidth = true ->
  normalPos (IEEE.horizontalStep clientWidth) /\
  300 <= valueOf (IEEE.horizontalStep clientWidth) /\
  valueOf (IEEE.horizontalStep clientWidth) < 2147483648 /\
  Qabs (valueOf (IEEE.horizontalStep clientWidth)
        - Qmax ((6 # 10) * valueOf clientWidth) 300)
  <= valueOf clientWidth * 2 ^ (-52).
Proof.
  intro Hw. unfold IEEE.horizontalStep. rewrite literal_0_6, literal_300.
  destruct (pixels_inv clientWidth Hw) as [->|(m & e & -> & Hd & He)].
  - cbn [Double.mul SFmul xorb Double.Math_max]. unfold Double.ltb. cbn [SFltb SFcompare].
    split; [cbn; split; [reflexivity | lia]|].
    rewrite value_300. cbn [valueOf].
    split; [lra|]. split; [lra|].
    rewrite (Q.max_r ((6 # 10) * 0) 300) by lra.
    apply Qabs_Qle_condition. lra.
  - destruct (pixels_value m e Hd He) as [W1 W2].
    destruct (mul_normal m 5404319552844595 e (-53) Hd eq_refl ltac:(lia) ltac:(lia))
      as (z & Hrun & Hz & Hval).
    unfold Double.mul. rewrite Hrun.
    set (w := valueOf (S754_finite false m e)) in *.
    rewrite value_0_6, pow2_m52 in Hval.
    apply Qabs_Qle_condition in Hval. destruct Hval as [V1 V2].
    assert (Hc300 : normalPos (S754_finite false 5277655813324800 (-44)))
      by (cbn; split; [reflexivity | lia]).
    destruct (normalPos_inv z Hz) as (mz & ez & -> & Hdz & Hez).
    cbn [Double.Math_max].
    set (zf := S754_finite false mz ez) in *.
    set (c := S754_finite false 5277655813324800 (-44)) in *.
    rewrite pow2_m52.
    destruct (Double.ltb zf c) eqn:E.
    + apply ltb_spec in E; [|right; exact Hz | right; exact Hc300].
      unfold c in E |- *. rewrite value_300 in *.
      split; [exact Hc300|]. split; [lra|]. split; [lra|].
      apply Qabs_Qle_condition.
      destruct (Q.max_spec ((6 # 10) * w) 300) as [[H1 ->]|[H1 ->]]; lra.
    + apply ltb_false in E; [|right; exact Hz | right; exact Hc300].
      unfold c in E. rewrite value_300 in E.
      split; [exact Hz|]. split; [lra|]. split; [lra|].
      apply Qabs_Qle_condition.
      destruct (Q.max_spec ((6 # 10) * w) 300) as [[H1 ->]|[H1 ->]]; lra.
Qed.

Lemma pow2_32 : 2 ^ 32 == 4294967296.
Proof. reflexivity. Qed.

(** One more step, from a position and a step below 2^31. *)
Lemma add_step (h step : Double.double) :
  normalPos h -> normalPos step ->
  valueOf h < 2147483648 -> valueOf step < 2147483648 ->
  normalPos (Double.add h step) /\
  Qabs (valueOf (Double.add h step) - (valueOf h + valueOf step)) <= 2 ^ (-20).
Proof.
  intros Hh Hs Vh Vs.
  destruct (normalPos_inv h Hh) as (mh & eh & -> & Hdh & Heh).
  destruct (normalPos_inv step Hs) as (ms & es & -> & Hds & Hes).
  rewrite <- pow2_31 in Vh, Vs.
  pose proof (exponent_bound mh eh 31 Hdh Vh).
  pose proof (exponent_bound ms es 31 Hds Vs).
  destruct (add_normal mh ms eh es Hdh Hds ltac:(lia) ltac:(lia)) as (z & Hrun & Hz & Hval).
  unfold Double.add. rewrite Hrun. split; [exact Hz|].
  rewrite pow2_31 in Vh, Vs. rewrite pow2_m52 in Hval. rewrite pow2_m20.
  pose proof (valueOf_normal _ Hh). pose proof (valueOf_normal _ Hs).
  apply Qabs_Qle_condition in Hval. apply Qabs_Qle_condition. lra.
Qed.

Lemma inject_nat_S (k : nat) : inject_Z (Z.of_nat (S k)) == inject_Z (Z.of_nat k) + 1.
Proof. rewrite Nat2Z.inj_succ. unfold Z.succ. rewrite inject_Z_plus. reflexivity. Qed.

Section Scan.
Variable step maxScrollLeft : Double.double.
Hypothesis Hstep : normalPos step.
Hypothesis Vstep : 300 <= valueOf step.
Hypothesis Ustep : valueOf step < 2147483648.
Hypothesis Hmax : normalPos maxScrollLeft.
Hypothesis Umax : valueOf maxScrollLeft < 2147483648.

Lemma scanLoop_run (M : nat) :
  forall (k : nat) (acc : list Double.double) (fuel : nat),
    normalPos (runningSum step k) ->
    valueOf maxScrollLeft <= valueOf (runningSum step k) + inject_Z (Z.of_nat M) ->
    (M < fuel)%nat ->
    exists j : nat,
      IEEE.scanLoop fuel step maxScrollLeft (runningSum step k) acc
      = Some (acc ++ map (runningSum step) (seq k j))%list /\
      (forall i, (k <= i < k + j)%nat ->
                 valueOf (runningSum step i) < valueOf maxScrollLeft) /\
      valueOf maxScrollLeft <= valueOf (runningSum step (k + j)) /\
      (forall i, (k <= i <= k + j)%nat -> normalPos (runningSum step i)) /\
      (forall i, (k <= i < k + j)%nat ->
                 Qabs (valueOf (runningSum step (S i))
                       - (valueOf (runningSum step i) + valueOf step)) <= 2 ^ (-20)).
Proof.
  induction M as [|M IH]; intros k acc fuel Hk Hreach Hfuel;
    (destruct fuel as [|fuel]; [lia|]); cbn [IEEE.scanLoop];
    destruct (Double.ltb (runningSum step k) maxScrollLeft) eqn:E.
  - apply ltb_spec in E; [|right; assumption..].
    cbn [Z.of_nat inject_Z] in Hreach. exfalso.
    change (inject_Z 0) with 0 in Hreach. lra.
  - apply ltb_false in E; [|right; assumption..].
    exists 0%nat. cbn [seq map]. rewrite app_nil_r, Nat.add_0_r.
    split; [reflexivity|]. split; [intros i Hi; lia|]. split; [exact E|].
    split; [intros i Hi; replace i with k by lia; exact Hk | intros i Hi; lia].
  - apply ltb_spec in E; [|right; assumption..].
    destruct (add_step (runningSum step k) step Hk Hstep ltac:(lra) Ustep) as [Hn Hv].
    change (Double.add (runningSum step k) step) with (runningSum step (S k)) in *.
    rewrite pow2_m20 in Hv. pose proof Hv as Hv'. apply Qabs_Qle_condition in Hv'.
    rewrite inject_nat_S in Hreach.
    destruct (IH (S k) (acc ++ [runningSum step k])%list fuel Hn ltac:(lra) ltac:(lia))
      as (j & Hrun & Hlt & Hge & Hnorm & Hsum).
    exists (S j). rewrite Hrun. cbn [seq map]. rewrite <- app_assoc. cbn [app].
    replace (k + S j)%nat with (S k + j)%nat by lia.
    split; [reflexivity|]. split; [|split; [exact Hge|split]].
    + intros i Hi. destruct (Nat.eq_dec i k) as [->|]; [exact E | apply Hlt; lia].
    + intros i Hi. destruct (Nat.eq_dec i k) as [->|]; [exact Hk | apply Hnorm; lia].
    + intros i Hi. destruct (Nat.eq_dec i k) as [->|]; [|apply Hsum; lia].
      rewrite pow2_m20. exact Hv.
  - apply ltb_false in E; [|right; assumption..].
    exists 0%nat. cbn [seq map]. rewrite app_nil_r, Nat.add_0_r.
    split; [reflexivity|]. split; [intros i Hi; lia|]. split; [exact E|].
    split; [intros i Hi; replace i with k by lia; exact Hk | intros i Hi; lia].
Qed.
End Scan.

Lemma runningSum_1 (step : Double.double) : normalPos step -> runningSum step 1 = step.
Proof.
  intro H. destruct (normalPos_inv step H) as (m & e & -> & _). reflexivity.
Qed.

Lemma pixels_normal (x : Double.double) :
  pixels x = true -> 10 < valueOf x ->
  normalPos x /\ valueOf x < 2147483648.
Proof.
  intros Hp Hv. destruct (pixels_inv x Hp) as [->|(m & e & -> & Hd & He)].
  - cbn [valueOf] in Hv. lra.
  - split; [cbn; split; [exact Hd | lia] | apply (pixels_value m e Hd He)].
Qed.

Lemma pixels_zeroOrNormal (x : Double.double) : pixels x = true -> zeroOrNormal x.
Proof.
  intro Hp. destruct (pixels_inv x Hp) as [->|(m & e & -> & Hd & He)].
  - left. reflexivity.
  - right. cbn. split; [exact Hd | lia].
Qed.

Lemma pixels_nonneg (x : Double.double) : pixels x = true -> 0 <= valueOf x.
Proof.
  intro Hp. destruct (pixels_inv x Hp) as [->|(m & e & -> & Hd & He)].
  - cbn. lra.
  - pose proof (pixels_value m e Hd He). lra.
Qed.

(** C9, amended.  For a scroll range and a viewport width in pixels and
    enough loop turns: the step is the double [Math.max(w * 0.6, 300)], at
    least 300 and within [2^-52 w] of [max (0.6 w) 300].  The list of
    offsets is [0] alone when [maxScrollLeft <= 10]; otherwise it is [0],
    then the sums [step], [step + step], ... of the step added [k] times in
    double arithmetic, for [k = 1 .. n], which are the sums strictly below
    [maxScrollLeft] (the next one is not below it), then [maxScrollLeft]
    itself.  Each sum exceeds the one before by at least 299 and is within
    [k 2^-20] of the multiple [k step]. *)
Theorem buildHPositions_doubles :
  forall (maxScrollLeft clientWidth : Double.double) (fuel : nat),
    pixels maxScrollLeft = true -> pixels clientWidth = true ->
    (Z.to_nat (Qceiling (valueOf maxScrollLeft)) < fuel)%nat ->
    let step := IEEE.horizontalStep clientWidth in
    300 <= valueOf step /\
    Qabs (valueOf step - Qmax ((6 # 10) * valueOf clientWidth) 300)
    <= valueOf clientWidth * 2 ^ (-52) /\
    exists hPositions : list Double.double,
      IEEE.buildHPositions fuel maxScrollLeft clientWidth = Some hPositions /\
      (valueOf maxScrollLeft <= 10 -> hPositions = [Double.ofZ 0]) /\
      (10 < valueOf maxScrollLeft ->
       exists n : nat,
         hPositions
         = ((Double.ofZ 0 :: map (runningSum step) (seq 1 n)) ++ [maxScrollLeft])%list /\
         (forall k, (1 <= k <= n)%nat ->
                    valueOf (runningSum step k) < valueOf maxScrollLeft) /\
         valueOf maxScrollLeft <= valueOf (runningSum step (S n)) /\
         (forall k, (1 <= k <= S n)%nat ->
            valueOf (runningSum step (pred k)) + 299 <= valueOf (runningSum step k) /\
            Qabs (valueOf (runningSum step k) - inject_Z (Z.of_nat k) * valueOf step)
            <= inject_Z (Z.of_nat k) * 2 ^ (-20))).
Proof.
  intros mx w fuel Hmx Hw Hfuel step.
  destruct (horizontalStep_spec w Hw) as (Hs & Vs & Us & Hclose). fold step in Hs, Vs, Us, Hclose.
  split; [exact Vs|]. split; [exact Hclose|].
  unfold IEEE.buildHPositions. fold step. rewrite literal_10.
  assert (H10 : normalPos (S754_finite false 5629499534213120 (-49)))
    by (cbn; split; [reflexivity | lia]).
  destruct (Double.ltb (S754_finite false 5629499534213120 (-49)) mx) eqn:E.
  - apply ltb_spec in E; [|right; exact H10 | apply pixels_zeroOrNormal; exact Hmx].
    rewrite value_10 in E.
    destruct (pixels_normal mx Hmx E) as [Hn Un].
    assert (Hr1 : runningSum step 1 = step) by (apply runningSum_1; exact Hs).
    destruct (scanLoop_run step mx Hs Vs Us Hn Un (Z.to_nat (Qceiling (valueOf mx)))
                           1%nat [Double.ofZ 0] fuel) as (j & Hrun & Hlt & Hge & Hnorm & Hsum).
    + rewrite Hr1. exact Hs.
    + rewrite Hr1. pose proof (Qle_ceiling (valueOf mx)) as Hc.
      rewrite Z2Nat.id.
      * lra.
      * rewrite Zle_Qle. change (inject_Z 0) with 0. lra.
    + exact Hfuel.
    + rewrite Hr1 in Hrun. rewrite Hrun.
      eexists. split; [reflexivity|]. split; [intro H; lra|].
      intros _. exists j. split; [reflexivity|].
      split; [intros k Hk; apply Hlt; lia|].
      split; [exact Hge|].
      assert (Hstep1 : forall k, (1 <= k <= S j)%nat ->
                valueOf (runningSum step (pred k)) + 299 <= valueOf (runningSum step k)).
      { intros k Hk. destruct k as [|[|i]]; [lia | |].
        - cbn [pred]. rewrite Hr1. cbn [runningSum]. change (valueOf (Double.ofZ 0)) with 0. lra.
        - cbn [pred]. specialize (Hsum (S i) ltac:(lia)).
          rewrite pow2_m20 in Hsum. apply Qabs_Qle_condition in Hsum. lra. }
      assert (Hmult : forall k, (1 <= k <= S j)%nat ->
                Qabs (valueOf (runningSum step k) - inject_Z (Z.of_nat k) * valueOf step)
                <= inject_Z (Z.of_nat k) * 2 ^ (-20)).
      { intro k. induction k as [|k IHk]; intro Hk; [lia|].
        destruct (Nat.eq_dec k 0) as [->|Hk0].
        - rewrite Hr1. rewrite pow2_m20. apply Qabs_Qle_condition.
          change (inject_Z (Z.of_nat 1)) with 1. lra.
        - specialize (IHk ltac:(lia)). specialize (Hsum k ltac:(lia)).
          specialize (Hlt k ltac:(lia)).
          rewrite inject_nat_S. rewrite pow2_m20 in *.
          apply Qabs_Qle_condition in IHk, Hsum. apply Qabs_Qle_condition.
          set (a := valueOf (runningSum step (S k))) in *.
          set (b := valueOf (runningSum step k)) in *.
          set (s := valueOf step) in *. set (q := inject_Z (Z.of_nat k)) in *.
          split; lra. }
      intros k Hk. split; [apply Hstep1; exact Hk | apply Hmult; exact Hk].
  - apply ltb_false in E; [|right; exact H10 | apply pixels_zeroOrNormal; exact Hmx].
    rewrite value_10 in E.
    eexists. split; [reflexivity|]. split; [reflexivity|]. intro H. lra.
Qed.

(** Whole numbers of pixels, as the DOM reports them, are in the domain. *)
Lemma ofZ_pixels (n : Z) :
  (0 <= n < 2 ^ 31)%Z -> pixels (Double.ofZ n) = true /\ valueOf (Double.ofZ n) == inject_Z n.
Proof.
  intro Hn. destruct n as [|p|p]; [split; reflexivity | | lia].
  unfold Double.ofZ. cbn [binary_normalize]. unfold binary_round.
  set (d := Zpos (digits2_pos p)).
  assert (Hd : (0 < d <= 31)%Z).
  { unfold d. split; [lia|]. apply (digits_range p 0 31); [lia|]. cbn. lia. }
  assert (Ef : fexp 53 1024 (d + 0) = (d - 53)%Z) by (unfold fexp, emin; lia).
  rewrite Ef. unfold shl_align.
  destruct (d - 53 - 0)%Z as [|q|q] eqn:Eq; [lia | lia |].
  assert (Hq : Zpos q = (53 - d)%Z) by lia.
  pose proof (digits2_pos_bounds p) as Hb. fold d in Hb.
  assert (Hm : Zpos (digits2_pos (Pos.iter xO p q)) = 53%Z).
  { apply digits2_pos_unique. rewrite iter_xO, Hq.
    assert (E1 : (2 ^ (53 - 1) = 2 ^ (d - 1) * 2 ^ (53 - d))%Z).
    { rewrite <- Z.pow_add_r by lia. f_equal. lia. }
    assert (E2 : (2 ^ 53 = 2 ^ d * 2 ^ (53 - d))%Z).
    { rewrite <- Z.pow_add_r by lia. f_equal. lia. }
    rewrite E1, E2.
    assert (0 < 2 ^ (53 - d))%Z by (apply Z.pow_pos_nonneg; lia).
    split; [apply Z.mul_le_mono_nonneg_r; lia | apply Z.mul_lt_mono_pos_r; lia]. }
  rewrite binary_round_aux_exact by lia.
  split.
  - cbn [pixels]. rewrite Hm. cbn [Z.eqb Pos.eqb andb].
    destruct (Z.leb_spec (-52) (d - 53)); [|lia].
    destruct (Z.leb_spec (d - 53) (-22)); [reflexivity | lia].
  - cbn [valueOf]. rewrite iter_xO, inject_Z_mult, Hq.
    rewrite <- (pow2_Z (53 - d)) by lia.
    rewrite <- Qmult_assoc, <- pow2_add.
    replace (53 - d + (d - 53))%Z with 0%Z by lia. rewrite pow2_0. ring.
Qed.

Lemma buildHPositions_doubles_witness :
  let step := IEEE.horizontalStep (Double.ofZ 501) in
  300 <= valueOf step /\
  Qabs (valueOf step - Qmax ((6 # 10) * valueOf (Double.ofZ 501)) 300)
  <= valueOf (Double.ofZ 501) * 2 ^ (-52) /\
  exists hPositions : list Double.double,
    IEEE.buildHPositions 2000 (Double.ofZ 1503) (Double.ofZ 501) = Some hPositions /\
    (valueOf (Double.ofZ 1503) <= 10 -> hPositions = [Double.ofZ 0]) /\
    (10 < valueOf (Double.ofZ 1503) ->
     exists n : nat,
       hPositions
       = ((Double.ofZ 0 :: map (runningSum step) (seq 1 n)) ++ [Double.ofZ 1503])%list /\
       (forall k, (1 <= k <= n)%nat ->
                  valueOf (runningSum step k) < valueOf (Double.ofZ 1503)) /\
       valueOf (Double.ofZ 1503) <= valueOf (runningSum step (S n)) /\
       (forall k, (1 <= k <= S n)%nat ->
          valueOf (runningSum step (pred k)) + 299 <= valueOf (runningSum step k) /\
          Qabs (valueOf (runningSum step k) - inject_Z (Z.of_nat k) * valueOf step)
          <= inject_Z (Z.of_nat k) * 2 ^ (-20))).
Proof.
  apply (buildHPositions_doubles (Double.ofZ 1503) (Double.ofZ 501) 2000).
  - reflexivity.
  - reflexivity.
  - vm_compute. lia.
Defined.


(** C9 as stated fails: for a viewport of 501 and a scroll range of 1503
    pixels the code visits seven offsets, the second of them the double
    nearest to 300.6 and not 300.6 itself, so the list is not 0, multiples
    of [max (0.6 * 501) 300] and 1503, however many multiples are taken. *)
Lemma buildHPositions_not_multiples :
  exists hPositions : list Double.double,
    IEEE.buildHPositions 10 (Double.ofZ 1503) (Double.ofZ 501) = Some hPositions /\
    length hPositions = 7%nat /\
    ~ (exists n : nat,
          Forall2 (fun x q => valueOf x == q) hPositions
                  ((0 :: map (multiple (Qmax ((6 # 10) * 501) 300)) (seq 1 n))
                     ++ [1503])%list).
Proof.
  eexists. split; [vm_compute; reflexivity|]. split; [reflexivity|].
  intros (n & H). cbn [app] in H.
  apply Forall2_cons_iff in H. destruct H as [_ H].
  destruct n as [|n]; cbn [seq map app] in H.
  - apply Forall2_cons_iff in H. destruct H as [_ H]. inversion H.
  - apply Forall2_cons_iff in H. destruct H as [Hq _].
    vm_compute in Hq. discriminate Hq.
Qed.

(* ----------------------------------------------------------------- *)
(** *** Merging row observations *)

Lemma getOwn_cons {A} (k k' : string) (v : A) (m : list (string * A)) :
  getOwn k ((k', v) :: m) = if String.eqb k k' then Some v else getOwn k m.
Proof. reflexivity. Qed.

Lemma mapGet_mapSet_same {V} (k : string) (v : V) (m : Map V) :
  mapGet k (mapSet k v m) = Some v.
Proof.
  unfold mapGet. induction m as [|[k' v'] m IH]; cbn [mapSet].
  - rewrite getOwn_cons, String.eqb_refl. reflexivity.
  - destruct (String.eqb k k') eqn:E; rewrite getOwn_cons.
    + rewrite String.eqb_refl. reflexivity.
    + rewrite E. exact IH.
Qed.

Lemma mapGet_mapSet_other {V} (k k' : string) (v : V) (m : Map V) :
  k <> k' -> mapGet k' (mapSet k v m) = mapGet k' m.
Proof.
  intro Hne. unfold mapGet. induction m as [|[k0 v0] m IH]; cbn [mapSet].
  - rewrite getOwn_cons. destruct (String.eqb_spec k' k); [congruence | reflexivity].
  - destruct (String.eqb_spec k k0) as [->|Hk]; rewrite !getOwn_cons.
    + destruct (String.eqb_spec k' k0); [congruence | reflexivity].
    + rewrite IH. reflexivity.
Qed.

Lemma mapHas_mapGet {V} (k : string) (m : Map V) :
  mapHas k m = match mapGet k m with Some _ => true | None => false end.
Proof. reflexivity. Qed.

Lemma mapGet_None_notin {V} (k : string) (m : Map V) :
  mapGet k m = None <-> ~ In k (map fst m).
Proof.
  unfold mapGet. induction m as [|[k' v'] m IH]; cbn [map fst In].
  - split; [intros _ [] | reflexivity].
  - rewrite getOwn_cons. destruct (String.eqb_spec k k') as [->|Hne].
    + split; [discriminate | intro H; exfalso; apply H; left; reflexivity].
    + rewrite IH. split; intro H; [intros [E|E]; [congruence | auto] | auto].
Qed.

(** One cell of the accumulator after one incoming entry. *)
Lemma fillCell_get (cs : Map string) (fid val fid' : string) :
  mapGet fid' (fillCell cs (fid, val)) =
  if String.eqb fid fid' then mergedCell (mapGet fid' cs) (Some val)
  else mapGet fid' cs.
Proof.
  unfold fillCell, mergedCell, isGap. simpl fst. simpl snd.
  rewrite mapHas_mapGet.
  destruct (String.eqb_spec fid fid') as [->|Hne].
  - destruct (mapGet fid' cs) as [old|] eqn:G; simpl;
      destruct (String.eqb val ""); simpl;
      try destruct (String.eqb old ""); simpl;
      rewrite ?mapGet_mapSet_same; auto.
  - destruct (negb (val =? "") && _)%bool; [apply mapGet_mapSet_other; assumption | reflexivity].
Qed.

Lemma mergedCell_filled (old : option string) (v : string) (new : option string) :
  old = Some v -> v <> "" -> mergedCell old new = Some v.
Proof.
  intros -> Hv. unfold mergedCell, isGap.
  destruct new; [|reflexivity].
  destruct (String.eqb_spec v ""); [contradiction | reflexivity].
Qed.

(** A non-empty accumulated cell survives any run of incoming entries. *)
Lemma fillCells_keep (incoming : list (string * string)) :
  forall (cs : Map string) (fid v : string),
    mapGet fid cs = Some v -> v <> "" ->
    mapGet fid (fold_left fillCell incoming cs) = Some v.
Proof.
  induction incoming as [|[f val] tl IH]; intros cs fid v Hget Hv; simpl; [assumption|].
  apply IH; [|assumption].
  rewrite fillCell_get. destruct (String.eqb f fid); [|assumption].
  apply mergedCell_filled; assumption.
Qed.

Lemma fillCells_absent (incoming : list (string * string)) :
  forall (cs : Map string) (fid : string),
    ~ In fid (map fst incoming) ->
    mapGet fid (fold_left fillCell incoming cs) = mapGet fid cs.
Proof.
  induction incoming as [|[f val] tl IH]; intros cs fid Hnot; simpl; [reflexivity|].
  simpl in Hnot. rewrite IH by tauto. rewrite fillCell_get.
  destruct (String.eqb_spec f fid); [exfalso; apply Hnot; left; assumption | reflexivity].
Qed.

(** The cells of a row after a whole incoming [Map] of cells. *)
Lemma fillCells_get (incoming : list (string * string)) :
  NoDup (map fst incoming) ->
  forall (cs : Map string) (fid : string),
    mapGet fid (fold_left fillCell incoming cs) =
    mergedCell (mapGet fid cs) (mapGet fid incoming).
Proof.
  induction incoming as [|[f val] tl IH]; intros Hnd cs fid; cbn [fold_left];
    [reflexivity|].
  cbn [map fst] in Hnd. inversion Hnd as [|? ? Hnotin Hnd']; subst.
  unfold mapGet at 3. rewrite getOwn_cons. fold (mapGet fid tl).
  destruct (String.eqb_spec fid f) as [->|Hne].
  - rewrite fillCells_absent by assumption.
    rewrite fillCell_get, String.eqb_refl. reflexivity.
  - rewrite IH by assumption. rewrite fillCell_get.
    destruct (String.eqb_spec f fid); [congruence | reflexivity].
Qed.

Lemma keeps_refl (rd : RowData) : keeps rd rd.
Proof. split; [reflexivity | auto]. Qed.

Lemma keeps_trans (a b c : RowData) : keeps a b -> keeps b c -> keeps a c.
Proof.
  intros [Hi1 Hc1] [Hi2 Hc2]. split; [congruence|].
  intros fid v Hget Hv. apply Hc2; [apply Hc1|]; assumption.
Qed.

Lemma mergeRow_new (target : Map RowData) (k : string) (rd : RowData) :
  mapHas k target = false -> mergeRow target (k, rd) = mapSet k rd target.
Proof. intro H. unfold mergeRow. cbn [fst snd]. rewrite H. reflexivity. Qed.

Lemma mergeRow_existing (target : Map RowData) (k : string) (rd ex : RowData) :
  mapGet k target = Some ex ->
  mergeRow target (k, rd) =
  mapSet k (mkRowData (index ex) (fold_left fillCell (cells rd) (cells ex))) target.
Proof.
  intro H. unfold mergeRow. cbn [fst snd]. rewrite mapHas_mapGet, H. reflexivity.
Qed.

Lemma mergeRow_other (target : Map RowData) (k k' : string) (rd : RowData) :
  k <> k' -> mapGet k' (mergeRow target (k, rd)) = mapGet k' target.
Proof.
  intro Hne. unfold mergeRow. cbn [fst snd]. rewrite mapHas_mapGet.
  destruct (mapGet k target); apply mapGet_mapSet_other; assumption.
Qed.

Lemma mergeRow_keeps (target : Map RowData) (k : string) (ex : RowData)
      (entry : string * RowData) :
  mapGet k target = Some ex ->
  exists ex', mapGet k (mergeRow target entry) = Some ex' /\ keeps ex ex'.
Proof.
  intro Hget. destruct entry as [k0 rd].
  destruct (String.eqb_spec k0 k) as [->|Hne].
  - rewrite (mergeRow_existing _ _ _ _ Hget), mapGet_mapSet_same.
    eexists. split; [reflexivity|]. split; [reflexivity|].
    intros fid v Hc Hv. apply fillCells_keep; assumption.
  - rewrite mergeRow_other by assumption. exists ex. split; [assumption | apply keeps_refl].
Qed.

Lemma mergeRows_keeps (source : Map RowData) :
  forall (target : Map RowData) (k : string) (ex : RowData),
    mapGet k target = Some ex ->
    exists ex', mapGet k (mergeRows target source) = Some ex' /\ keeps ex ex'.
Proof.
  unfold mergeRows.
  induction source as [|entry tl IH]; intros target k ex Hget; cbn [fold_left].
  - exists ex. split; [assumption | apply keeps_refl].
  - destruct (mergeRow_keeps target k ex entry Hget) as (ex1 & H1 & K1).
    destruct (IH _ _ _ H1) as (ex2 & H2 & K2).
    exists ex2. split; [assumption | eapply keeps_trans; eassumption].
Qed.

Lemma mergeRows_app (s1 s2 target : Map RowData) :
  mergeRows target (s1 ++ s2)%list = mergeRows (mergeRows target s1) s2.
Proof. unfold mergeRows. apply fold_left_app. Qed.

Lemma mergeRows_absent (source : Map RowData) :
  forall (target : Map RowData) (k : string),
    ~ In k (map fst source) ->
    mapGet k (mergeRows target source) = mapGet k target.
Proof.
  unfold mergeRows.
  induction source as [|[k0 rd] tl IH]; intros target k Hnot; cbn [fold_left];
    [reflexivity|].
  cbn [map fst In] in Hnot. rewrite IH by tauto.
  apply mergeRow_other. tauto.
Qed.

Lemma mergeRows_single (source : Map RowData) (target : Map RowData)
      (k : string) (rd : RowData) :
  NoDup (map fst source) -> In (k, rd) source ->
  exists s1 s2,
    source = (s1 ++ (k, rd) :: s2)%list /\
    mapGet k (mergeRows target source)
    = mapGet k (mergeRow (mergeRows target s1) (k, rd)) /\
    mapGet k (mergeRows target s1) = mapGet k target.
Proof.
  intros Hnd Hin. destruct (in_split _ _ Hin) as (s1 & s2 & ->).
  exists s1, s2. split; [reflexivity|].
  rewrite map_app in Hnd. cbn [map fst] in Hnd.
  pose proof (NoDup_remove_2 _ _ _ Hnd) as Hnot.
  assert (H1 : ~ In k (map fst s1)) by (intro H; apply Hnot, in_or_app; left; exact H).
  assert (H2 : ~ In k (map fst s2)) by (intro H; apply Hnot, in_or_app; right; exact H).
  split.
  - rewrite mergeRows_app.
    change ((k, rd) :: s2) with ([(k, rd)] ++ s2)%list. rewrite mergeRows_app.
    rewrite (mergeRows_absent s2) by exact H2. reflexivity.
  - apply mergeRows_absent. exact H1.
Qed.

(** C2.  Merging a pass into an accumulator is first-non-empty-writer-wins.
    A row already accumulated keeps its index and every non-empty cell,
    whatever the pass holds.  A key new to the accumulator is stored from
    its first observation in the pass, wholesale when that is its only one.
    For a pass that holds each key once (a [Map]): the row of an accumulated
    key that the pass observes keeps its index, and each of its cells is the
    incoming value exactly when the accumulated slot is missing or empty and
    the incoming value is non-empty, and the accumulated slot otherwise, the
    incoming cells being those of the pass's observation of that same key; a
    key new to the accumulator is stored as the pass holds it; and a key the
    pass does not hold reads as before.  Merging [{rowA: {f1: x}}] with
    [[{rowA: {f1: y, f2: z}}]] gives [{rowA: {f1: x, f2: z}}]. *)
Theorem mergeRows_first_writer_wins :
  forall target : Map RowData,
    (forall (source : Map RowData) (k : string) (ex : RowData),
        mapGet k target = Some ex ->
        exists ex', mapGet k (mergeRows target source) = Some ex' /\ keeps ex ex') /\
    (forall (s1 s2 : Map RowData) (k : string) (rd : RowData),
        mapHas k target = false -> ~ In k (map fst s1) ->
        exists ex',
          mapGet k (mergeRows target (s1 ++ (k, rd) :: s2)%list) = Some ex' /\
          keeps rd ex' /\
          (~ In k (map fst s2) -> ex' = rd)) /\
    (forall (source : Map RowData) (k : string) (rd ex : RowData),
        NoDup (map fst source) -> In (k, rd) source ->
        mapGet k target = Some ex -> NoDup (map fst (cells rd)) ->
        exists ex',
          mapGet k (mergeRows target source) = Some ex' /\
          index ex' = index ex /\
          forall fid, mapGet fid (cells ex') =
                      mergedCell (mapGet fid (cells ex)) (mapGet fid (cells rd))) /\
    (forall (source : Map RowData) (k : string) (rd : RowData),
        NoDup (map fst source) -> In (k, rd) source ->
        mapGet k target = None ->
        mapGet k (mergeRows target source) = Some rd) /\
    (forall (source : Map RowData) (k' : string),
        ~ In k' (map fst source) ->
        mapGet k' (mergeRows target source) = mapGet k' target) /\
    (forall i j : Z,
        mergeRows [("rowA", mkRowData i [("f1", "x")])]
                  [("rowA", mkRowData j [("f1", "y"); ("f2", "z")])]
        = [("rowA", mkRowData i [("f1", "x"); ("f2", "z")])]).
Proof.
  intro target. repeat split.
  - intros source k ex Hget. apply mergeRows_keeps. assumption.
  - intros s1 s2 k rd Hnew Hs1.
    rewrite mergeRows_app.
    assert (Hfresh : mapHas k (mergeRows target s1) = false).
    { rewrite mapHas_mapGet, mergeRows_absent by assumption.
      rewrite mapHas_mapGet in Hnew. exact Hnew. }
    change ((k, rd) :: s2) with ([(k, rd)] ++ s2)%list. rewrite mergeRows_app.
    unfold mergeRows at 2. cbn [fold_left]. rewrite (mergeRow_new _ _ _ Hfresh).
    destruct (mergeRows_keeps s2 (mapSet k rd (mergeRows target s1)) k rd
                              (mapGet_mapSet_same _ _ _)) as (ex' & Hget & Hkeep).
    exists ex'. split; [assumption|]. split; [assumption|].
    intro Hs2. rewrite mergeRows_absent, mapGet_mapSet_same in Hget by assumption.
    congruence.
  - intros source k rd ex Hkeys Hin Hget Hnd.
    destruct (mergeRows_single source target k rd Hkeys Hin) as (s1 & s2 & _ & Hk & H1).
    rewrite Hget in H1.
    rewrite Hk, (mergeRow_existing _ _ _ _ H1), mapGet_mapSet_same.
    eexists. split; [reflexivity|]. split; [reflexivity|].
    intro fid. cbn [cells]. apply fillCells_get. assumption.
  - intros source k rd Hkeys Hin Hget.
    destruct (mergeRows_single source target k rd Hkeys Hin) as (s1 & s2 & _ & Hk & H1).
    rewrite Hget in H1.
    rewrite Hk, mergeRow_new by (rewrite mapHas_mapGet, H1; reflexivity).
    apply mapGet_mapSet_same.
  - intros source k' Hnot. apply mergeRows_absent. exact Hnot.
Qed.

Lemma mergeRows_first_writer_wins_witness :
  exists exA exB,
    mapGet "r1" (mergeRows [("r1", mkRowData 4 [("f1", ""); ("f2", "kept")]);
                            ("r2", mkRowData 5 [("f1", "")])]
                           [("r1", mkRowData 9 [("f1", "new"); ("f2", "late")]);
                            ("r2", mkRowData 8 [("f1", "other")])])
    = Some exA /\
    index exA = 4%Z /\
    mapGet "f1" (cells exA) = Some "new" /\
    mapGet "f2" (cells exA) = Some "kept" /\
    mapGet "r2" (mergeRows [("r1", mkRowData 4 [("f1", ""); ("f2", "kept")]);
                            ("r2", mkRowData 5 [("f1", "")])]
                           [("r1", mkRowData 9 [("f1", "new"); ("f2", "late")]);
                            ("r2", mkRowData 8 [("f1", "other")])])
    = Some exB /\
    index exB = 5%Z /\
    mapGet "f1" (cells exB) = Some "other".
Proof.
  destruct (mergeRows_first_writer_wins
              [("r1", mkRowData 4 [("f1", ""); ("f2", "kept")]);
               ("r2", mkRowData 5 [("f1", "")])])
    as (_ & _ & H & _).
  destruct (H [("r1", mkRowData 9 [("f1", "new"); ("f2", "late")]);
               ("r2", mkRowData 8 [("f1", "other")])]
              "r1" (mkRowData 9 [("f1", "new"); ("f2", "late")])
              (mkRowData 4 [("f1", ""); ("f2", "kept")]))
    as (exA & HgetA & HidxA & HcellsA).
  - repeat constructor; simpl; intuition discriminate.
  - left. reflexivity.
  - reflexivity.
  - repeat constructor; simpl; intuition discriminate.
  - destruct (H [("r1", mkRowData 9 [("f1", "new"); ("f2", "late")]);
                 ("r2", mkRowData 8 [("f1", "other")])]
                "r2" (mkRowData 8 [("f1", "other")])
                (mkRowData 5 [("f1", "")]))
      as (exB & HgetB & HidxB & HcellsB).
    + repeat constructor; simpl; intuition discriminate.
    + right. left. reflexivity.
    + reflexivity.
    + repeat constructor; simpl; intuition discriminate.
    + exists exA, exB. split; [exact HgetA|]. split; [exact HidxA|].
      split; [rewrite HcellsA; reflexivity|]. split; [rewrite HcellsA; reflexivity|].
      split; [exact HgetB|]. split; [exact HidxB|]. rewrite HcellsB. reflexivity.
Defined.

(* ----------------------------------------------------------------- *)
(** *** The value flattener *)

(** Induction on JSON values, with the hypothesis available for every
    element of an array and every property value of an object. *)
Lemma json_nested_ind (P : json -> Prop) :
  P JNull ->
  (forall b, P (JBool b)) ->
  (forall n, P (JNum n)) ->
  (forall s, P (JStr s)) ->
  (forall items, Forall P items -> P (JArr items)) ->
  (forall props, Forall (fun kv => P (snd kv)) props -> P (JObj props)) ->
  forall v, P v.
Proof.
  intros Hnull Hbool Hnum Hstr Harr Hobj.
  fix IH 1. intros [| b | n | s | items | props].
  - exact Hnull.
  - apply Hbool.
  - apply Hnum.
  - apply Hstr.
  - apply Harr. induction items as [|x tl IHl]; constructor; [apply IH | exact IHl].
  - apply Hobj. induction props as [|[k x] tl IHl]; constructor; [apply IH | exact IHl].
Qed.

Lemma lookupWith_getOwn {A B} (f : A -> B) (k : string) (ps : list (string * A)) :
  lookupWith f k ps = option_map f (getOwn k ps).
Proof.
  unfold getOwn. induction ps as [|[k' v] tl IH]; simpl; [reflexivity|].
  destruct (String.eqb k k'); [reflexivity | exact IH].
Qed.

Lemma getOwn_In {A} (k : string) (v : A) (ps : list (string * A)) :
  getOwn k ps = Some v -> In (k, v) ps.
Proof.
  unfold getOwn. induction ps as [|[k' v'] tl IH]; simpl; [discriminate|].
  destruct (String.eqb_spec k k') as [->|Hne].
  - intros [= ->]. left. reflexivity.
  - intro H. right. apply IH. exact H.
Qed.




Section FlattenFuel.
Variable self : json -> option string.


Variable props : list (string * json).
Hypothesis self_props :
  forall k v, getOwn k props = Some v -> self v = Some (flattenValue v).



End FlattenFuel.



Lemma pairs_of_props (props : list (string * json)) :
  NoDup (map fst props) ->
  map (fun k => k ++ ": " ++ orElse (lookupWith flattenValue k props) "") (map fst props)
  = map (fun kv => fst kv ++ ": " ++ flattenValue (snd kv)) props.
Proof.
  intro Hnd. rewrite map_map. apply map_ext_in. intros [k v] Hin. cbn [fst snd].
  rewrite lookupWith_getOwn.
  assert (G : getOwn k props = Some v).
  { clear - Hnd Hin. unfold getOwn.
    induction props as [|[k' v'] tl IH]; [destruct Hin|].
    cbn [map fst] in Hnd. inversion Hnd as [|? ? Hnotin Hnd']; subst.
    simpl. destruct (String.eqb_spec k k') as [->|Hne].
    - destruct Hin as [[= ->]|Hin]; [reflexivity|].
      exfalso. apply Hnotin. apply (in_map fst _ _ Hin).
    - destruct Hin as [[= -> ->]|Hin]; [congruence | apply IH; assumption]. }
  rewrite G. reflexivity.
Qed.

Lemma toString_scalar (v : json) : isScalar v = true -> toString v = flattenValue v.
Proof. destruct v; try discriminate; reflexivity. Qed.

(** What [flattenValue] returns on an object, case by case. *)
Lemma flattenValue_object_cases :
  forall props : list (string * json),
    (forall k v, firstPresent priorityKeys props = Some (k, v) ->
                 flattenValue (JObj props) =
                 if includes printedKeys k then toString v else flattenValue v) /\
    (firstPresent priorityKeys props = None -> (length props <= 4)%nat ->
     flattenValue (JObj props) =
     join ", " (map (fun k => k ++ ": " ++ flattenValueU (getOwn k props)) (map fst props))) /\
    (firstPresent priorityKeys props = None -> (length props <= 4)%nat ->
     NoDup (map fst props) ->
     flattenValue (JObj props) =
     join ", " (map (fun kv => fst kv ++ ": " ++ flattenValue (snd kv)) props)) /\
    (firstPresent priorityKeys props = None -> (4 < length props)%nat ->
     flattenValue (JObj props) = stringify (JObj props)) /\
    (forall v, isScalar v = true -> toString v = flattenValue v).
Proof.
  intro props.
  assert (Hnone : firstPresent priorityKeys props = None ->
                  flattenValue (JObj props) =
                  if Nat.leb (length (map fst props)) 4
                  then join ", " (map (fun k => k ++ ": "
                                         ++ orElse (lookupWith flattenValue k props) "")
                                      (map fst props))
                  else stringify (JObj props)).
  { cbn [flattenValue priorityKeys flattenedKeys printedKeys app firstPresent].
    rewrite !lookupWith_getOwn.
    repeat (match goal with
            | |- context [getOwn ?k props] => destruct (getOwn k props); [discriminate|]
            end).
    intros _. reflexivity. }
  split; [|split; [|split; [|split]]].
  - intros k v. cbn [flattenValue priorityKeys flattenedKeys printedKeys app firstPresent].
    rewrite !lookupWith_getOwn.
    repeat (match goal with
            | |- context [getOwn ?k props] =>
                destruct (getOwn k props);
                [ intros [= <- <-]; reflexivity |]
            end).
    discriminate.
  - intros H Hlen. rewrite (Hnone H), length_map.
    destruct (Nat.leb_spec (length props) 4); [|lia].
    f_equal. apply map_ext. intro k. rewrite lookupWith_getOwn.
    destruct (getOwn k props); reflexivity.
  - intros H Hlen Hnd. rewrite (Hnone H), length_map.
    destruct (Nat.leb_spec (length props) 4); [|lia].
    rewrite pairs_of_props by assumption. reflexivity.
  - intros H Hlen. rewrite (Hnone H), length_map.
    destruct (Nat.leb_spec (length props) 4); [lia | reflexivity].
  - apply toString_scalar.
Qed.

Lemma flattenedKeys_not_printed (k : string) :
  includes flattenedKeys k = true -> includes printedKeys k = false.
Proof.
  unfold includes, flattenedKeys, printedKeys. cbn [existsb].
  intro H.
  repeat (apply orb_true_iff in H; destruct H as [H|H]);
    try discriminate H; apply String.eqb_eq in H; subst k; reflexivity.
Qed.

(** C5.  Where the first present priority key is [url], [href], [email] or
    [phone] and holds [null], an object or an array, [flattenValue] returns
    the [String] conversion of the value ([null], [[object Object]], the
    elements joined by commas) and not its flattened value, which the six
    keys before them and the elements of arrays get.  On every other object
    the code does what the claim says: the flattened value of the first
    present priority key; with none present, the [key: flattened value]
    pairs of an object of at most four keys joined by a comma and a space,
    and the compact JSON text of a larger one. *)
Theorem flattenValue_printed_keys :
  (flattenValue (JObj [("url", JNull)]) = "null" /\
   flattenValue (JObj [("email", JObj [("address", JStr "a@b.c")])]) = "[object Object]" /\
   flattenValue (JObj [("phone", JArr [JStr "1"; JStr "2"])]) = "1,2") /\
  (flattenValue JNull = "" /\
   flattenValue (JObj [("address", JStr "a@b.c")]) = "address: a@b.c" /\
   flattenValue (JArr [JStr "1"; JStr "2"]) = "1; 2" /\
   flattenValue (JObj [("value", JNull)]) = "" /\
   flattenValue (JObj [("value", JObj [("address", JStr "a@b.c")])]) = "address: a@b.c" /\
   flattenValue (JObj [("value", JArr [JStr "1"; JStr "2"])]) = "1; 2" /\
   flattenValue (JArr [JNull; JStr "x"]) = "; x") /\
  (forall (props : list (string * json)) (k : string) (v : json),
      firstPresent priorityKeys props = Some (k, v) ->
      includes flattenedKeys k = true \/ isScalar v = true ->
      flattenValue (JObj props) = flattenValue v) /\
  (forall props : list (string * json),
      firstPresent priorityKeys props = None -> (length props <= 4)%nat ->
      NoDup (map fst props) ->
      flattenValue (JObj props) =
      join ", " (map (fun kv => fst kv ++ ": " ++ flattenValue (snd kv)) props)) /\
  (forall props : list (string * json),
      firstPresent priorityKeys props = None -> (4 < length props)%nat ->
      flattenValue (JObj props) = stringify (JObj props)).
Proof.
  split; [repeat split|]. split; [repeat split|]. split; [|split].
  - intros props k v Hfirst Hok.
    destruct (flattenValue_object_cases props) as (H & _). rewrite (H k v Hfirst).
    destruct Hok as [Hk|Hv].
    + rewrite (flattenedKeys_not_printed k Hk). reflexivity.
    + destruct (includes printedKeys k); [apply toString_scalar; exact Hv | reflexivity].
  - intros props. apply (flattenValue_object_cases props).
  - intros props. apply (flattenValue_object_cases props).
Qed.

Lemma flattenValue_printed_keys_witness :
  flattenValue (JObj [("href", JNum 7); ("phone", JStr "p")]) = "7" /\
  flattenValue (JObj [("title", JNull); ("url", JStr "u")]) = "" /\
  flattenValue (JObj [("a", JNum 1); ("b", JNull)]) = "a: 1, b: " /\
  flattenValue (JObj [("a", JNum 1); ("b", JNull); ("c", JNull); ("d", JNull);
                      ("e", JBool true)])
  = stringify (JObj [("a", JNum 1); ("b", JNull); ("c", JNull); ("d", JNull);
                     ("e", JBool true)]).
Proof.
  destruct flattenValue_printed_keys as (_ & _ & Hfirst & Hpairs & Hjson).
  split; [|split; [|split]].
  - apply (Hfirst [("href", JNum 7); ("phone", JStr "p")] "href" (JNum 7));
      [reflexivity | right; reflexivity].
  - apply (Hfirst [("title", JNull); ("url", JStr "u")] "title" JNull);
      [reflexivity | left; reflexivity].
  - rewrite Hpairs; [reflexivity | reflexivity | simpl; lia |].
    repeat constructor; simpl; intuition discriminate.
  - apply Hjson; [reflexivity | simpl; lia].
Defined.

(* ----------------------------------------------------------------- *)
(** *** Table-shaped arrays *)

Lemma looksLikeTable_qualifies (arr : list json) :
  looksLikeTable arr = true <-> qualifies arr.
Proof.
  unfold looksLikeTable, qualifies. split.
  - destruct arr as [|first tl]; [discriminate|].
    destruct first as [| | | | |firstProps]; try discriminate.
    intro H. apply andb_true_iff in H. destruct H as [Hlen Hcons].
    split; [simpl; lia|]. exists firstProps. split; [reflexivity|].
    apply Nat.leb_le in Hlen. rewrite length_map in Hlen. split; [exact Hlen|].
    intros i item Hi Hnth.
    unfold isConsistent in Hcons. rewrite slice_head in Hcons.
    rewrite forallb_forall in Hcons.
    assert (Hin : In item (firstn (Nat.min 5 (length (JObj firstProps :: tl)))
                                  (JObj firstProps :: tl))).
    { apply (nth_error_In _ i). rewrite nth_error_firstn.
      destruct (Nat.ltb_spec i (Nat.min 5 (length (JObj firstProps :: tl)))); [exact Hnth | lia]. }
    specialize (Hcons item Hin). destruct (isObjectLike item); [|discriminate].
    split; [reflexivity|]. cbn [negb] in Hcons. apply Nat.leb_le in Hcons.
    rewrite length_map in Hcons. exact Hcons.
  - intros (Hlen & firstProps & Hfirst & H2 & Hall).
    destruct arr as [|first tl]; [simpl in Hlen; lia|].
    cbn [nth_error] in Hfirst. injection Hfirst as ->.
    apply andb_true_iff. split; [apply Nat.leb_le; rewrite length_map; exact H2|].
    unfold isConsistent. rewrite slice_head.
    apply forallb_forall. intros item Hin.
    apply In_nth_error in Hin. destruct Hin as [i Hnth].
    rewrite nth_error_firstn in Hnth.
    destruct (Nat.ltb_spec i (Nat.min 5 (length (JObj firstProps :: tl)))); [|discriminate].
    destruct (Hall i item ltac:(assumption) Hnth) as [Hobj Hshare].
    rewrite Hobj. cbn [negb]. apply Nat.leb_le. rewrite length_map. exact Hshare.
Qed.

(** The loops of [findAllTableArrays] only ever append to [results]. *)
Lemma fold_left_appends {A B} (f : list B -> A -> list B) (g : A -> list B)
      (l : list A) :
  Forall (fun x => forall acc, f acc x = (acc ++ g x)%list) l ->
  forall acc, fold_left f l acc = (acc ++ flat_map g l)%list.
Proof.
  induction 1 as [|x tl Hx _ IH]; intro acc; simpl.
  - rewrite app_nil_r. reflexivity.
  - rewrite IH, Hx, <- app_assoc. reflexivity.
Qed.

Lemma findAllTableArrays_appends (obj : json) :
  forall (d : nat) (results : list (list json)),
    findAllTableArrays obj d results = (results ++ found d obj)%list.
Proof.
  unfold found.
  induction obj as [| b | n | s | items IH | props IH] using json_nested_ind;
    intros d results; cbn [findAllTableArrays];
    destruct (Nat.ltb 8 d); try (rewrite app_nil_r; reflexivity).
  - rewrite (fold_left_appends _
               (fun item => if isObjectLike item
                            then findAllTableArrays item (S d) [] else [])).
    + rewrite (fold_left_appends _
               (fun item => if isObjectLike item
                            then findAllTableArrays item (S d) [] else [])).
      * destruct (looksLikeTable items); cbn [app]; rewrite <- ?app_assoc; reflexivity.
      * apply Forall_impl with (2 := IH). intros x Hx acc.
        destruct (isObjectLike x); [apply Hx | rewrite app_nil_r; reflexivity].
    + apply Forall_impl with (2 := IH). intros x Hx acc.
      destruct (isObjectLike x); [apply Hx | rewrite app_nil_r; reflexivity].
  - rewrite (fold_left_appends _ (fun kv => findAllTableArrays (snd kv) (S d) [])).
    + rewrite (fold_left_appends _ (fun kv => findAllTableArrays (snd kv) (S d) [])).
      * reflexivity.
      * apply Forall_impl with (2 := IH). intros x Hx acc. apply Hx.
    + apply Forall_impl with (2 := IH). intros x Hx acc. apply Hx.
Qed.

Lemma found_JArr (d : nat) (items : list json) :
  found d (JArr items) =
  if Nat.ltb 8 d then []
  else ((if looksLikeTable items then [items] else [])
          ++ flat_map (fun item => if isObjectLike item then found (S d) item else [])
                      items)%list.
Proof.
  unfold found. cbn [findAllTableArrays]. destruct (Nat.ltb 8 d); [reflexivity|].
  rewrite (fold_left_appends _
             (fun item => if isObjectLike item
                          then findAllTableArrays item (S d) [] else [])).
  - destruct (looksLikeTable items); reflexivity.
  - apply Forall_forall. intros x _ acc.
    destruct (isObjectLike x);
      [apply findAllTableArrays_appends | rewrite app_nil_r; reflexivity].
Qed.

Lemma found_JObj (d : nat) (props : list (string * json)) :
  found d (JObj props) =
  if Nat.ltb 8 d then [] else flat_map (fun kv => found (S d) (snd kv)) props.
Proof.
  unfold found. cbn [findAllTableArrays]. destruct (Nat.ltb 8 d); [reflexivity|].
  rewrite (fold_left_appends _ (fun kv => findAllTableArrays (snd kv) (S d) [])).
  - reflexivity.
  - apply Forall_forall. intros x _ acc. apply findAllTableArrays_appends.
Qed.

Lemma nestedAt_array_objectLike (d : nat) (x : json) (arr : list json) :
  nestedAt d x (JArr arr) -> isObjectLike x = true.
Proof. inversion 1; reflexivity. Qed.

Lemma found_In (obj : json) :
  forall (d : nat) (arr : list json),
    In arr (found d obj) <->
    exists n, (d + n <= 8)%nat /\ nestedAt n obj (JArr arr) /\ looksLikeTable arr = true.
Proof.
  induction obj as [| b | n | s | items IH | props IH] using json_nested_ind;
    intros d arr.
  1-4: (split; [unfold found; cbn [findAllTableArrays]; destruct (Nat.ltb 8 d); intros []
               | intros (n' & _ & Hn & _); inversion Hn]).
  - rewrite found_JArr. destruct (Nat.ltb_spec 8 d) as [Hd|Hd].
    + split; [intros [] | intros (n & Hle & _); lia].
    + rewrite in_app_iff, in_flat_map. split.
      * intros [Hhere|(x & Hx & Hin)].
        -- destruct (looksLikeTable items) eqn:E; [|destruct Hhere].
           destruct Hhere as [<-|[]]. exists 0%nat.
           split; [lia|]. split; [constructor | exact E].
        -- destruct (isObjectLike x) eqn:Ex; [|destruct Hin].
           rewrite Forall_forall in IH. apply (IH x Hx) in Hin.
           destruct Hin as (n & Hle & Hn & Hl). exists (S n).
           split; [lia|]. split; [econstructor; eassumption | exact Hl].
      * intros (n & Hle & Hn & Hl).
        inversion Hn as [ | d0 items0 x v Hx Hnest | ]; subst.
        -- left. rewrite Hl. left. reflexivity.
        -- right. exists x. split; [assumption|].
           rewrite (nestedAt_array_objectLike _ _ _ Hnest).
           rewrite Forall_forall in IH. apply (IH x Hx).
           exists d0. split; [lia|]. split; assumption.
  - rewrite found_JObj. destruct (Nat.ltb_spec 8 d) as [Hd|Hd].
    + split; [intros [] | intros (n & Hle & _); lia].
    + rewrite in_flat_map. split.
      * intros ([k x] & Hx & Hin). rewrite Forall_forall in IH.
        apply (IH (k, x) Hx) in Hin. destruct Hin as (n & Hle & Hn & Hl).
        exists (S n). split; [lia|]. split; [econstructor; eassumption | exact Hl].
      * intros (n & Hle & Hn & Hl).
        inversion Hn as [ | | d0 props0 k x v Hx Hnest ]; subst.
        exists (k, x). split; [assumption|].
        rewrite Forall_forall in IH. apply (IH (k, x) Hx).
        exists d0. split; [lia|]. split; assumption.
Qed.

(** C3, amended.  In every JSON document the detector reports an array
    exactly when the array lies at most eight levels below the root and is
    of table shape: not empty, its first element a non-array, non-null
    object of at least two keys, and each of its first [min 5 length]
    elements an object having at least half of the first element's keys.
    Five objects of which the later four share one of the first one's four
    keys are not reported; sharing two of four, they are. *)
Theorem findAllTableArrays_candidates :
  (forall (doc : json) (arr : list json),
      In arr (findAllTableArrays doc 0 []) <->
      exists d : nat, (d <= 8)%nat /\ nestedAt d doc (JArr arr) /\ qualifies arr) /\
  (let first := record ["k1"; "k2"; "k3"; "k4"] in
   let one := record ["k1"; "x2"; "x3"; "x4"] in
   let two := record ["k1"; "k2"; "x3"; "x4"] in
   findAllTableArrays (JArr [first; one; one; one; one]) 0 [] = [] /\
   findAllTableArrays (JArr [first; two; two; two; two]) 0 []
   = [[first; two; two; two; two]]).
Proof.
  split; [|split; reflexivity].
  intros doc arr. fold (found 0 doc). rewrite found_In.
  split; intros (d & Hd & Hn & Hq); exists d;
    (split; [lia|]); (split; [exact Hn|]); apply looksLikeTable_qualifies; exact Hq.
Qed.

Lemma findAllTableArrays_candidates_witness :
  In [record ["a"; "b"]]
     (findAllTableArrays (JObj [("data", JArr [record ["a"; "b"]])]) 0 []) /\
  exists d : nat,
    (d <= 8)%nat /\
    nestedAt d (JObj [("data", JArr [record ["a"; "b"]])]) (JArr [record ["a"; "b"]]) /\
    qualifies [record ["a"; "b"]].
Proof.
  split; [left; reflexivity|].
  apply (proj1 findAllTableArrays_candidates). left. reflexivity.
Defined.

(** C3 as stated fails: an array of table shape nine levels below the root
    is in the document and is not reported. *)
Lemma findAllTableArrays_misses_deep_array :
  nestedAt 9 (wrap 9 (JArr [record ["a"; "b"]])) (JArr [record ["a"; "b"]]) /\
  qualifies [record ["a"; "b"]] /\
  ~ In [record ["a"; "b"]] (findAllTableArrays (wrap 9 (JArr [record ["a"; "b"]])) 0 []).
Proof.
  split; [|split].
  - cbn [wrap]. repeat (eapply nested_item; [left; reflexivity|]). constructor.
  - apply looksLikeTable_qualifies. reflexivity.
  - intros [].
Qed.

(* ----------------------------------------------------------------- *)
(** *** Headers and rows of a candidate *)

Lemma includes_In (l : list string) (k : string) : includes l k = true <-> In k l.
Proof.
  unfold includes. rewrite existsb_exists. split.
  - intros (x & Hx & E). apply String.eqb_eq in E. subst. exact Hx.
  - intro H. exists k. split; [exact H | apply String.eqb_refl].
Qed.

Lemma includes_app (a b : list string) (k : string) :
  includes (a ++ b)%list k = includes a k || includes b k.
Proof. unfold includes. apply existsb_app. Qed.

Lemma filter_filter {A} (f g : A -> bool) (l : list A) :
  filter f (filter g l) = filter (fun x => g x && f x) l.
Proof.
  induction l as [|x tl IH]; simpl; [reflexivity|].
  destruct (g x); simpl; [destruct (f x)|]; rewrite IH; reflexivity.
Qed.

(** Adding a run of keys to an insertion-ordered set appends those not yet
    in it, each once, in order of first appearance. *)
Lemma setAdd_fold (l : list string) :
  forall acc : list string,
    fold_left setAdd l acc
    = (acc ++ filter (fun k => negb (includes acc k)) (dedup l))%list.
Proof.
  induction l as [|x tl IH]; intro acc; cbn [fold_left dedup filter].
  - rewrite app_nil_r. reflexivity.
  - rewrite IH. unfold setAdd. destruct (includes acc x) eqn:E; cbn [negb].
    + f_equal. rewrite filter_filter. apply filter_ext_in. intros k _.
      destruct (String.eqb_spec k x) as [->|Hne]; cbn [negb andb]; [|reflexivity].
      rewrite E. reflexivity.
    + rewrite <- app_assoc. cbn [app]. do 2 f_equal.
      rewrite filter_filter. apply filter_ext. intro k.
      rewrite includes_app. unfold includes at 2. cbn [existsb].
      rewrite orb_false_r, negb_orb, andb_comm. reflexivity.
Qed.

Lemma setAdd_fold_nested (items : list json) :
  forall acc : list string,
    fold_left (fun acc item =>
                 if isObjectLike item then fold_left setAdd (objectKeys item) acc
                 else acc) items acc
    = fold_left setAdd (concat (map keysOf items)) acc.
Proof.
  induction items as [|x tl IH]; intro acc; cbn [fold_left map concat]; [reflexivity|].
  rewrite fold_left_app, IH. f_equal. unfold keysOf.
  destruct (isObjectLike x); reflexivity.
Qed.

(** The header row of an array whose first element is a plain object. *)
Lemma filter_all {A} (l : list A) : filter (fun _ => true) l = l.
Proof. induction l as [|x tl IH]; simpl; [reflexivity | f_equal; exact IH]. Qed.

Lemma extractHeadersFromObjects_union (props : list (string * json)) (tl : list json) :
  extractHeadersFromObjects (JObj props :: tl)
  = Ok (filter (fun k => negb (includes skipKeys k)) (unionOfKeys (JObj props :: tl))).
Proof.
  unfold extractHeadersFromObjects, unionOfKeys. do 2 f_equal.
  rewrite setAdd_fold_nested.
  replace (Nat.min 10 (length (JObj props :: tl)))
    with (S (Nat.min 9 (length tl))) by (cbn [length]; lia).
  replace (Nat.min (length (JObj props :: tl)) 10)
    with (S (Nat.min 9 (length tl))) by (cbn [length]; lia).
  cbn [firstn skipn map concat].
  set (rest := concat (map keysOf (firstn (Nat.min 9 (length tl)) tl))).
  rewrite <- (fold_left_app setAdd (objectKeys (JObj props)) rest []).
  rewrite setAdd_fold. cbn [app includes existsb negb].
  rewrite filter_all. reflexivity.
Qed.

Lemma dedup_fold (l : list string) : dedup l = fold_left setAdd l [].
Proof.
  rewrite setAdd_fold. cbn [app includes existsb negb]. rewrite filter_all. reflexivity.
Qed.

Lemma dedup_app (a b : list string) :
  dedup (a ++ b)%list
  = (dedup a ++ filter (fun k => negb (includes (dedup a) k)) (dedup b))%list.
Proof.
  rewrite (dedup_fold (a ++ b)%list), fold_left_app, <- dedup_fold.
  apply setAdd_fold.
Qed.

Lemma dedup_NoDup (l : list string) : NoDup l -> dedup l = l.
Proof.
  induction 1 as [|k tl Hnotin _ IH]; cbn [dedup]; [reflexivity|].
  rewrite IH. f_equal.
  rewrite (filter_ext_in _ (fun _ => true)); [apply filter_all|].
  intros k' Hin. destruct (String.eqb_spec k' k); [subst; contradiction | reflexivity].
Qed.

(** The ordered union starts with the first element's keys, in their own
    order, followed by the keys first seen in the next nine elements. *)
Lemma unionOfKeys_first (props : list (string * json)) (tl : list json) :
  NoDup (map fst props) ->
  unionOfKeys (JObj props :: tl)
  = (map fst props
       ++ filter (fun k => negb (includes (map fst props) k))
                 (dedup (concat (map keysOf (firstn (Nat.min 9 (length tl)) tl)))))%list.
Proof.
  intro Hnd. unfold unionOfKeys.
  replace (Nat.min 10 (length (JObj props :: tl)))
    with (S (Nat.min 9 (length tl))) by (cbn [length]; lia).
  cbn [firstn map concat]. rewrite dedup_app.
  change (keysOf (JObj props)) with (map fst props).
  rewrite (dedup_NoDup _ Hnd). reflexivity.
Qed.

(** A row built from a plain object: each header looked up among the
    object's properties, a missing one giving the empty string. *)
Lemma row_record (hs : list string) (props : list (string * json)) :
  mapM (fun h => v <- getProp (JObj props) h ;; Ok (flattenValueU v)) hs
  = Ok (map (fun h => flattenValueU (getOwn h props)) hs).
Proof.
  induction hs as [|h hs' IH]; cbn [map mapM]; [reflexivity|].
  rewrite IH. reflexivity.
Qed.

Lemma buildRows_records (hs : list string) (records : list (list (string * json))) :
  buildRows hs (map JObj records)
  = Ok (map (fun props => map (fun h => flattenValueU (getOwn h props)) hs) records).
Proof.
  unfold buildRows. induction records as [|props tl IH]; cbn [map mapM]; [reflexivity|].
  rewrite row_record. cbn [bind]. rewrite IH. reflexivity.
Qed.

Lemma getProp_not_null (item : json) (h : string) :
  item <> JNull -> exists o, getProp item h = Ok o.
Proof.
  destruct item as [| b | n | s | items | props]; intro H; [congruence| | | | |];
    cbn [getProp]; eauto.
  - destruct (String.eqb h "length"); [eauto|]. destruct (findIndex h _); eauto.
  - destruct (String.eqb h "length"); [eauto|]. destruct (findIndex h _); eauto.
Qed.

Lemma row_not_null (hs : list string) (item : json) :
  item <> JNull ->
  exists row, mapM (fun h => v <- getProp item h ;; Ok (flattenValueU v)) hs = Ok row.
Proof.
  intro H. induction hs as [|h tl (row & IH)]; cbn [mapM]; [eauto|].
  destruct (getProp_not_null item h H) as (o & ->). cbn [bind]. rewrite IH.
  cbn [bind]. eauto.
Qed.

(** With at least one header, a [null] element makes the row builder
    throw. *)
Lemma buildRows_null (hs : list string) (tableData : list json) :
  hs <> [] -> In JNull tableData -> buildRows hs tableData = Throw "TypeError".
Proof.
  intros Hhs. unfold buildRows.
  induction tableData as [|item tl IH]; intro Hin; [destruct Hin|].
  cbn [mapM].
  assert (Hcase : item = JNull \/ item <> JNull)
    by (destruct item; [left; reflexivity | right; discriminate ..]).
  destruct Hcase as [->|Hitem].
  - destruct hs as [|h hs']; [congruence | reflexivity].
  - destruct Hin as [Hin|Hin]; [congruence|].
    destruct (row_not_null hs item Hitem) as (row & ->).
    cbn [bind]. rewrite (IH Hin). reflexivity.
Qed.

(** The table assembled from an array of plain objects: the ordered union
    of the keys of its first ten elements without the denylisted keys, and
    one row per element. *)
Lemma considerCandidate_records (first : list (string * json))
      (others : list (list (string * json))) (hs : list string) :
  hs = filter (fun k => negb (includes skipKeys k))
              (unionOfKeys (map JObj (first :: others))) ->
  hs <> [] ->
  considerCandidate None (map JObj (first :: others))
  = Ok (Some (mkTable hs
                (map (fun props => map (fun h => flattenValueU (getOwn h props)) hs)
                     (first :: others)))).
Proof.
  intros Hhs Hne. unfold considerCandidate.
  cbn [map length Nat.eqb]. rewrite extractHeadersFromObjects_union. cbn [bind].
  change (JObj first :: map JObj others) with (map JObj (first :: others)).
  rewrite <- Hhs. destruct hs as [|h hs']; [congruence|].
  cbn [length Nat.eqb]. rewrite buildRows_records. reflexivity.
Qed.

(** C4.  The assembler does not build a row for every element of every
    candidate array: five records followed by [null] are reported as a
    candidate and give the headers [id], [name], but reading a property of
    the [null] element throws, and so does the whole parse. *)
Theorem parseApiResponsesToTable_null_row :
  In recordsThenNull (findAllTableArrays (JArr recordsThenNull) 0 []) /\
  extractHeadersFromObjects recordsThenNull = Ok ["id"; "name"] /\
  buildRows ["id"; "name"] recordsThenNull = Throw "TypeError" /\
  parseApiResponsesToTable [response (JArr recordsThenNull)] = Throw "TypeError".
Proof.
  repeat split. left. reflexivity.
Qed.

(** The assembler on the end-to-end payload of the specification. *)
Lemma parseApiResponsesToTable_items :
  parseApiResponsesToTable [response itemsPayload]
  = Ok (Some (mkTable ["id"; "name"] [["1"; "A"]; ["2"; "B"]])).
Proof. reflexivity. Qed.

(* ----------------------------------------------------------------- *)
(** *** The capture batch *)

Lemma storeResponse_cap (payload : Payload.t) (responses : list Payload.t) :
  storeResponse payload responses
  = if Nat.ltb 100 (length (appended payload responses))
    then firstn 100 (appended payload responses)
    else appended payload responses.
Proof.
  unfold storeResponse. fold (appended payload responses).
  rewrite (slice_head _ 100). reflexivity.
Qed.

Lemma storeResponse_length (payload : Payload.t) (responses : list Payload.t) :
  (length (storeResponse payload responses) <= 100)%nat.
Proof.
  rewrite storeResponse_cap.
  destruct (Nat.ltb_spec 100 (length (appended payload responses))); [|lia].
  rewrite length_firstn. lia.
Qed.

Lemma firstn_removelast {A} (l : list A) (x : A) :
  firstn (length l) (l ++ [x])%list = l.
Proof.
  rewrite firstn_app, Nat.sub_diag, firstn_all. cbn [firstn]. apply app_nil_r.
Qed.

Lemma Forall_prefix {A} (P : A -> Prop) (n : nat) (l : list A) :
  Forall P l -> Forall P (firstn n l).
Proof.
  intro H. revert n. induction H as [|x tl Hx _ IH]; intros [|n]; cbn [firstn];
    constructor; auto.
Qed.

Lemma cap_cons {A} (p x : A) (l : list A) :
  length (l ++ [x])%list = 100%nat -> firstn 100 (p :: l ++ [x])%list = p :: l.
Proof.
  intro H. rewrite length_app in H. cbn [length] in H.
  change 100%nat with (S 99). rewrite firstn_cons. f_equal.
  replace 99%nat with (length l) by lia. apply firstn_removelast.
Qed.

(** Storing a response keeps flagged responses ahead of unflagged ones. *)
Lemma storeResponse_tiered (payload : Payload.t) (ts ns : list Payload.t) :
  Forall flagged ts -> Forall unflagged ns ->
  exists ts1 ns1,
    storeResponse payload (ts ++ ns)%list = (ts1 ++ ns1)%list /\
    Forall flagged ts1 /\ Forall unflagged ns1.
Proof.
  intros Hts Hns. rewrite storeResponse_cap.
  assert (Happ : exists ts1 ns1,
             appended payload (ts ++ ns)%list = (ts1 ++ ns1)%list /\
             Forall flagged ts1 /\ Forall unflagged ns1).
  { unfold appended. destruct (Payload.hasTableData payload) eqn:E.
    - exists (payload :: ts), ns. repeat split; [constructor|]; assumption.
    - exists ts, (ns ++ [payload])%list. rewrite app_assoc. repeat split; [assumption|].
      apply Forall_app. split; [assumption | constructor; [exact E | constructor]]. }
  destruct Happ as (ts1 & ns1 & -> & H1 & H2).
  destruct (Nat.ltb 100 (length (ts1 ++ ns1)%list)); [|eauto].
  rewrite firstn_app. exists (firstn 100 ts1), (firstn (100 - length ts1) ns1).
  split; [reflexivity|]. split; apply Forall_prefix; assumption.
Qed.

(** C8, amended.  The batch holds at most 100 responses after every append
    and keeps flagged responses (newest first) ahead of unflagged ones
    (oldest first).  Below the cap nothing is dropped.  At the cap the last
    entry goes: an unflagged arrival is itself dropped; a flagged arrival
    displaces the last unflagged response, the most recently stored one, and
    only when there is none the last flagged response, the oldest. *)
Theorem storeResponse_eviction :
  forall (payload : Payload.t) (ts ns : list Payload.t),
    Forall flagged ts -> Forall unflagged ns ->
    let responses := (ts ++ ns)%list in
    (length (storeResponse payload responses) <= 100)%nat /\
    ((length responses < 100)%nat ->
     storeResponse payload responses = appended payload responses) /\
    (length responses = 100%nat -> unflagged payload ->
     storeResponse payload responses = responses) /\
    (length responses = 100%nat -> flagged payload ->
     forall (ns' : list Payload.t) (n : Payload.t), ns = (ns' ++ [n])%list ->
       storeResponse payload responses = ((payload :: ts) ++ ns')%list) /\
    (length responses = 100%nat -> flagged payload -> ns = [] ->
     forall (ts' : list Payload.t) (t : Payload.t), ts = (ts' ++ [t])%list ->
       storeResponse payload responses = payload :: ts') /\
    (exists ts1 ns1,
        storeResponse payload responses = (ts1 ++ ns1)%list /\
        Forall flagged ts1 /\ Forall unflagged ns1).
Proof.
  intros payload ts ns Hts Hns responses.
  split; [apply storeResponse_length|].
  split; [|split; [|split; [|split]]].
  - intro Hlen. rewrite storeResponse_cap.
    assert (length (appended payload responses) = S (length responses)) as ->.
    { unfold appended. destruct (Payload.hasTableData payload);
        [reflexivity | rewrite length_app; cbn [length]; lia]. }
    destruct (Nat.ltb_spec 100 (S (length responses))); [lia | reflexivity].
  - intros Hlen Hp. rewrite storeResponse_cap. unfold appended. rewrite Hp.
    rewrite length_app, Hlen.
    destruct (Nat.ltb_spec 100 (100 + length [payload])); [|cbn [length] in *; lia].
    rewrite <- Hlen. apply firstn_removelast.
  - intros Hlen Hp ns' n ->. rewrite storeResponse_cap. unfold appended. rewrite Hp.
    destruct (Nat.ltb_spec 100 (length (payload :: responses)));
      [|cbn [length] in *; lia].
    unfold responses in *. rewrite app_assoc in *. rewrite <- app_comm_cons.
    apply cap_cons. exact Hlen.
  - intros Hlen Hp -> ts' t ->. rewrite storeResponse_cap. unfold appended. rewrite Hp.
    destruct (Nat.ltb_spec 100 (length (payload :: responses)));
      [|cbn [length] in *; lia].
    unfold responses in *. rewrite app_nil_r in *.
    apply cap_cons. exact Hlen.
  - apply storeResponse_tiered; assumption.
Qed.

(** From the empty store, the batch stays within the cap with flagged
    responses ahead of unflagged ones. *)
Lemma runCaptures_invariant (arrivals : list Payload.t) :
  (length (runCaptures arrivals) <= 100)%nat /\
  exists ts ns, runCaptures arrivals = (ts ++ ns)%list /\
                Forall flagged ts /\ Forall unflagged ns.
Proof.
  unfold runCaptures.
  induction arrivals as [|p tl IH] using rev_ind.
  - split; [cbn; lia|]. exists [], []. repeat split; constructor.
  - rewrite fold_left_app. cbn [fold_left].
    destruct IH as (_ & ts & ns & -> & Hts & Hns).
    split; [apply storeResponse_length | apply storeResponse_tiered; assumption].
Qed.

Lemma storeResponse_eviction_witness :
  storeResponse (response JNull) (map plain (seq 1 100))
  = (response JNull :: map plain (seq 1 99))%list.
Proof.
  destruct (storeResponse_eviction (response JNull) [] (map plain (seq 1 100)))
    as (_ & _ & _ & H & _).
  - constructor.
  - apply Forall_forall. intros p Hp. apply in_map_iff in Hp.
    destruct Hp as (i & <- & _). reflexivity.
  - apply (H eq_refl eq_refl (map plain (seq 1 99)) (plain 100)). reflexivity.
Defined.

(** C8 as stated fails within the unflagged tier: after a hundred unflagged
    responses the next one is dropped on arrival, while the oldest stays. *)
Lemma storeResponse_drops_newest_unflagged :
  runCaptures (map plain (seq 1 101)) = map plain (seq 1 100) /\
  evictedBy (plain 101) (map plain (seq 1 100)) (plain 101) /\
  In (plain 1) (storeResponse (plain 101) (map plain (seq 1 100))) /\
  ~ oldestFirst (plain 101) (map plain (seq 1 100)).
Proof.
  assert (Hrun : runCaptures (map plain (seq 1 101)) = map plain (seq 1 100))
    by (vm_compute; reflexivity).
  assert (Hstore : storeResponse (plain 101) (map plain (seq 1 100))
                   = map plain (seq 1 100)) by (vm_compute; reflexivity).
  assert (Hev : evictedBy (plain 101) (map plain (seq 1 100)) (plain 101)).
  { split.
    - unfold appended. cbn [Payload.hasTableData plain]. apply in_or_app.
      right. left. reflexivity.
    - rewrite Hstore. intro Hin. apply in_map_iff in Hin.
      destruct Hin as (i & Heq & Hi). apply in_seq in Hi.
      unfold plain in Heq. injection Heq as Heq. lia. }
  assert (Hin : In (plain 1) (storeResponse (plain 101) (map plain (seq 1 100)))).
  { rewrite Hstore. left. reflexivity. }
  repeat split; try assumption.
  - apply Hev.
  - apply Hev.
  - intro H. specialize (H (plain 101) (plain 1) Hev Hin eq_refl).
    cbn in H. lia.
Qed.

(* ----------------------------------------------------------------- *)
(** *** Replacement of the stored table *)

Lemma strIncludes_nonempty (needle u : string) :
  needle <> "" -> strIncludes needle u = true -> u <> "".
Proof.
  intros Hn H ->. destruct needle; [congruence|]. discriminate H.
Qed.

(** C1, amended.  The API auto-parse replaces the stored table exactly when
    the response is flagged and the parse of the updated batch gives a table
    of at least one row and of no fewer rows than the stored one; in every
    other case (an unflagged response, a parser exception, no table, a table
    of no rows, a table of fewer rows) the stored table, its method and its
    time stay as they were.  The explicit use-API-data capture replaces it
    exactly when the batch is not empty and its parse gives a table of at
    least one row, whatever the stored row count, and otherwise leaves the
    whole store as it was.  The DOM scrape replaces it exactly when the
    active tab is a Clay page and the content script replies with a success,
    whatever the row counts (a reply of no rows included), and otherwise
    leaves the whole store as it was. *)
Theorem capture_replacement :
  forall (cd : CapturedData) (now : Z),
    (forall (payload : Payload.t) (tabUrl : option string),
        let cd' := fst (handleApiCapture payload tabUrl now cd) in
        let batch := storeResponse payload (apiResponses cd) in
        (forall p : Table,
            Payload.hasTableData payload = true ->
            parseApiResponsesToTable batch = Ok (Some p) ->
            (1 <= length (rows p))%nat ->
            (rowCount (parsedTable cd) <= length (rows p))%nat ->
            parsedTable cd' = Some p /\ method cd' = Some "api" /\
            capturedAt cd' = Some now) /\
        ((forall p : Table,
             ~ (Payload.hasTableData payload = true /\
                parseApiResponsesToTable batch = Ok (Some p) /\
                (1 <= length (rows p))%nat /\
                (rowCount (parsedTable cd) <= length (rows p))%nat)) ->
         parsedTable cd' = parsedTable cd /\ method cd' = method cd /\
         capturedAt cd' = capturedAt cd)) /\
    (forall (cd' : CapturedData) (out : result Response),
        handleUseApiData now cd = (cd', out) ->
        (forall p : Table,
            apiResponses cd <> [] ->
            parseApiResponsesToTable (apiResponses cd) = Ok (Some p) ->
            (1 <= length (rows p))%nat ->
            parsedTable cd' = Some p /\ method cd' = Some "api" /\
            capturedAt cd' = Some now /\
            out = Ok (Success (headers p) (rows p) (length (rows p)) "api")) /\
        ((forall p : Table,
             ~ (apiResponses cd <> [] /\
                parseApiResponsesToTable (apiResponses cd) = Ok (Some p) /\
                (1 <= length (rows p))%nat)) ->
         cd' = cd /\ forall hs rs n m, out <> Ok (Success hs rs n m))) /\
    (forall (tab : option (option string)) (reply : result (option ScrapeReply))
            (cd' : CapturedData) (out : result (option ScrapeReply)),
        forwardToContentScript tab reply now cd = (cd', out) ->
        (forall (u : string) (hs : list string) (rs : list (list string)) (m : string),
            tab = Some (Some u) -> strIncludes "app.clay.com" u = true ->
            reply = Ok (Some (Scraped hs rs m)) ->
            parsedTable cd' = Some (mkTable hs rs) /\ method cd' = Some m /\
            capturedAt cd' = Some now /\ out = reply) /\
        ((forall (u : string) (hs : list string) (rs : list (list string)) (m : string),
             ~ (tab = Some (Some u) /\ strIncludes "app.clay.com" u = true /\
                reply = Ok (Some (Scraped hs rs m)))) ->
         cd' = cd /\ forall hs rs m, out <> Ok (Some (Scraped hs rs m)))).
Proof.
  intros cd now. split; [|split].
  - intros payload tabUrl cd' batch. subst cd'. unfold handleApiCapture.
    cbn [apiResponses setSourceUrl setApiResponses]. fold batch.
    destruct (Payload.hasTableData payload) eqn:Hflag.
    2:{ split; [discriminate|]. intros _. repeat split. }
    destruct (parseApiResponsesToTable batch) as [parsed|e] eqn:Hparse.
    2:{ split; [discriminate|]. intros _. repeat split. }
    destruct parsed as [t|].
    2:{ split; [discriminate|]. intros _. repeat split. }
    cbn [hasRows]. destruct (Nat.ltb_spec 0 (length (rows t))) as [Hrows|Hrows].
    2:{ split; [intros p _ [= <-] H; lia|]. intros _. repeat split. }
    cbn [parsedTable setSourceUrl setApiResponses].
    destruct (parsedTable cd) as [old|] eqn:Hold; cbn [rowCount].
    + destruct (Nat.leb_spec (length (rows old)) (length (rows t))) as [Hle|Hlt].
      * split.
        -- intros p _ [= <-] _ _. cbn. repeat split.
        -- intro H. exfalso. apply (H t). repeat split; assumption.
      * split.
        -- intros p _ [= <-] _ H. lia.
        -- intros _. cbn. rewrite Hold. repeat split.
    + split.
      * intros p _ [= <-] _ _. repeat split.
      * intro H. exfalso. apply (H t). repeat split; [assumption | lia].
  - intros cd' out. unfold handleUseApiData.
    destruct (apiResponses cd) as [|r0 rest] eqn:Hresp.
    { cbn [length Nat.eqb]. intros [= <- <-]. split.
      - intros p H. congruence.
      - intros _. split; [reflexivity | discriminate]. }
    cbn [length Nat.eqb].
    destruct (parseApiResponsesToTable (r0 :: rest)) as [parsed|e] eqn:Hparse.
    2:{ intros [= <- <-]. split; [discriminate|].
        intros _. split; [reflexivity | discriminate]. }
    destruct parsed as [t|].
    2:{ intros [= <- <-]. split; [discriminate|].
        intros _. split; [reflexivity | discriminate]. }
    cbn [hasRows]. destruct (Nat.ltb_spec 0 (length (rows t))) as [Hrows|Hrows].
    + intros [= <- <-]. split.
      * intros p _ [= <-] _. repeat split.
      * intro H. exfalso. apply (H t). repeat split; [discriminate | assumption].
    + intros [= <- <-]. split.
      * intros p _ [= <-] H. lia.
      * intros _. split; [reflexivity | discriminate].
  - intros tab reply cd' out. unfold forwardToContentScript.
    destruct tab as [tabUrl|].
    2:{ intros [= <- <-]. split; [discriminate|].
        intros _. split; [reflexivity | discriminate]. }
    destruct tabUrl as [u|].
    2:{ cbn [truthyString]. intros [= <- <-]. split; [discriminate|].
        intros _. split; [reflexivity | discriminate]. }
    cbn [truthyString]. destruct (String.eqb_spec u "") as [->|Hu].
    { intros [= <- <-]. split.
      - intros u hs rs m [= <-] H. discriminate H.
      - intros _. split; [reflexivity | discriminate]. }
    destruct (strIncludes "app.clay.com" u) eqn:Hinc; cbn [negb].
    2:{ intros [= <- <-]. split.
        - intros u' hs rs m [= <-] H. congruence.
        - intros _. split; [reflexivity | discriminate]. }
    destruct reply as [[[hs rs m|err]|]|e]; intros [= <- <-].
    + split.
      * intros u' hs' rs' m' _ _ [= <- <- <-]. repeat split.
      * intro H. exfalso. apply (H u hs rs m). repeat split. exact Hinc.
    + split; [discriminate|]. intros _. split; [reflexivity | discriminate].
    + split; [discriminate|]. intros _. split; [reflexivity | discriminate].
    + split; [discriminate|]. intros _. split; [reflexivity | discriminate].
Qed.

Lemma capture_replacement_witness :
  parsedTable (fst (handleApiCapture (response itemsPayload) None 5 storeAfterScroll))
  = Some scrollTable /\
  parsedTable (fst (handleApiCapture (response itemsPayload) None 5 emptyData))
  = Some (mkTable ["id"; "name"] [["1"; "A"]; ["2"; "B"]]) /\
  parsedTable (fst (handleUseApiData 5 storeAfterScroll))
  = Some (mkTable ["id"; "name"] [["1"; "A"]; ["2"; "B"]]).
Proof.
  split; [|split].
  - destruct (capture_replacement storeAfterScroll 5) as (H & _ & _).
    destruct (H (response itemsPayload) None) as (_ & Hkeep).
    apply Hkeep. intros p (_ & Hp & _ & Hcount).
    vm_compute in Hp. injection Hp as <-. cbn in Hcount. lia.
  - destruct (capture_replacement emptyData 5) as (H & _ & _).
    destruct (H (response itemsPayload) None) as (Hreplace & _).
    apply Hreplace; [reflexivity | reflexivity | cbn; lia | cbn; lia].
  - destruct (capture_replacement storeAfterScroll 5) as (_ & H & _).
    destruct (H (fst (handleUseApiData 5 storeAfterScroll))
                (snd (handleUseApiData 5 storeAfterScroll)) eq_refl) as (Hreplace & _).
    apply Hreplace; [discriminate | reflexivity | cbn; lia].
Defined.

(** C1 as stated fails: with a three-row table stored, the explicit
    use-API-data capture replaces it by a two-row table, and a DOM scrape by
    a one-row table. *)
Lemma explicit_capture_shrinks_table :
  rowCount (parsedTable storeAfterScroll) = 3%nat /\
  rowCount (parsedTable (fst (handleUseApiData 5 storeAfterScroll))) = 2%nat /\
  ~ monotone storeAfterScroll (fst (handleUseApiData 5 storeAfterScroll)) /\
  ~ monotone storeAfterScroll
      (fst (forwardToContentScript (Some (Some "https://app.clay.com/workspaces/1"))
                                   (Ok (Some (Scraped ["Name"] [["Ada"]] "dom_visible")))
                                   5 storeAfterScroll)).
Proof.
  split; [reflexivity|]. split; [reflexivity|].
  split; intros [H|H]; vm_compute in H; [discriminate H | lia | discriminate H | lia].
Qed.

(* ----------------------------------------------------------------- *)
(** *** CSV round trip *)

Lemma append_nil_r (s : string) : s ++ "" = s.
Proof. induction s as [|c s IH]; simpl; [reflexivity | rewrite IH; reflexivity]. Qed.

Lemma append_assoc (a b c : string) : (a ++ b) ++ c = a ++ (b ++ c).
Proof. induction a as [|x a IH]; simpl; [reflexivity | rewrite IH; reflexivity]. Qed.

Lemma join_cons (sep x y : string) (l : list string) :
  join sep (x :: y :: l) = x ++ sep ++ join sep (y :: l).
Proof. reflexivity. Qed.


Lemma csvLine_cons (f : string) (fs : list string) :
  csvLine (f :: fs) = quoteField f ++ tailOf fs.
Proof.
  unfold csvLine. revert f. induction fs as [|g gs IH]; intro f.
  - cbn [map join String.concat tailOf]. rewrite append_nil_r. reflexivity.
  - specialize (IH g). cbn [map] in IH |- *.
    rewrite join_cons, IH. reflexivity.
Qed.

(** Reading the inside of a quoted field up to its closing quote. *)
Lemma readCSV_inside (f : string) :
  forall (acc : string) (row : list string) (done : list (list string)) (rest : string),
    readCSV InField acc row done (doubled f ++ String quoteByte rest)
    = readCSV QuoteSeen (acc ++ f) row done rest.
Proof.
  induction f as [|c f IH]; intros acc row done rest.
  - cbn [doubled append readCSV]. rewrite Ascii.eqb_refl, append_nil_r. reflexivity.
  - cbn [doubled]. destruct (Ascii.eqb c quoteByte) eqn:E.
    + apply Ascii.eqb_eq in E. subst c.
      cbn [append readCSV]. rewrite !Ascii.eqb_refl.
      rewrite IH, append_assoc. reflexivity.
    + cbn [append readCSV]. rewrite E, IH, append_assoc. reflexivity.
Qed.

Lemma readCSV_first_field (f : string) (done : list (list string)) (rest : string) :
  readCSV LineStart "" [] done (quoteField f ++ rest) = readCSV QuoteSeen f [] done rest.
Proof.
  unfold quoteField. cbn [append readCSV]. rewrite Ascii.eqb_refl.
  rewrite append_assoc. cbn [append]. apply readCSV_inside.
Qed.

Lemma readCSV_next_field (f : string) (row : list string) (done : list (list string))
      (rest : string) :
  readCSV FieldStart "" row done (quoteField f ++ rest) = readCSV QuoteSeen f row done rest.
Proof.
  unfold quoteField. cbn [append readCSV]. rewrite Ascii.eqb_refl.
  rewrite append_assoc. cbn [append]. apply readCSV_inside.
Qed.

Lemma readCSV_comma (f : string) (row : list string) (done : list (list string))
      (rest : string) :
  readCSV QuoteSeen f row done ("," ++ rest)
  = readCSV FieldStart "" (row ++ [f])%list done rest.
Proof. reflexivity. Qed.

Lemma readCSV_line_break (f : string) (row : list string) (done : list (list string))
      (more : string) :
  readCSV QuoteSeen f row done (lineBreak ++ more)
  = readCSV LineStart "" [] (done ++ [row ++ [f]])%list more.
Proof. reflexivity. Qed.

(** Reading the rest of a line, at the end of the text and before a line
    break. *)
Lemma readCSV_tail (fs : list string) :
  forall (f : string) (row : list string) (done : list (list string)),
    readCSV QuoteSeen f row done (tailOf fs) = Some (done ++ [row ++ f :: fs])%list /\
    forall more : string,
      readCSV QuoteSeen f row done (tailOf fs ++ lineBreak ++ more)
      = readCSV LineStart "" [] (done ++ [row ++ f :: fs])%list more.
Proof.
  induction fs as [|g gs IH]; intros f row done.
  - split; [reflexivity|]. intro more. apply readCSV_line_break.
  - destruct (IH g (row ++ [f])%list done) as [IHend IHmore].
    rewrite <- app_assoc in IHend, IHmore. cbn [app] in IHend, IHmore.
    cbn [tailOf]. split.
    + rewrite readCSV_comma, readCSV_next_field. exact IHend.
    + intro more. rewrite !append_assoc.
      rewrite readCSV_comma, readCSV_next_field. apply IHmore.
Qed.

(** Reading one line. *)
Lemma readCSV_line (fields : list string) (done : list (list string)) :
  readCSV LineStart "" [] done (csvLine fields) = Some (done ++ [fields])%list /\
  forall more : string,
    readCSV LineStart "" [] done (csvLine fields ++ lineBreak ++ more)
    = readCSV LineStart "" [] (done ++ [fields])%list more.
Proof.
  destruct fields as [|f fs].
  - split; [reflexivity | intro more; reflexivity].
  - rewrite csvLine_cons. destruct (readCSV_tail fs f [] done) as [Hend Hmore].
    split.
    + rewrite <- (append_nil_r (quoteField f ++ tailOf fs)), append_assoc.
      rewrite readCSV_first_field, append_nil_r. exact Hend.
    + intro more. rewrite append_assoc, readCSV_first_field. apply Hmore.
Qed.

(** Reading the lines of a text. *)
Lemma readCSV_lines (ls : list (list string)) :
  forall (l : list string) (done : list (list string)),
    readCSV LineStart "" [] done (join lineBreak (map csvLine (l :: ls)))
    = Some (done ++ l :: ls)%list.
Proof.
  induction ls as [|l' ls IH]; intros l done.
  - cbn [map join String.concat]. apply readCSV_line.
  - specialize (IH l' (done ++ [l])%list). cbn [map] in IH |- *.
    rewrite join_cons.
    rewrite (proj2 (readCSV_line l done)), IH, <- app_assoc. reflexivity.
Qed.

Lemma stripPrefix_app (mark text : string) : stripPrefix mark (mark ++ text) = Some text.
Proof.
  induction mark as [|c mark IH]; cbn [append stripPrefix]; [destruct text; reflexivity|].
  rewrite Ascii.eqb_refl. exact IH.
Qed.

Lemma doubleQuotes_doubled (str : string) : doubleQuotes str = doubled str.
Proof.
  induction str as [|c tl IH]; [reflexivity|].
  cbn [doubleQuotes doubled]. rewrite IH. reflexivity.
Qed.

Lemma escape_quoteField (f : string) : escape (Some f) = quoteField f.
Proof.
  unfold escape, quoteField. cbn [orElse]. rewrite doubleQuotes_doubled. reflexivity.
Qed.

(** A row as wide as the header row is written as it is. *)
Lemma csvRow_rectangular (hs row : list string) :
  length row = length hs -> csvRow hs row = csvLine row.
Proof.
  intro H. unfold csvRow, csvLine. rewrite <- H. f_equal. clear H.
  change (fun i => escape (nth_error row i))
    with (fun i => (fun o => escape o) (nth_error row i)).
  rewrite <- (map_map (nth_error row) escape).
  replace (map (nth_error row) (seq 0 (length row))) with (map Some row).
  - rewrite map_map. apply map_ext. intro f. apply escape_quoteField.
  - induction row as [|x tl IH]; [reflexivity|].
    cbn [map length seq nth_error]. f_equal.
    rewrite <- seq_shift, map_map. exact IH.
Qed.

Lemma generateCSV_lines (meta : option TableMeta) (hs : list string)
      (rs : list (list string)) :
  buildSearchMetadata meta = None -> rectangular hs rs ->
  generateCSV meta hs rs = utf8Mark ++ join lineBreak (map csvLine (hs :: rs)).
Proof.
  intros Hmeta Hrect. unfold generateCSV. rewrite Hmeta.
  change utf8Mark with BOM. change lineBreak with CRLF.
  cbn [app map].
  assert (E1 : join "," (map (fun h => escape (Some h)) hs) = csvLine hs).
  { unfold csvLine. rewrite (map_ext _ _ escape_quoteField). reflexivity. }
  assert (E2 : map (csvRow hs) rs = map csvLine rs).
  { apply map_ext_in. intros row Hin. apply csvRow_rectangular.
    unfold rectangular in Hrect. rewrite Forall_forall in Hrect. apply Hrect. exact Hin. }
  rewrite E1, E2. reflexivity.
Qed.

(** C7.  With no metadata block, the CSV text of a table whose rows are as
    wide as its header row is the three bytes EF BB BF (239, 187, 191) of the
    UTF-8 byte-order mark followed by the lines of the header row and the
    rows joined by carriage return and line feed (13, 10), each line its
    fields joined by commas, each field between two double quotes (34) with
    every double quote inside written twice; and reading that text back
    (mark stripped, lines split at CRLF, fields at commas, fields unquoted)
    gives the headers and rows again, whatever characters the fields hold. *)
Theorem generateCSV_round_trip :
  forall (meta : option TableMeta) (hs : list string) (rs : list (list string)),
    buildSearchMetadata meta = None ->
    rectangular hs rs ->
    generateCSV meta hs rs
    = String (ascii_of_nat 239) (String (ascii_of_nat 187) (String (ascii_of_nat 191)
        (join (String (ascii_of_nat 13) (String (ascii_of_nat 10) ""))
              (map (fun fields =>
                      join "," (map (fun f => String (ascii_of_nat 34)
                                                (doubled f ++ String (ascii_of_nat 34) ""))
                                    fields))
                   (hs :: rs))))) /\
    parseTable (generateCSV meta hs rs) = Some (mkTable hs rs).
Proof.
  intros meta hs rs Hmeta Hrect.
  pose proof (generateCSV_lines meta hs rs Hmeta Hrect) as Hgen.
  split; [exact Hgen|].
  unfold parseTable, parseCSV. rewrite Hgen, stripPrefix_app, readCSV_lines.
  reflexivity.
Qed.

Lemma generateCSV_round_trip_witness :
  exists body : string,
    generateCSV None ["name"; "note"]
                [["Ada"; "first, of many"];
                 [String dquote "quoted"; "two" ++ CRLF ++ "lines"]]
    = String (ascii_of_nat 239) (String (ascii_of_nat 187) (String (ascii_of_nat 191) body)) /\
    parseTable (generateCSV None ["name"; "note"]
                            [["Ada"; "first, of many"];
                             [String dquote "quoted"; "two" ++ CRLF ++ "lines"]])
    = Some (mkTable ["name"; "note"]
                    [["Ada"; "first, of many"];
                     [String dquote "quoted"; "two" ++ CRLF ++ "lines"]]).
Proof.
  destruct (generateCSV_round_trip None ["name"; "note"]
              [["Ada"; "first, of many"];
               [String dquote "quoted"; "two" ++ CRLF ++ "lines"]])
    as [Hgen Hparse].
  - reflexivity.
  - repeat constructor.
  - eexists. split; [exact Hgen | exact Hparse].
Defined.

(* ----------------------------------------------------------------- *)
(** *** From the accumulator to the table *)

Lemma insertByIndex_perm (x : RowData) (l : list RowData) :
  Permutation (insertByIndex x l) (x :: l).
Proof.
  induction l as [|r tl IH]; cbn [insertByIndex]; [reflexivity|].
  destruct (index x <=? index r)%Z; [reflexivity|].
  rewrite IH. apply perm_swap.
Qed.

Lemma sortByIndex_perm (l : list RowData) : Permutation (sortByIndex l) l.
Proof.
  induction l as [|x tl IH]; cbn [sortByIndex fold_right]; [reflexivity|].
  rewrite insertByIndex_perm. constructor. exact IH.
Qed.

Lemma insertByIndex_sorted (x : RowData) (l : list RowData) :
  StronglySorted byIndex l -> StronglySorted byIndex (insertByIndex x l).
Proof.
  induction 1 as [|r tl Hs IH Hall]; cbn [insertByIndex].
  - constructor; constructor.
  - destruct (Z.leb_spec (index x) (index r)) as [Hle|Hgt].
    + constructor; [constructor; assumption|].
      constructor; [exact Hle|].
      apply Forall_impl with (2 := Hall). unfold byIndex. intros a Ha. lia.
    + constructor; [exact IH|].
      apply (Permutation_Forall (x := x :: tl)).
      * symmetry. apply insertByIndex_perm.
      * constructor; [unfold byIndex; lia | exact Hall].
Qed.

Lemma sortByIndex_sorted (l : list RowData) : StronglySorted byIndex (sortByIndex l).
Proof.
  induction l as [|x tl IH]; cbn [sortByIndex fold_right]; [constructor|].
  apply insertByIndex_sorted. exact IH.
Qed.

Lemma insertByIndex_stable (i : Z) (x : RowData) (l : list RowData) :
  withIndex i (insertByIndex x l) = withIndex i (x :: l).
Proof.
  unfold withIndex.
  induction l as [|r tl IH]; cbn [insertByIndex]; [reflexivity|].
  destruct (Z.leb_spec (index x) (index r)) as [Hle|Hgt]; [reflexivity|].
  cbn [filter] in IH |- *. rewrite IH.
  destruct (Z.eqb_spec (index r) i); destruct (Z.eqb_spec (index x) i);
    try reflexivity. lia.
Qed.

Lemma sortByIndex_stable (i : Z) (l : list RowData) :
  withIndex i (sortByIndex l) = withIndex i l.
Proof.
  induction l as [|x tl IH]; cbn [sortByIndex fold_right]; [reflexivity|].
  rewrite insertByIndex_stable. unfold withIndex in *. cbn [filter].
  fold (sortByIndex tl). rewrite IH. reflexivity.
Qed.

Lemma projectRow_length (fieldIds : list string) (row : RowData) :
  length (projectRow fieldIds row) = length fieldIds.
Proof. unfold projectRow. apply length_map. Qed.

Lemma projectRow_cellText (fieldIds : list string) (row : RowData) :
  projectRow fieldIds row = map (cellText row) fieldIds.
Proof.
  unfold projectRow, cellText. apply map_ext. intro fid.
  destruct (mapGet fid (cells row)) as [val|]; [|reflexivity].
  destruct (String.eqb_spec val ""); congruence.
Qed.

(** X1.  The rows of the table are the accumulated rows, each exactly
    once, in ascending order of their index, rows of equal index in the
    order in which the accumulator holds them; the row of the table made
    from an accumulated row has, for each field id in turn, the value the
    row stores for it, and the empty string where it stores none. *)
Theorem convertRowsMapToArray_sorted :
  forall (rowsMap : Map RowData) (fieldIds : list string),
  exists sorted : list RowData,
    convertRowsMapToArray rowsMap fieldIds
    = map (fun r => map (fun fid => match mapGet fid (cells r) with
                                    | Some v => v
                                    | None => ""
                                    end) fieldIds) sorted /\
    Permutation sorted (map snd rowsMap) /\
    StronglySorted byIndex sorted /\
    forall i : Z, withIndex i sorted = withIndex i (map snd rowsMap).
Proof.
  intros rowsMap fieldIds. exists (sortByIndex (map snd rowsMap)).
  split; [|split; [apply sortByIndex_perm|]].
  - unfold convertRowsMapToArray. apply map_ext. intro r.
    apply projectRow_cellText.
  - split; [apply sortByIndex_sorted | intro i; apply sortByIndex_stable].
Qed.

Lemma convertRowsMapToArray_rectangular (rowsMap : Map RowData) (fieldIds : list string) :
  length (convertRowsMapToArray rowsMap fieldIds) = length rowsMap /\
  rectangular fieldIds (convertRowsMapToArray rowsMap fieldIds).
Proof.
  unfold convertRowsMapToArray. split.
  - rewrite length_map, (Permutation_length (sortByIndex_perm _)). apply length_map.
  - unfold rectangular. apply Forall_map. apply Forall_forall.
    intros r _. apply projectRow_length.
Qed.

(** X2.  With as many labels as field ids, the table made from an
    accumulator has one row per accumulated row, every row as wide as the
    header row, and its CSV text without metadata reads back as the same
    headers and rows. *)
Theorem scraped_table_round_trip :
  forall (rowsMap : Map RowData) (labels fieldIds : list string),
    length labels = length fieldIds ->
    let rows := convertRowsMapToArray rowsMap fieldIds in
    length rows = length rowsMap /\
    Forall (fun row => length row = length labels) rows /\
    parseTable (generateCSV None labels rows) = Some (mkTable labels rows).
Proof.
  intros rowsMap labels fieldIds Hlen rows.
  destruct (convertRowsMapToArray_rectangular rowsMap fieldIds) as [Hn Hrect].
  assert (Hrect' : rectangular labels rows).
  { unfold rectangular in *. rewrite Hlen. exact Hrect. }
  split; [exact Hn|]. split; [exact Hrect'|].
  unfold parseTable, parseCSV.
  rewrite (generateCSV_lines None labels rows eq_refl Hrect').
  rewrite stripPrefix_app, readCSV_lines. reflexivity.
Qed.

Lemma scraped_table_round_trip_witness :
  parseTable (generateCSV None ["Name"; "Title"]
     (convertRowsMapToArray
        [("r_b", mkRowData 1 [("f_1", "Grace")]);
         ("r_a", mkRowData 0 [("f_2", "CTO, acting"); ("f_1", "Ada")])]
        ["f_1"; "f_2"]))
  = Some (mkTable ["Name"; "Title"] [["Ada"; "CTO, acting"]; ["Grace"; ""]]).
Proof.
  apply (scraped_table_round_trip
           [("r_b", mkRowData 1 [("f_1", "Grace")]);
            ("r_a", mkRowData 0 [("f_2", "CTO, acting"); ("f_1", "Ada")])]
           ["Name"; "Title"] ["f_1"; "f_2"]).
  reflexivity.
Defined.

Lemma fillCells_fills (incoming : list (string * string)) :
  forall (cs : Map string) (fid v : string),
    mapGet fid incoming = Some v -> v <> "" ->
    exists v', mapGet fid (fold_left fillCell incoming cs) = Some v' /\ v' <> "".
Proof.
  induction incoming as [|[f val] tl IH]; intros cs fid v Hget Hv; [discriminate|].
  cbn [fold_left]. unfold mapGet in Hget. rewrite getOwn_cons in Hget.
  destruct (String.eqb_spec fid f) as [->|Hne].
  - injection Hget as ->.
    assert (Hnow : exists v', mapGet f (fillCell cs (f, v)) = Some v' /\ v' <> "").
    { rewrite fillCell_get, String.eqb_refl. unfold mergedCell, isGap.
      destruct (mapGet f cs) as [old|].
      - destruct (String.eqb_spec old "") as [->|Hold]; cbn [andb].
        + destruct (String.eqb_spec v ""); [contradiction|]. cbn [negb]. eauto.
        + eauto.
      - destruct (String.eqb_spec v ""); [contradiction|]. cbn [negb andb]. eauto. }
    destruct Hnow as (v' & Hv' & Hne'). exists v'.
    split; [apply fillCells_keep; assumption | assumption].
  - apply (IH _ fid v); assumption.
Qed.

Lemma filled_mergeRow (target : Map RowData) (entry : string * RowData)
      (k fid : string) :
  filled target k fid -> filled (mergeRow target entry) k fid.
Proof.
  intros (ex & v & Hget & Hcell & Hv).
  destruct (mergeRow_keeps target k ex entry Hget) as (ex' & Hget' & _ & Hkeep).
  exists ex', v. split; [exact Hget'|]. split; [apply Hkeep; assumption | exact Hv].
Qed.

Lemma filled_mergeRows (source target : Map RowData) (k fid : string) :
  filled target k fid -> filled (mergeRows target source) k fid.
Proof.
  unfold mergeRows. revert target.
  induction source as [|entry tl IH]; intros target H; cbn [fold_left]; [exact H|].
  apply IH. apply filled_mergeRow. exact H.
Qed.

Lemma mergeRow_fills (target : Map RowData) (k fid v : string) (rd : RowData) :
  mapGet fid (cells rd) = Some v -> v <> "" ->
  filled (mergeRow target (k, rd)) k fid.
Proof.
  intros Hcell Hv. destruct (mapGet k target) as [ex|] eqn:Hget.
  - rewrite (mergeRow_existing _ _ _ _ Hget).
    destruct (fillCells_fills (cells rd) (cells ex) fid v Hcell Hv) as (v' & Hv' & Hne).
    eexists. exists v'. split; [apply mapGet_mapSet_same|]. split; assumption.
  - rewrite mergeRow_new by (rewrite mapHas_mapGet, Hget; reflexivity).
    exists rd, v. split; [apply mapGet_mapSet_same|]. split; assumption.
Qed.

Lemma mergeRows_fills (source : Map RowData) :
  forall (target : Map RowData) (k fid v : string) (rd : RowData),
    In (k, rd) source -> mapGet fid (cells rd) = Some v -> v <> "" ->
    filled (mergeRows target source) k fid.
Proof.
  induction source as [|entry tl IH]; intros target k fid v rd Hin Hcell Hv;
    [destruct Hin|].
  change (mergeRows target (entry :: tl)) with (mergeRows (mergeRow target entry) tl).
  destruct Hin as [->|Hin].
  - apply filled_mergeRows. apply (mergeRow_fills target k fid v rd); assumption.
  - apply (IH _ k fid v rd); assumption.
Qed.

Lemma filled_mergePasses (passes : list (Map RowData)) :
  forall (target : Map RowData) (k fid : string),
    filled target k fid -> filled (mergePasses target passes) k fid.
Proof.
  unfold mergePasses.
  induction passes as [|p tl IH]; intros target k fid H; cbn [fold_left]; [exact H|].
  apply IH. apply filled_mergeRows. exact H.
Qed.

Lemma mapGet_In {V} (k : string) (v : V) (m : Map V) :
  mapGet k m = Some v -> In v (map snd m).
Proof.
  intro H. apply getOwn_In in H. apply (in_map snd _ _ H).
Qed.

(** X3.  No observed value is lost: when some pass holds an observation of
    row [k] with a non-empty value for field [fid], the accumulator after all
    passes holds a non-empty value for that field of that row, and the final
    table has a row with a non-empty cell in the column of [fid]. *)
Theorem mergePasses_keeps_observed_cells :
  forall (passes : list (Map RowData)) (target pass : Map RowData)
         (k fid v : string) (rd : RowData),
    In pass passes -> In (k, rd) pass ->
    mapGet fid (cells rd) = Some v -> v <> "" ->
    filled (mergePasses target passes) k fid /\
    forall (fieldIds : list string) (i : nat),
      nth_error fieldIds i = Some fid ->
      exists (row : list string) (v' : string),
        In row (convertRowsMapToArray (mergePasses target passes) fieldIds) /\
        nth_error row i = Some v' /\ v' <> "".
Proof.
  intros passes target pass k fid v rd Hpass Hin Hcell Hv.
  assert (Hfilled : filled (mergePasses target passes) k fid).
  { revert target. induction passes as [|p tl IH]; intro target; [destruct Hpass|].
    change (mergePasses target (p :: tl)) with (mergePasses (mergeRows target p) tl).
    destruct Hpass as [->|Hpass].
    - apply filled_mergePasses. apply (mergeRows_fills pass target k fid v rd); assumption.
    - apply IH. exact Hpass. }
  split; [exact Hfilled|].
  intros fieldIds i Hi. destruct Hfilled as (ex & v' & Hget & Hc & Hne).
  exists (projectRow fieldIds ex), v'. split; [|split; [|exact Hne]].
  - unfold convertRowsMapToArray. apply in_map.
    apply (Permutation_in _ (Permutation_sym (sortByIndex_perm _))).
    apply (mapGet_In k). exact Hget.
  - unfold projectRow. rewrite nth_error_map, Hi. cbn [option_map]. rewrite Hc.
    destruct (String.eqb_spec v' ""); [contradiction | reflexivity].
Qed.

Lemma mergePasses_keeps_observed_cells_witness :
  filled (mergePasses []
            [[("r1", mkRowData 0 [("f1", "Ada"); ("f2", "")])];
             [("r1", mkRowData 0 [("f2", "CTO"); ("f3", "")])]])
         "r1" "f2".
Proof.
  apply (mergePasses_keeps_observed_cells
           [[("r1", mkRowData 0 [("f1", "Ada"); ("f2", "")])];
            [("r1", mkRowData 0 [("f2", "CTO"); ("f3", "")])]]
           [] [("r1", mkRowData 0 [("f2", "CTO"); ("f3", "")])]
           "r1" "f2" "CTO" (mkRowData 0 [("f2", "CTO"); ("f3", "")])).
  - right. left. reflexivity.
  - left. reflexivity.
  - reflexivity.
  - discriminate.
Defined.

Lemma mapHas_mapSet {V} (k k' : string) (v : V) (m : Map V) :
  mapHas k' (mapSet k v m) = String.eqb k k' || mapHas k' m.
Proof.
  rewrite !mapHas_mapGet. destruct (String.eqb_spec k k') as [->|Hne].
  - rewrite mapGet_mapSet_same. reflexivity.
  - rewrite mapGet_mapSet_other by assumption. reflexivity.
Qed.

Lemma mapSet_keys {V} (k : string) (v : V) (m : Map V) :
  map fst (mapSet k v m)
  = if mapHas k m then map fst m else (map fst m ++ [k])%list.
Proof.
  induction m as [|[k0 v0] tl IH]; [reflexivity|].
  cbn [mapSet]. rewrite mapHas_mapGet. unfold mapGet. rewrite getOwn_cons.
  destruct (String.eqb_spec k k0) as [->|Hne]; [reflexivity|].
  cbn [map fst]. rewrite IH, mapHas_mapGet. unfold mapGet.
  destruct (getOwn k tl); reflexivity.
Qed.

Lemma mergeRow_keys (target : Map RowData) (k : string) (rd : RowData) :
  map fst (mergeRow target (k, rd))
  = if mapHas k target then map fst target else (map fst target ++ [k])%list.
Proof.
  destruct (mapGet k target) as [ex|] eqn:Hget.
  - rewrite (mergeRow_existing _ _ _ _ Hget), mapSet_keys. reflexivity.
  - assert (Hnew : mapHas k target = false) by (rewrite mapHas_mapGet, Hget; reflexivity).
    rewrite (mergeRow_new _ _ _ Hnew), mapSet_keys. reflexivity.
Qed.

Lemma mapHas_In {V} (k : string) (m : Map V) : mapHas k m = true <-> In k (map fst m).
Proof.
  rewrite mapHas_mapGet. destruct (mapGet k m) eqn:E.
  - split; [intros _|reflexivity].
    apply getOwn_In in E. apply (in_map fst _ _ E).
  - apply mapGet_None_notin in E. split; [discriminate | contradiction].
Qed.

Lemma mergeRow_NoDup (target : Map RowData) (entry : string * RowData) :
  NoDup (map fst target) -> NoDup (map fst (mergeRow target entry)).
Proof.
  intro H. destruct entry as [k rd]. rewrite mergeRow_keys.
  destruct (mapHas k target) eqn:E; [exact H|].
  apply NoDup_app; [exact H | repeat constructor; intros [] |].
  intros x Hx [<-|[]]. apply mapHas_In in Hx. congruence.
Qed.

(** X4.  Merging a pass never drops a row: the keys after the merge are
    those of the accumulator, in their order, followed by keys of the pass;
    a key is present afterwards exactly when it was in the accumulator or in
    the pass; and no key is stored twice. *)
Theorem mergeRows_row_set :
  forall (target source : Map RowData),
    (forall k : string,
        In k (map fst (mergeRows target source))
        <-> In k (map fst target) \/ In k (map fst source)) /\
    (exists added : list string,
        map fst (mergeRows target source) = (map fst target ++ added)%list) /\
    (NoDup (map fst target) -> NoDup (map fst (mergeRows target source))).
Proof.
  intros target source. unfold mergeRows. revert target.
  induction source as [|[k rd] tl IH]; intro target; cbn [fold_left].
  - split; [|split].
    + intro k. cbn. tauto.
    + exists []. rewrite app_nil_r. reflexivity.
    + auto.
  - destruct (IH (mergeRow target (k, rd))) as (Hin & (added & Hadd) & Hnd).
    split; [|split].
    + intro k'. rewrite Hin, mergeRow_keys. cbn [map fst In].
      destruct (mapHas k target) eqn:E.
      * apply mapHas_In in E. intuition (subst; auto).
      * rewrite in_app_iff. cbn [In]. intuition (subst; auto).
    + rewrite Hadd, mergeRow_keys. destruct (mapHas k target).
      * exists added. reflexivity.
      * exists (k :: added). rewrite <- app_assoc. reflexivity.
    + intro H. apply Hnd. apply mergeRow_NoDup. exact H.
Qed.

Lemma mapSet_same {V} (k : string) (v : V) (m : Map V) :
  mapGet k m = Some v -> mapSet k v m = m.
Proof.
  unfold mapGet. induction m as [|[k0 v0] tl IH]; [discriminate|].
  rewrite getOwn_cons. cbn [mapSet].
  destruct (String.eqb_spec k k0) as [->|Hne].
  - intros [= ->]. reflexivity.
  - intro H. rewrite (IH H). reflexivity.
Qed.

Lemma fillCells_nothing (incoming : list (string * string)) (cs : Map string) :
  (forall fid val, In (fid, val) incoming -> val <> "" ->
                   exists old, mapGet fid cs = Some old /\ old <> "") ->
  fold_left fillCell incoming cs = cs.
Proof.
  induction incoming as [|[f val] tl IH]; intro H; cbn [fold_left]; [reflexivity|].
  assert (Hstep : fillCell cs (f, val) = cs).
  { unfold fillCell. cbn [fst snd]. destruct (String.eqb_spec val "") as [->|Hval];
      [reflexivity|].
    destruct (H f val (or_introl eq_refl) Hval) as (old & Hold & Hne).
    rewrite mapHas_mapGet, Hold.
    destruct (String.eqb_spec old ""); [contradiction | reflexivity]. }
  rewrite Hstep. apply IH. intros fid v Hin. apply H. right. exact Hin.
Qed.

Lemma In_mapGet_NoDup {V} (k : string) (v : V) (m : Map V) :
  NoDup (map fst m) -> In (k, v) m -> mapGet k m = Some v.
Proof.
  unfold mapGet. induction m as [|[k0 v0] tl IH]; intros Hnd Hin; [destruct Hin|].
  cbn [map fst] in Hnd. inversion Hnd as [|? ? Hnotin Hnd']; subst.
  rewrite getOwn_cons. destruct (String.eqb_spec k k0) as [->|Hne].
  - destruct Hin as [[= ->]|Hin]; [reflexivity|].
    exfalso. apply Hnotin. apply (in_map fst _ _ Hin).
  - destruct Hin as [[= -> ->]|Hin]; [congruence | apply IH; assumption].
Qed.

(** A row already filled from an observation is left alone by the same
    observation. *)
Lemma mergeRow_again (m : Map RowData) (k : string) (rd : RowData) :
  NoDup (map fst (cells rd)) ->
  (forall fid val, In (fid, val) (cells rd) -> val <> "" -> filled m k fid) ->
  mapHas k m = true ->
  mergeRow m (k, rd) = m.
Proof.
  intros Hnd Hfilled Hhas. rewrite mapHas_mapGet in Hhas.
  destruct (mapGet k m) as [ex|] eqn:Hget; [|discriminate].
  rewrite (mergeRow_existing _ _ _ _ Hget).
  rewrite fillCells_nothing.
  - destruct ex as [i cs]. apply mapSet_same. exact Hget.
  - intros fid val Hin Hval.
    destruct (Hfilled fid val Hin Hval) as (ex' & v & Hget' & Hc & Hv).
    rewrite Hget in Hget'. injection Hget' as <-. eauto.
Qed.

Lemma mergeRows_has (source : Map RowData) :
  forall (target : Map RowData) (k : string) (rd : RowData),
    In (k, rd) source -> mapHas k (mergeRows target source) = true.
Proof.
  induction source as [|entry tl IH]; intros target k rd Hin; [destruct Hin|].
  change (mergeRows target (entry :: tl)) with (mergeRows (mergeRow target entry) tl).
  destruct Hin as [->|Hin]; [|apply (IH _ k rd Hin)].
  assert (Hnow : exists ex, mapGet k (mergeRow target (k, rd)) = Some ex).
  { destruct (mapGet k target) as [ex|] eqn:Hget.
    - rewrite (mergeRow_existing _ _ _ _ Hget), mapGet_mapSet_same. eauto.
    - rewrite mergeRow_new by (rewrite mapHas_mapGet, Hget; reflexivity).
      rewrite mapGet_mapSet_same. eauto. }
  destruct Hnow as (ex & Hex).
  destruct (mergeRows_keeps tl _ k ex Hex) as (ex' & Hex' & _).
  rewrite mapHas_mapGet, Hex'. reflexivity.
Qed.

(** X5.  Merging the same pass a second time changes nothing: the sweep
    may extract an unchanged viewport again and again. *)
Theorem mergeRows_idempotent :
  forall (target source : Map RowData),
    Forall (fun entry => NoDup (map fst (cells (snd entry)))) source ->
    mergeRows (mergeRows target source) source = mergeRows target source.
Proof.
  intros target source Hwf.
  set (m := mergeRows target source).
  assert (Hall : forall k rd, In (k, rd) source -> mergeRow m (k, rd) = m).
  { intros k rd Hin. rewrite Forall_forall in Hwf.
    apply mergeRow_again.
    - apply (Hwf (k, rd) Hin).
    - intros fid val Hcell Hval.
      apply (mergeRows_fills source target k fid val rd Hin); [|exact Hval].
      apply In_mapGet_NoDup; [apply (Hwf (k, rd) Hin) | exact Hcell].
    - apply (mergeRows_has source target k rd Hin). }
  clearbody m. unfold mergeRows.
  induction source as [|[k rd] tl IH]; cbn [fold_left]; [reflexivity|].
  rewrite (Hall k rd (or_introl eq_refl)). apply IH.
  - inversion Hwf; assumption.
  - intros k' rd' Hin. apply Hall. right. exact Hin.
Qed.

Lemma mergeRows_idempotent_witness :
  let target := [("r1", mkRowData 0 [("f1", ""); ("f2", "kept")])] in
  let source := [("r1", mkRowData 3 [("f1", "new"); ("f2", "late")]);
                 ("r2", mkRowData 1 [("f1", "x")])] in
  mergeRows (mergeRows target source) source = mergeRows target source.
Proof.
  apply mergeRows_idempotent.
  repeat constructor; cbn; intuition discriminate.
Defined.

Lemma mergeRows_row_set_witness :
  NoDup (map fst (mergeRows [("r1", mkRowData 0 [("f1", "a")])]
                            [("r2", mkRowData 1 [("f1", "b")]);
                             ("r1", mkRowData 0 [("f2", "c")])])).
Proof.
  apply (mergeRows_row_set [("r1", mkRowData 0 [("f1", "a")])]).
  repeat constructor. intros [].
Defined.

(* ----------------------------------------------------------------- *)
(** *** Tables from API responses *)

Lemma setAdd_NoDup (s : list string) (k : string) : NoDup s -> NoDup (setAdd s k).
Proof.
  intro H. unfold setAdd. destruct (includes s k) eqn:E; [exact H|].
  apply NoDup_app; [exact H | repeat constructor; intros [] |].
  intros x Hx [<-|[]]. apply includes_In in Hx. congruence.
Qed.

Lemma setAdd_fold_NoDup (l s : list string) : NoDup s -> NoDup (fold_left setAdd l s).
Proof.
  revert s. induction l as [|k tl IH]; intros s H; cbn [fold_left]; [exact H|].
  apply IH. apply setAdd_NoDup. exact H.
Qed.

Lemma extractHeadersFromObjects_headers (arr : list json) (hs : list string) :
  extractHeadersFromObjects arr = Ok hs ->
  NoDup hs /\ Forall (fun h => includes skipKeys h = false) hs.
Proof.
  unfold extractHeadersFromObjects.
  destruct arr as [|first tl]; [discriminate|].
  set (keys := fold_left _ _ (fold_left setAdd (objectKeys first) [])).
  assert (Hnd : NoDup keys).
  { unfold keys. rewrite setAdd_fold_nested.
    apply setAdd_fold_NoDup. apply setAdd_fold_NoDup. constructor. }
  assert (Hres : NoDup (filter (fun k => negb (includes skipKeys k)) keys) /\
                 Forall (fun h => includes skipKeys h = false)
                        (filter (fun k => negb (includes skipKeys k)) keys)).
  { split; [apply NoDup_filter; exact Hnd|].
    apply Forall_forall. intros h Hin. apply filter_In in Hin.
    destruct Hin as [_ Hh]. apply negb_true_iff in Hh. exact Hh. }
  destruct first; intros [= <-]; exact Hres.
Qed.

Lemma mapM_length {A B} (f : A -> result B) (l : list A) (out : list B) :
  mapM f l = Ok out -> length out = length l.
Proof.
  revert out. induction l as [|a tl IH]; intros out; cbn [mapM].
  - intros [= <-]. reflexivity.
  - destruct (f a) as [b|e]; cbn [bind]; [|discriminate].
    destruct (mapM f tl) as [bs|e]; cbn [bind]; [|discriminate].
    intros [= <-]. cbn [length]. rewrite (IH bs eq_refl). reflexivity.
Qed.

Lemma mapM_Forall {A B} (P : B -> Prop) (f : A -> result B) (l : list A)
      (out : list B) :
  (forall a b, f a = Ok b -> P b) -> mapM f l = Ok out -> Forall P out.
Proof.
  intro Hf. revert out. induction l as [|a tl IH]; intros out; cbn [mapM].
  - intros [= <-]. constructor.
  - destruct (f a) as [b|e] eqn:E; cbn [bind]; [|discriminate].
    destruct (mapM f tl) as [bs|e]; cbn [bind]; [|discriminate].
    intros [= <-]. constructor; [apply (Hf a b E) | apply IH; reflexivity].
Qed.

Lemma buildRows_shape (hs : list string) (tableData : list json)
      (rs : list (list string)) :
  buildRows hs tableData = Ok rs ->
  length rs = length tableData /\ rectangular hs rs.
Proof.
  unfold buildRows. intro H. split; [apply (mapM_length _ _ _ H)|].
  unfold rectangular. apply (mapM_Forall _ _ _ _ (fun item row => mapM_length _ hs row) H).
Qed.

Lemma foldM_app {A B} (f : A -> B -> result A) (l1 l2 : list B) (a : A) :
  foldM f (l1 ++ l2)%list a = (a' <- foldM f l1 a ;; foldM f l2 a').
Proof.
  revert a. induction l1 as [|b tl IH]; intro a; cbn [app foldM bind]; [reflexivity|].
  destruct (f a b) as [a'|e]; cbn [bind]; [apply IH | reflexivity].
Qed.

(** The parser runs over the candidates of all responses in one sweep. *)
Lemma parseApiResponsesToTable_candidates (responses : list Payload.t) :
  parseApiResponsesToTable responses
  = foldM considerCandidate (candidatesOf responses) None.
Proof.
  unfold parseApiResponsesToTable, candidatesOf. generalize (@None Table).
  induction responses as [|resp tl IH]; intro best; cbn [foldM flat_map]; [reflexivity|].
  rewrite foldM_app.
  destruct (foldM considerCandidate _ best) as [best'|e]; cbn [bind];
    [apply IH | reflexivity].
Qed.

(** One candidate considered: the best table stays, or the candidate
    replaces it with more rows. *)
Lemma considerCandidate_cases (best : option Table) (arr : list json)
      (out : option Table) :
  considerCandidate best arr = Ok out ->
  (out = best /\
   (arr = [] \/ extractHeadersFromObjects arr = Ok [] \/
    exists t hs rs, best = Some t /\ extractHeadersFromObjects arr = Ok hs /\
                    buildRows hs arr = Ok rs /\ (length rs <= length (rows t))%nat)) \/
  (exists t, out = Some t /\ assembledFrom t arr /\ headers t <> [] /\ arr <> [] /\
             (rowCount best < length (rows t))%nat).
Proof.
  unfold considerCandidate.
  destruct arr as [|x tl]; [intros [= <-]; left; auto|].
  cbn [length Nat.eqb].
  destruct (extractHeadersFromObjects (x :: tl)) as [hs|e] eqn:Eh; cbn [bind];
    [|discriminate].
  destruct hs as [|h hs']; [intros [= <-]; left; auto|].
  cbn [length Nat.eqb].
  destruct (buildRows (h :: hs') (x :: tl)) as [rs|e] eqn:Er; cbn [bind]; [|discriminate].
  pose proof (buildRows_shape _ _ _ Er) as [Hlen _]. cbn [length] in Hlen.
  destruct best as [t|].
  - destruct (Nat.ltb_spec (length (rows t)) (length rs)); intros [= <-].
    + right. exists (mkTable (h :: hs') rs). cbn [rowCount].
      repeat split; try assumption; discriminate.
    + left. split; [reflexivity|]. right. right. exists t, (h :: hs'), rs. auto.
  - intros [= <-]. right. exists (mkTable (h :: hs') rs). cbn [rowCount].
    repeat split; try assumption; try discriminate. cbn [rows]. lia.
Qed.

Lemma assembledFrom_wellFormed (t : Table) (arr : list json) :
  assembledFrom t arr -> headers t <> [] -> arr <> [] -> wellFormedTable t.
Proof.
  intros [Hh Hr] Hhs Harr.
  destruct (extractHeadersFromObjects_headers _ _ Hh) as [Hnd Hskip].
  destruct (buildRows_shape _ _ _ Hr) as [Hlen Hrect].
  repeat split; try assumption.
  intro E. rewrite E in Hlen. destruct arr; [congruence | discriminate].
Qed.

Lemma foldM_considerCandidate (cands : list (list json)) :
  forall (best out : option Table),
    foldM considerCandidate cands best = Ok out ->
    (rowCount best <= rowCount out)%nat /\
    (out = best \/
     exists t arr, out = Some t /\ In arr cands /\ assembledFrom t arr /\
                   headers t <> [] /\ arr <> []) /\
    (forall arr hs rs, In arr cands -> extractHeadersFromObjects arr = Ok hs ->
                       hs <> [] -> buildRows hs arr = Ok rs ->
                       (length rs <= rowCount out)%nat).
Proof.
  induction cands as [|c tl IH]; intros best out; cbn [foldM].
  - intros [= <-]. split; [lia|]. split; [left; reflexivity|]. intros ? ? ? [].
  - destruct (considerCandidate best c) as [mid|e] eqn:Ec; cbn [bind]; [|discriminate].
    intro Hrest. destruct (IH mid out Hrest) as (Hmono & Horigin & Hmax).
    pose proof (considerCandidate_cases best c mid Ec) as Hc.
    assert (Hbm : (rowCount best <= rowCount mid)%nat).
    { destruct Hc as [[-> _]|(t & -> & _ & _ & _ & Hlt)]; [lia | cbn [rowCount]; lia]. }
    split; [lia|]. split.
    + destruct Horigin as [->|(t & arr & -> & Hin & Hrest')].
      * destruct Hc as [[-> _]|(t & -> & Has & Hhs & Harr & _)]; [left; reflexivity|].
        right. exists t, c. repeat split; try assumption; try apply Has. left. reflexivity.
      * right. exists t, arr. split; [reflexivity|]. split; [right; exact Hin | exact Hrest'].
    + intros arr hs rs [<-|Hin] Hh Hne Hr; [|apply (Hmax arr hs rs); assumption].
      enough (length rs <= rowCount mid)%nat by lia.
      destruct Hc as [[-> [->|[E|(t & hs' & rs' & -> & Hh' & Hr' & Hle)]]]|
                      (t & -> & [Hh' Hr'] & _)].
      * discriminate Hh.
      * congruence.
      * rewrite Hh in Hh'. injection Hh' as <-. rewrite Hr in Hr'. injection Hr' as <-.
        cbn [rowCount]. exact Hle.
      * rewrite Hh in Hh'. injection Hh' as Hh'. rewrite <- Hh' in Hr'.
        rewrite Hr in Hr'. injection Hr' as Hr'. cbn [rowCount]. rewrite <- Hr'. lia.
Qed.

(** X6.  A table the parser returns is well formed: it has at least one
    header and one row, every row is as wide as the header row, no header
    occurs twice and none is denylisted.  It is assembled from one of the
    candidate arrays of the batch, with one row per element, and no
    candidate with a usable header row has more elements. *)
Theorem parseApiResponsesToTable_best :
  forall (responses : list Payload.t) (t : Table),
    parseApiResponsesToTable responses = Ok (Some t) ->
    wellFormedTable t /\
    (exists arr, In arr (candidatesOf responses) /\ assembledFrom t arr /\
                 length (rows t) = length arr) /\
    (forall arr hs rs, In arr (candidatesOf responses) ->
                       extractHeadersFromObjects arr = Ok hs -> hs <> [] ->
                       buildRows hs arr = Ok rs ->
                       (length arr <= length (rows t))%nat).
Proof.
  intros responses t H. rewrite parseApiResponsesToTable_candidates in H.
  destruct (foldM_considerCandidate _ _ _ H) as (_ & Horigin & Hmax).
  destruct Horigin as [E|(t' & arr & E & Hin & Has & Hhs & Harr)]; [discriminate|].
  injection E as <-.
  split; [apply (assembledFrom_wellFormed t arr); assumption|]. split.
  - exists arr. split; [exact Hin|]. split; [exact Has|].
    apply (buildRows_shape _ _ _ (proj2 Has)).
  - intros arr' hs rs Hin' Hh Hne Hr.
    rewrite <- (proj1 (buildRows_shape _ _ _ Hr)).
    apply (Hmax arr' hs rs); assumption.
Qed.

Lemma parseApiResponsesToTable_best_witness :
  wellFormedTable (mkTable ["id"; "name"] [["1"; "A"]; ["2"; "B"]]).
Proof.
  apply (parseApiResponsesToTable_best [response itemsPayload]). reflexivity.
Defined.

Lemma foldM_considered (cands : list (list json)) :
  forall (best out : option Table) (arr : list json),
    foldM considerCandidate cands best = Ok out -> In arr cands ->
    exists b b', considerCandidate b arr = Ok b'.
Proof.
  induction cands as [|c tl IH]; intros best out arr H Hin; [destruct Hin|].
  cbn [foldM] in H.
  destruct (considerCandidate best c) as [mid|e] eqn:Ec; cbn [bind] in H; [|discriminate].
  destruct Hin as [<-|Hin]; [eauto | apply (IH mid out arr H Hin)].
Qed.

(** X7.  When the parser finds no table without throwing, every candidate
    array of the batch has an empty header row: all the keys of its first
    ten elements are denylisted. *)
Theorem parseApiResponsesToTable_none :
  forall responses : list Payload.t,
    parseApiResponsesToTable responses = Ok None ->
    forall (arr : list json) (hs : list string),
      In arr (candidatesOf responses) ->
      extractHeadersFromObjects arr = Ok hs -> hs = [].
Proof.
  intros responses H arr hs Hin Hh. rewrite parseApiResponsesToTable_candidates in H.
  destruct hs as [|h hs']; [reflexivity|]. exfalso.
  destruct (foldM_considered _ _ _ arr H Hin) as (b & b' & Hstep).
  destruct (foldM_considerCandidate _ _ _ H) as (_ & _ & Hmax).
  unfold considerCandidate in Hstep.
  destruct arr as [|x tl]; [discriminate Hh|].
  cbn [length Nat.eqb] in Hstep. rewrite Hh in Hstep. cbn [bind length Nat.eqb] in Hstep.
  destruct (buildRows (h :: hs') (x :: tl)) as [rs|e] eqn:Er; [|discriminate Hstep].
  specialize (Hmax (x :: tl) (h :: hs') rs Hin Hh ltac:(discriminate) Er).
  pose proof (proj1 (buildRows_shape _ _ _ Er)) as Hlen.
  cbn [rowCount length] in *. lia.
Qed.

Lemma parseApiResponsesToTable_none_witness :
  parseApiResponsesToTable [response (JArr [record ["cursor"; "node"]])] = Ok None /\
  forall (arr : list json) (hs : list string),
    In arr (candidatesOf [response (JArr [record ["cursor"; "node"]])]) ->
    extractHeadersFromObjects arr = Ok hs -> hs = [].
Proof.
  split; [reflexivity|].
  apply (parseApiResponsesToTable_none [response (JArr [record ["cursor"; "node"]])]).
  reflexivity.
Defined.

Lemma flattenValue_primitive (v : json) :
  isPrimitive v = true ->
  match v with JNull => "" | _ => toString v end = flattenValue v.
Proof. destruct v; try discriminate; reflexivity. Qed.

(** X8.  Flattening distributes over arrays: an array flattens to the
    flattened elements joined by a semicolon and a space, whether or not it
    holds objects, and the empty array to the empty string. *)
Theorem flattenValue_array :
  forall items : list json,
    flattenValue (JArr items) = join "; " (map flattenValue items).
Proof.
  intro items. cbn [flattenValue].
  destruct items as [|x tl]; [reflexivity|]. cbn [length Nat.eqb].
  destruct (forallb isPrimitive (x :: tl)) eqn:E; [|reflexivity].
  f_equal. apply map_ext_in. intros v Hin.
  rewrite forallb_forall in E. apply flattenValue_primitive. apply E. exact Hin.
Qed.

(* ----------------------------------------------------------------- *)
(** *** Search metadata *)

Lemma getOwn_objSet_same {V} (k : string) (v : V) (o : list (string * V)) :
  getOwn k (objSet k v o) = Some v.
Proof.
  induction o as [|[k' v'] tl IH]; cbn [objSet].
  - rewrite getOwn_cons, String.eqb_refl. reflexivity.
  - destruct (String.eqb k k') eqn:E; rewrite getOwn_cons.
    + rewrite String.eqb_refl. reflexivity.
    + rewrite E. exact IH.
Qed.

Lemma getOwn_objSet_other {V} (k k' : string) (v : V) (o : list (string * V)) :
  k <> k' -> getOwn k' (objSet k v o) = getOwn k' o.
Proof.
  intro Hne. induction o as [|[k0 v0] tl IH]; cbn [objSet].
  - rewrite getOwn_cons. destruct (String.eqb_spec k' k); [congruence | reflexivity].
  - destruct (String.eqb_spec k k0) as [->|Hk]; rewrite !getOwn_cons.
    + destruct (String.eqb_spec k' k0); [congruence | reflexivity].
    + rewrite IH. reflexivity.
Qed.

Lemma objSet_keys {V} (k : string) (v : V) (o : list (string * V)) :
  map fst (objSet k v o)
  = if hasOwn k o then map fst o else (map fst o ++ [k])%list.
Proof.
  unfold hasOwn. induction o as [|[k0 v0] tl IH]; [reflexivity|].
  cbn [objSet]. rewrite getOwn_cons.
  destruct (String.eqb_spec k k0) as [->|Hne]; [reflexivity|].
  cbn [map fst]. rewrite IH. destruct (getOwn k tl); reflexivity.
Qed.

Lemma objSet_NoDup {V} (k : string) (v : V) (o : list (string * V)) :
  NoDup (map fst o) -> NoDup (map fst (objSet k v o)).
Proof.
  intro H. rewrite objSet_keys. unfold hasOwn.
  destruct (getOwn k o) eqn:E; [exact H|].
  apply NoDup_app; [exact H | repeat constructor; intros [] |].
  intros x Hx [<-|[]]. apply (proj1 (mapGet_None_notin k o) E). exact Hx.
Qed.

Lemma objSet_not_nil {V} (k : string) (v : V) (o : list (string * V)) :
  objSet k v o <> [].
Proof. destruct o as [|[k' v'] tl]; cbn [objSet]; [|destruct (String.eqb k k')]; discriminate. Qed.

(** An object after a run of assignments: the last value assigned to a
    key, or the one it had. *)
Lemma assign_get {V} (l : list (string * V)) :
  forall (o : list (string * V)) (k : string),
    getOwn k (fold_left (fun acc kv => objSet (fst kv) (snd kv) acc) l o)
    = match getOwn k (rev l) with
      | Some v => Some v
      | None => getOwn k o
      end.
Proof.
  induction l as [|[k0 v0] tl IH] using rev_ind; intros o k.
  - reflexivity.
  - rewrite fold_left_app, rev_unit. cbn [fold_left fst snd]. rewrite getOwn_cons.
    destruct (String.eqb_spec k k0) as [->|Hne].
    + apply getOwn_objSet_same.
    + rewrite getOwn_objSet_other by congruence. apply IH.
Qed.

Lemma assign_NoDup {V} (l : list (string * V)) :
  forall o : list (string * V),
    NoDup (map fst o) ->
    NoDup (map fst (fold_left (fun acc kv => objSet (fst kv) (snd kv) acc) l o)).
Proof.
  induction l as [|kv tl IH]; intros o H; cbn [fold_left]; [exact H|].
  apply IH. apply objSet_NoDup. exact H.
Qed.

Lemma assign_not_nil {V} (l : list (string * V)) :
  forall o : list (string * V),
    fold_left (fun acc kv => objSet (fst kv) (snd kv) acc) l o = [] -> l = [] /\ o = [].
Proof.
  induction l as [|kv tl IH]; intros o H; cbn [fold_left] in H; [auto|].
  destruct (IH _ H) as [_ Habs]. destruct (objSet_not_nil _ _ _ Habs).
Qed.

(** The first three assignments of [buildSearchMetadata]. *)
Lemma buildSearchMetadata_fold (m : TableMeta) :
  buildSearchMetadata (Some m)
  = let result :=
      fold_left (fun acc kv => objSet (fst kv) (snd kv) acc) (searchFields m)
                (standardEntries m) in
    if Nat.ltb 0 (length result) then Some result else None.
Proof.
  unfold buildSearchMetadata, standardEntries.
  destruct (String.eqb (tableName m) ""), (String.eqb (sourceName m) ""),
    (Z.eqb (totalRecords m) 0); reflexivity.
Qed.

Lemma standardEntries_NoDup (m : TableMeta) : NoDup (map fst (standardEntries m)).
Proof.
  unfold standardEntries.
  destruct (String.eqb (tableName m) ""), (String.eqb (sourceName m) ""),
    (Z.eqb (totalRecords m) 0); cbn;
    repeat constructor; cbn; intuition discriminate.
Qed.

(** X9.  The search metadata is absent exactly when the table name and the
    source name are empty, the record count is zero and there is no search
    field.  When present it has no key twice, and a key reads as the last
    search field of that name, or else as the standard entry ([Table Name],
    [Source], [Total Records]) of that name. *)
Theorem buildSearchMetadata_entries :
  forall m : TableMeta,
    (buildSearchMetadata (Some m) = None <->
     tableName m = "" /\ sourceName m = "" /\ totalRecords m = 0%Z /\
     searchFields m = []) /\
    (forall metadata : list (string * string),
        buildSearchMetadata (Some m) = Some metadata ->
        NoDup (map fst metadata) /\
        forall k : string,
          getOwn k metadata
          = match getOwn k (rev (searchFields m)) with
            | Some v => Some v
            | None => getOwn k (standardEntries m)
            end).
Proof.
  intro m. rewrite buildSearchMetadata_fold. cbv zeta.
  set (result := fold_left _ (searchFields m) (standardEntries m)).
  split.
  - destruct result as [|e tl] eqn:E; cbn [length Nat.ltb Nat.leb].
    + split; [intros _ | reflexivity].
      destruct (assign_not_nil _ _ E) as [Hs He]. unfold standardEntries in He.
      destruct (String.eqb_spec (tableName m) ""); [|discriminate He].
      destruct (String.eqb_spec (sourceName m) ""); [|discriminate He].
      destruct (Z.eqb_spec (totalRecords m) 0); [|discriminate He]. auto.
    + split; [discriminate|]. intros (H1 & H2 & H3 & H4). exfalso.
      unfold result, standardEntries in E. rewrite H1, H2, H3, H4 in E. discriminate E.
  - intros metadata H.
    destruct (Nat.ltb 0 (length result)); [|discriminate]. injection H as <-.
    split; [apply assign_NoDup; apply standardEntries_NoDup | intro k; apply assign_get].
Qed.

Lemma buildSearchMetadata_entries_witness :
  exists metadata : list (string * string),
    buildSearchMetadata
      (Some (mkTableMeta "People" "Find people" "" 0
                         [("Source", "typed"); ("Job Title", "CTO")]))
    = Some metadata /\
    NoDup (map fst metadata) /\
    getOwn "Source" metadata = Some "typed".
Proof.
  destruct (buildSearchMetadata_entries
              (mkTableMeta "People" "Find people" "" 0
                           [("Source", "typed"); ("Job Title", "CTO")])) as [_ H].
  eexists. split; [reflexivity|].
  destruct (H _ eq_refl) as [Hnd Hget]. split; [exact Hnd | apply (Hget "Source")].
Defined.

Lemma generateCSV_metadata_lines (meta : option TableMeta)
      (metadata : list (string * string)) (hs : list string) (rs : list (list string)) :
  buildSearchMetadata meta = Some metadata -> rectangular hs rs ->
  generateCSV meta hs rs
  = BOM ++ join CRLF (map csvLine (metadataBlock metadata ++ hs :: rs)%list).
Proof.
  intros Hmeta Hrect. unfold generateCSV, metadataBlock. rewrite Hmeta.
  do 2 f_equal. rewrite <- !app_assoc. cbn [app map]. f_equal.
  rewrite !map_app, map_map. cbn [map]. rewrite <- app_assoc. cbn [app].
  f_equal. f_equal. f_equal. f_equal.
  apply map_ext_in. intros row Hin. apply csvRow_rectangular.
  unfold rectangular in Hrect. rewrite Forall_forall in Hrect. apply Hrect. exact Hin.
Qed.

(** X10.  With a metadata block, the CSV text of a table whose rows are as
    wide as its header row still reads back line by line: the opening
    marker, one line of key and value per metadata entry, the closing
    marker, an empty line, then the header row and the rows. *)
Theorem generateCSV_metadata_round_trip :
  forall (meta : option TableMeta) (metadata : list (string * string))
         (hs : list string) (rs : list (list string)),
    buildSearchMetadata meta = Some metadata ->
    rectangular hs rs ->
    parseCSV (generateCSV meta hs rs) = Some (metadataBlock metadata ++ hs :: rs)%list.
Proof.
  intros meta metadata hs rs Hmeta Hrect. unfold parseCSV.
  rewrite (generateCSV_metadata_lines meta metadata hs rs Hmeta Hrect), stripPrefix_app.
  unfold metadataBlock. cbn [app]. rewrite readCSV_lines. reflexivity.
Qed.

Lemma generateCSV_metadata_round_trip_witness :
  parseCSV (generateCSV (Some (mkTableMeta "People" "" "" 12 [("Job Title", "CTO, VP")]))
                        ["name"] [["Ada"]])
  = Some [["--- SEARCH PARAMETERS ---"]; ["Table Name"; "People"];
          ["Total Records"; "12"]; ["Job Title"; "CTO, VP"]; ["---"]; [];
          ["name"]; ["Ada"]].
Proof.
  apply (generateCSV_metadata_round_trip
           (Some (mkTableMeta "People" "" "" 12 [("Job Title", "CTO, VP")]))
           [("Table Name", "People"); ("Total Records", "12"); ("Job Title", "CTO, VP")]
           ["name"] [["Ada"]]).
  - reflexivity.
  - repeat constructor.
Defined.

(* ----------------------------------------------------------------- *)
(** *** The typed row range *)

Lemma parseRowRange_range (input : string) (totalRows : Z) (r : Range) :
  parseRowRange input totalRows = Ok (Some r) -> validRange totalRows r.
Proof.
  unfold parseRowRange, validRange.
  destruct (trim input) as [|c tl]; [discriminate|].
  destruct (matchRange (String c tl)) as [[first second]|].
  - destruct (parseInt first) as [s|]; [|destruct (parseInt second); discriminate].
    destruct (parseInt second) as [e|]; [|discriminate].
    destruct (Z.ltb_spec s 1); [discriminate|].
    destruct (Z.ltb_spec totalRows e); [discriminate|].
    destruct (Z.ltb_spec e s); [discriminate|].
    intros [= <-]. cbn [start end_]. lia.
  - destruct (parseInt (String c tl)) as [single|]; [|discriminate].
    destruct (Z.leb_spec 1 single); cbn [andb]; [|discriminate].
    destruct (Z.leb_spec single totalRows); [|discriminate].
    intros [= <-]. cbn [start end_]. lia.
Qed.

Lemma slice_length {A} (l : list A) (b e : Z) :
  (0 <= b)%Z -> (b <= e)%Z -> (e <= Z.of_nat (length l))%Z ->
  length (slice l b e) = Z.to_nat (e - b).
Proof.
  intros Hb Hbe He. unfold slice, relativeIndex.
  destruct (Z.ltb_spec b 0); [lia|]. destruct (Z.ltb_spec e 0); [lia|].
  rewrite length_firstn, length_skipn. lia.
Qed.

(** X11.  Whatever the popup accepts is valid for the table: when
    [parseRowRange] returns a range for a table of [length rs] rows, then
    1 <= start <= end <= that count, and [applyRange] with it selects exactly
    [end - start + 1] rows, row [i] of the selection being row
    [start - 1 + i] of the table; it returns no range (all rows) only for a
    blank input, and then [applyRange] keeps every row. *)
Theorem parseRowRange_selects :
  forall (A : Type) (rs : list A) (input : string) (range : option Range),
    parseRowRange input (Z.of_nat (length rs)) = Ok range ->
    match range with
    | None => trim input = "" /\ applyRange rs range = rs
    | Some r =>
        validRange (Z.of_nat (length rs)) r /\
        length (applyRange rs range) = Z.to_nat (end_ r - start r + 1) /\
        forall i : nat,
          (i < length (applyRange rs range))%nat ->
          nth_error (applyRange rs range) i = nth_error rs (Z.to_nat (start r - 1) + i)
    end.
Proof.
  intros A rs input [r|] H.
  - pose proof (parseRowRange_range _ _ _ H) as Hv.
    destruct Hv as (H1 & H2 & H3).
    assert (Hlen : length (applyRange rs (Some r)) = Z.to_nat (end_ r - start r + 1)).
    { unfold applyRange. rewrite slice_length by lia. f_equal. lia. }
    split; [repeat split; assumption|]. split; [exact Hlen|].
    intros i Hi. unfold applyRange. rewrite slice_nth_error by lia.
    destruct (Z.ltb_spec (Z.of_nat i) (end_ r - (start r - 1))); [reflexivity | lia].
  - split; [|reflexivity]. unfold parseRowRange in H.
    destruct (trim input) as [|c tl]; [reflexivity|]. exfalso.
    destruct (matchRange (String c tl)) as [[first second]|].
    + destruct (parseInt first) as [s|]; [|destruct (parseInt second); discriminate].
      destruct (parseInt second) as [e|]; [|discriminate].
      destruct (s <? 1)%Z; [discriminate|]. destruct (Z.of_nat (length rs) <? e)%Z; [discriminate|].
      destruct (e <? s)%Z; discriminate.
    + destruct (parseInt (String c tl)) as [single|]; [|discriminate].
      destruct ((1 <=? single)%Z && (single <=? Z.of_nat (length rs))%Z); discriminate.
Qed.

Lemma parseRowRange_selects_witness :
  length (applyRange [10; 20; 30; 40; 50]%Z (Some (mkRange 2 4))) = 3%nat.
Proof.
  apply (parseRowRange_selects Z [10; 20; 30; 40; 50]%Z " 2 - 4 " (Some (mkRange 2 4))).
  reflexivity.
Defined.

Lemma isDigit_bounds (c : ascii) :
  isDigit c = true -> (48 <= nat_of_ascii c <= 57)%nat.
Proof.
  unfold isDigit. intro H. apply andb_true_iff in H. destruct H as [H1 H2].
  apply Nat.leb_le in H1. apply Nat.leb_le in H2. lia.
Qed.

Lemma whiteSpaceLength_digit (c : ascii) (tl : string) :
  isDigit c = true -> whiteSpaceLength (String c tl) = 0%nat.
Proof.
  intro H. apply isDigit_bounds in H. unfold whiteSpaceLength.
  set (a := nat_of_ascii c) in *.
  assert (H9 : (Nat.leb 9 a && Nat.leb a 13) || Nat.eqb a 32 = false).
  { destruct (Nat.leb_spec a 13); [lia|]. destruct (Nat.eqb_spec a 32); [lia|].
    rewrite andb_false_r. reflexivity. }
  rewrite H9.
  destruct (Nat.eqb_spec a 194); [lia|]. destruct (Nat.eqb_spec a 225); [lia|].
  destruct (Nat.eqb_spec a 226); [lia|]. destruct (Nat.eqb_spec a 227); [lia|].
  destruct (Nat.eqb_spec a 239); [lia|].
  destruct tl as [|b [|c' tl']]; reflexivity.
Qed.

Lemma whiteSpaceLength_dash (tl : string) : whiteSpaceLength (String "-" tl) = 0%nat.
Proof. destruct tl as [|b [|c' tl']]; reflexivity. Qed.

Lemma dropWhiteSpace_none (c : ascii) (tl : string) :
  whiteSpaceLength (String c tl) = 0%nat ->
  dropWhiteSpace 0 (String c tl) = String c tl.
Proof. intro H. cbn [dropWhiteSpace]. rewrite H. reflexivity. Qed.

Lemma dropWhiteSpace_spaces (n : nat) (s : string) :
  dropWhiteSpace 0 (spaces n ++ s) = dropWhiteSpace 0 s.
Proof. induction n as [|k IH]; [reflexivity | exact IH]. Qed.

Lemma isBlank_spaces (n : nat) (s : string) : isBlank (spaces n ++ s) = isBlank s.
Proof. unfold isBlank. rewrite dropWhiteSpace_spaces. reflexivity. Qed.

Lemma isBlank_solid (c : ascii) (tl : string) :
  whiteSpaceLength (String c tl) = 0%nat -> isBlank (String c tl) = false.
Proof. intro H. unfold isBlank. rewrite (dropWhiteSpace_none c tl H). reflexivity. Qed.

Lemma trimEnd_solid (c : ascii) (tl : string) :
  whiteSpaceLength (String c tl) = 0%nat ->
  trimEnd (String c tl) = String c (trimEnd tl).
Proof. intro H. cbn [trimEnd]. rewrite (isBlank_solid c tl H). reflexivity. Qed.

Lemma trimEnd_spaces (n : nat) (s : string) :
  trimEnd (spaces n ++ s) = if isBlank s then "" else spaces n ++ trimEnd s.
Proof.
  induction n as [|k IH]; cbn [spaces append].
  - destruct s as [|c tl]; [reflexivity|]. cbn [trimEnd].
    destruct (isBlank (String c tl)); reflexivity.
  - cbn [trimEnd]. change (String " " (spaces k ++ s)) with (spaces (S k) ++ s).
    rewrite isBlank_spaces, IH. destruct (isBlank s); reflexivity.
Qed.

(** Decimal numerals. *)
Lemma numeral_head (d : Decimal.uint) :
  d <> Decimal.Nil ->
  exists c tl, NilEmpty.string_of_uint d = String c tl /\ isDigit c = true.
Proof. destruct d; [congruence| ..]; intros _; cbn; eauto. Qed.

Lemma numeral_digits (d : Decimal.uint) (rest : string) :
  spanDigits (NilEmpty.string_of_uint d ++ rest)
  = (NilEmpty.string_of_uint d ++ fst (spanDigits rest), snd (spanDigits rest)).
Proof.
  induction d; cbn [NilEmpty.string_of_uint append];
    [destruct (spanDigits rest); reflexivity | ..];
    cbn [spanDigits]; (change (isDigit _) with true); cbv iota; rewrite IHd; reflexivity.
Qed.

Lemma numeral_value (d : Decimal.uint) :
  forall acc : nat,
    digitsValue acc (NilEmpty.string_of_uint d) = Nat.of_uint_acc d acc.
Proof.
  induction d; intro acc; cbn [NilEmpty.string_of_uint digitsValue Nat.of_uint_acc];
    [reflexivity | ..];
    rewrite IHd, Nat.tail_mul_spec; f_equal; cbn [nat_of_ascii]; cbn; lia.
Qed.

Lemma numeral_trimEnd (d : Decimal.uint) (rest : string) :
  trimEnd (NilEmpty.string_of_uint d ++ rest)
  = NilEmpty.string_of_uint d ++ trimEnd rest.
Proof.
  induction d; cbn [NilEmpty.string_of_uint append]; [reflexivity | ..];
    rewrite trimEnd_solid by (apply whiteSpaceLength_digit; reflexivity);
    rewrite IHd; reflexivity.
Qed.

Lemma indexToString_numeral (n : nat) :
  exists d, d <> Decimal.Nil /\ indexToString n = NilEmpty.string_of_uint d /\ Nat.of_uint d = n.
Proof.
  exists (Nat.to_uint n).
  assert (Hnil : Nat.to_uint n <> Decimal.Nil).
  { rewrite <- (DecimalNat.Unsigned.of_to n) at 1. rewrite DecimalNat.Unsigned.to_of. apply DecimalFacts.unorm_nonnil. }
  split; [exact Hnil|]. split; [|apply DecimalNat.Unsigned.of_to].
  unfold indexToString, NilZero.string_of_uint.
  destruct (Nat.to_uint n); [congruence | reflexivity ..].
Qed.

Lemma spanDigits_numeral (d : Decimal.uint) :
  spanDigits (NilEmpty.string_of_uint d) = (NilEmpty.string_of_uint d, "").
Proof.
  rewrite <- (append_nil_r (NilEmpty.string_of_uint d)) at 1.
  rewrite numeral_digits. cbn [spanDigits fst snd]. rewrite append_nil_r. reflexivity.
Qed.

Lemma isDigit_not_sign (c : ascii) :
  isDigit c = true -> Ascii.eqb c "-" = false /\ Ascii.eqb c "+" = false.
Proof.
  intro H. split.
  - destruct (Ascii.eqb_spec c "-"); [subst; discriminate H | reflexivity].
  - destruct (Ascii.eqb_spec c "+"); [subst; discriminate H | reflexivity].
Qed.

Lemma parseInt_numeral (d : Decimal.uint) :
  d <> Decimal.Nil -> parseInt (NilEmpty.string_of_uint d) = Some (Z.of_nat (Nat.of_uint d)).
Proof.
  intro Hd. destruct (numeral_head d Hd) as (c & tl & Hs & Hc).
  unfold parseInt. rewrite Hs.
  rewrite (dropWhiteSpace_none c tl (whiteSpaceLength_digit c tl Hc)).
  destruct (isDigit_not_sign c Hc) as [-> ->]. cbn [fst snd].
  rewrite <- Hs, spanDigits_numeral, Hs, <- Hs, numeral_value. reflexivity.
Qed.

Lemma spanDigits_blank_dash (n : nat) (s : string) :
  spanDigits (spaces n ++ "-" ++ s) = ("", spaces n ++ "-" ++ s).
Proof. destruct n; reflexivity. Qed.

Lemma matchRange_numerals (d e : Decimal.uint) (n2 n3 : nat) :
  d <> Decimal.Nil -> e <> Decimal.Nil ->
  matchRange (NilEmpty.string_of_uint d ++ spaces n2 ++ "-" ++ spaces n3
                ++ NilEmpty.string_of_uint e)
  = Some (NilEmpty.string_of_uint d, NilEmpty.string_of_uint e).
Proof.
  intros Hd He. unfold matchRange.
  rewrite numeral_digits, spanDigits_blank_dash. cbn [fst snd].
  rewrite append_nil_r.
  destruct (numeral_head d Hd) as (c & tl & Hs & _). rewrite Hs at 1.
  rewrite dropWhiteSpace_spaces. cbn [append].
  rewrite (dropWhiteSpace_none _ _ (whiteSpaceLength_dash _)).
  rewrite Ascii.eqb_refl, dropWhiteSpace_spaces.
  destruct (numeral_head e He) as (c' & tl' & Hs' & Hc').
  rewrite Hs', (dropWhiteSpace_none c' tl' (whiteSpaceLength_digit c' tl' Hc')).
  rewrite <- Hs', spanDigits_numeral, Hs'. reflexivity.
Qed.

Lemma matchRange_numeral (d : Decimal.uint) :
  matchRange (NilEmpty.string_of_uint d) = None.
Proof.
  unfold matchRange. rewrite spanDigits_numeral.
  destruct (NilEmpty.string_of_uint d); reflexivity.
Qed.

Lemma trim_range_text (d e : Decimal.uint) (n1 n2 n3 n4 : nat) :
  d <> Decimal.Nil -> e <> Decimal.Nil ->
  trim (spaces n1 ++ NilEmpty.string_of_uint d ++ spaces n2 ++ "-" ++ spaces n3
          ++ NilEmpty.string_of_uint e ++ spaces n4)
  = NilEmpty.string_of_uint d ++ spaces n2 ++ "-" ++ spaces n3
      ++ NilEmpty.string_of_uint e.
Proof.
  intros Hd He. unfold trim. rewrite dropWhiteSpace_spaces.
  destruct (numeral_head d Hd) as (c & tl & Hs & Hc).
  destruct (numeral_head e He) as (c' & tl' & Hs' & Hc').
  assert (Hdrop : forall rest, dropWhiteSpace 0 (NilEmpty.string_of_uint d ++ rest)
                               = NilEmpty.string_of_uint d ++ rest).
  { intro rest. rewrite Hs. cbn [append].
    apply dropWhiteSpace_none. apply whiteSpaceLength_digit. exact Hc. }
  rewrite Hdrop, numeral_trimEnd. f_equal.
  assert (Htail : trimEnd (NilEmpty.string_of_uint e ++ spaces n4)
                  = NilEmpty.string_of_uint e).
  { rewrite numeral_trimEnd.
    rewrite <- (append_nil_r (spaces n4)), trimEnd_spaces. cbn. apply append_nil_r. }
  assert (Hsolid : isBlank (NilEmpty.string_of_uint e ++ spaces n4) = false).
  { rewrite Hs'. cbn [append]. apply isBlank_solid. apply whiteSpaceLength_digit. exact Hc'. }
  rewrite trimEnd_spaces.
  assert (Hdash : isBlank ("-" ++ spaces n3 ++ NilEmpty.string_of_uint e ++ spaces n4)
                  = false).
  { cbn [append]. apply isBlank_solid. apply whiteSpaceLength_dash. }
  rewrite Hdash. f_equal. cbn [append].
  rewrite trimEnd_solid by apply whiteSpaceLength_dash. f_equal.
  rewrite trimEnd_spaces, Hsolid, Htail. reflexivity.
Qed.

Lemma trim_single_text (d : Decimal.uint) (n1 n4 : nat) :
  d <> Decimal.Nil ->
  trim (spaces n1 ++ NilEmpty.string_of_uint d ++ spaces n4)
  = NilEmpty.string_of_uint d.
Proof.
  intro Hd. unfold trim. rewrite dropWhiteSpace_spaces.
  destruct (numeral_head d Hd) as (c & tl & Hs & Hc).
  assert (Hdrop : dropWhiteSpace 0 (NilEmpty.string_of_uint d ++ spaces n4)
                  = NilEmpty.string_of_uint d ++ spaces n4).
  { rewrite Hs. cbn [append].
    apply dropWhiteSpace_none. apply whiteSpaceLength_digit. exact Hc. }
  rewrite Hdrop, numeral_trimEnd.
  rewrite <- (append_nil_r (spaces n4)), trimEnd_spaces. cbn. apply append_nil_r.
Qed.

(** X12.  The documented formats are accepted: for 1 <= a <= b <= totalRows
    the text of [a], a dash and [b] in decimal, with any number of spaces
    around the numbers and the dash, parses to the range from [a] to [b];
    and the text of a single row number parses to that row alone. *)
Theorem parseRowRange_accepts :
  forall (a b : nat) (totalRows : Z) (n1 n2 n3 n4 : nat),
    (1 <= a)%nat -> (a <= b)%nat -> (Z.of_nat b <= totalRows)%Z ->
    parseRowRange (spaces n1 ++ indexToString a ++ spaces n2 ++ "-" ++ spaces n3
                     ++ indexToString b ++ spaces n4) totalRows
    = Ok (Some (mkRange (Z.of_nat a) (Z.of_nat b))) /\
    parseRowRange (spaces n1 ++ indexToString b ++ spaces n4) totalRows
    = Ok (Some (mkRange (Z.of_nat b) (Z.of_nat b))).
Proof.
  intros a b totalRows n1 n2 n3 n4 Ha Hab Hb.
  destruct (indexToString_numeral a) as (d & Hd & -> & Hda).
  destruct (indexToString_numeral b) as (e & He & -> & Heb).
  destruct (numeral_head d Hd) as (c & tl & Hs & _).
  destruct (numeral_head e He) as (c' & tl' & Hs' & _).
  split; unfold parseRowRange.
  - rewrite (trim_range_text d e n1 n2 n3 n4 Hd He).
    rewrite (matchRange_numerals d e n2 n3 Hd He).
    rewrite (parseInt_numeral d Hd), (parseInt_numeral e He), Hda, Heb.
    rewrite Hs at 1. cbn [append].
    destruct (Z.ltb_spec (Z.of_nat a) 1); [lia|].
    destruct (Z.ltb_spec totalRows (Z.of_nat b)); [lia|].
    destruct (Z.ltb_spec (Z.of_nat b) (Z.of_nat a)); [lia | reflexivity].
  - rewrite (trim_single_text e n1 n4 He), matchRange_numeral.
    rewrite (parseInt_numeral e He), Heb. rewrite Hs' at 1.
    destruct (Z.leb_spec 1 (Z.of_nat b)); [|lia].
    destruct (Z.leb_spec (Z.of_nat b) totalRows); [reflexivity | lia].
Qed.

Lemma parseRowRange_accepts_witness :
  parseRowRange " 3 - 12" 40 = Ok (Some (mkRange 3 12)).
Proof.
  apply (parseRowRange_accepts 3 12 40 1 1 1 0); [lia | lia | cbn; lia].
Defined.

Lemma slice_rectangular (hs : list string) (rs : list (list string)) (b e : Z) :
  rectangular hs rs -> rectangular hs (slice rs b e).
Proof.
  unfold rectangular, slice. intro H.
  apply Forall_prefix. apply Forall_forall. intros row Hin.
  rewrite Forall_forall in H. apply H.
  rewrite <- (firstn_skipn (Z.to_nat (relativeIndex (Z.of_nat (length rs)) b)) rs).
  apply in_or_app. right. exact Hin.
Qed.

(** X13.  Typed range to exported file: for a stored table with rows as wide
    as its header row and no metadata, if the popup accepts the typed range
    then the exported CSV text reads back as the headers with exactly the
    selected rows, [end - start + 1] of them, or all rows for a blank input. *)
Theorem csvContent_of_typed_range :
  forall (cd : CapturedData) (table : Table) (input : string) (range : option Range),
    parsedTable cd = Some table ->
    rectangular (headers table) (rows table) ->
    buildSearchMetadata (tableMeta cd) = None ->
    parseRowRange input (Z.of_nat (length (rows table))) = Ok range ->
    exists (content : string) (selected : list (list string)),
      csvContent range cd = inr content /\
      parseTable content = Some (mkTable (headers table) selected) /\
      selected = applyRange (rows table) range /\
      length selected
      = match range with
        | None => length (rows table)
        | Some r => Z.to_nat (end_ r - start r + 1)
        end.
Proof.
  intros cd table input range Htable Hrect Hmeta Hrange.
  unfold csvContent. rewrite Htable.
  eexists. exists (applyRange (rows table) range). split; [reflexivity|].
  assert (Hsel : rectangular (headers table) (applyRange (rows table) range)).
  { destruct range as [r|]; [apply slice_rectangular | ]; exact Hrect. }
  split; [|split; [reflexivity|]].
  - unfold parseTable, parseCSV.
    rewrite (generateCSV_lines _ _ _ Hmeta Hsel), stripPrefix_app, readCSV_lines.
    reflexivity.
  - destruct range as [r|]; [|reflexivity].
    destruct (parseRowRange_range _ _ _ Hrange) as (H1 & H2 & H3).
    unfold applyRange. rewrite slice_length by lia. f_equal. lia.
Qed.

Lemma csvContent_of_typed_range_witness :
  exists (content : string) (selected : list (list string)),
    csvContent (Some (mkRange 2 3)) storeAfterScroll = inr content /\
    parseTable content = Some (mkTable ["Name"] selected) /\
    selected = [["Grace"]; ["Edsger"]] /\
    length selected = 2%nat.
Proof.
  destruct (csvContent_of_typed_range storeAfterScroll scrollTable "2-3"
                                      (Some (mkRange 2 3)))
    as (content & selected & H1 & H2 & H3 & H4).
  - reflexivity.
  - repeat constructor.
  - reflexivity.
  - reflexivity.
  - exists content, selected. split; [exact H1|]. split; [exact H2|].
    split; [exact H3 | exact H4].
Defined.

(** X14.  The single-number fallback is lenient: a trimmed text that starts
    with a row number between 1 and [totalRows], is followed by something
    that is not a digit, and does not have the range format is accepted as
    that single row, whatever follows the number ([5abc], [2-]). *)
Theorem parseRowRange_lenient :
  forall (n : nat) (rest : string) (totalRows : Z),
    trim (indexToString n ++ rest) = indexToString n ++ rest ->
    matchRange (indexToString n ++ rest) = None ->
    fst (spanDigits rest) = "" ->
    (1 <= n)%nat -> (Z.of_nat n <= totalRows)%Z ->
    parseRowRange (indexToString n ++ rest) totalRows
    = Ok (Some (mkRange (Z.of_nat n) (Z.of_nat n))).
Proof.
  intros n rest totalRows Htrim Hmatch Hrest Hn Htotal.
  unfold parseRowRange. rewrite Htrim, Hmatch.
  destruct (indexToString_numeral n) as (d & Hd & -> & Hdn).
  destruct (numeral_head d Hd) as (c & tl & Hs & Hc).
  assert (Hint : parseInt (NilEmpty.string_of_uint d ++ rest) = Some (Z.of_nat n)).
  { unfold parseInt. rewrite Hs. cbn [append].
    rewrite (dropWhiteSpace_none c _ (whiteSpaceLength_digit c _ Hc)).
    destruct (isDigit_not_sign c Hc) as [-> ->]. cbn [fst snd].
    change (String c (tl ++ rest)) with (String c tl ++ rest).
    rewrite <- Hs, numeral_digits, Hrest, append_nil_r, Hs, <- Hs.
    rewrite numeral_value. fold (Nat.of_uint d). rewrite Hdn. reflexivity. }
  rewrite Hint, Hs. cbn [append].
  destruct (Z.leb_spec 1 (Z.of_nat n)); [|lia].
  destruct (Z.leb_spec (Z.of_nat n) totalRows); [reflexivity | lia].
Qed.

Lemma parseRowRange_lenient_witness :
  parseRowRange "5abc" 10 = Ok (Some (mkRange 5 5)) /\
  parseRowRange "2-" 10 = Ok (Some (mkRange 2 2)).
Proof.
  split.
  - apply (parseRowRange_lenient 5 "abc" 10); try reflexivity; cbn; lia.
  - apply (parseRowRange_lenient 2 "-" 10); try reflexivity; cbn; lia.
Defined.

(* ----------------------------------------------------------------- *)
(** *** Flagged responses *)

Lemma overPrefix_In {A B} (f : A -> list B) (y : B) (n : nat) :
  forall l : list A,
    In y (overPrefix f n l) <->
    exists i x, (i < n)%nat /\ nth_error l i = Some x /\ In y (f x).
Proof.
  induction n as [|k IH]; intro l; cbn [overPrefix].
  - split; [intros [] | intros (i & x & Hi & _); lia].
  - destruct l as [|a tl].
    + split; [intros [] | intros (i & x & _ & Hnth & _); destruct i; discriminate].
    + rewrite in_app_iff, IH. split.
      * intros [H|(i & x & Hi & Hnth & Hy)].
        -- exists 0%nat, a. repeat split; [lia | exact H].
        -- exists (S i), x. repeat split; [lia | exact Hnth | exact Hy].
      * intros (i & x & Hi & Hnth & Hy). destruct i as [|i].
        -- injection Hnth as <-. left. exact Hy.
        -- right. exists i, x. repeat split; [lia | exact Hnth | exact Hy].
Qed.

Lemma reachedAt_array_objectLike (d : nat) (x : json) (arr : list json) :
  reachedAt d x (JArr arr) -> isObjectLike x = true.
Proof. inversion 1; reflexivity. Qed.

Lemma head_describes (items : list json) (fd : Found) :
  In fd match items with
        | JObj firstProps :: _ =>
            if Nat.leb 2 (length (map fst firstProps))
            then [mkFound (length items) (length (map fst firstProps))
                          (slice (map fst firstProps) 0 5)]
            else []
        | _ => []
        end
  <-> describes fd items.
Proof.
  unfold describes. split.
  - destruct items as [|[| | | | |firstProps] tl]; try (intros []).
    rewrite length_map. destruct (Nat.leb_spec 2 (length firstProps)); [|intros []].
    intros [<-|[]]. exists firstProps, tl. repeat split; [assumption|].
    rewrite (slice_head _ 5). reflexivity.
  - intros (firstProps & tl & -> & H2 & ->). rewrite length_map.
    destruct (Nat.leb_spec 2 (length firstProps)); [|lia].
    left. rewrite (slice_head _ 5). reflexivity.
Qed.

Lemma findArraysOfObjects_In (obj : json) :
  forall (depth : nat) (fd : Found),
    In fd (findArraysOfObjects obj depth) <->
    exists n arr, (depth + n <= 6)%nat /\ reachedAt n obj (JArr arr) /\ describes fd arr.
Proof.
  induction obj as [| b | n | s | items IH | props IH] using json_nested_ind;
    intros depth fd.
  1-4: (split; [cbn [findArraysOfObjects]; destruct (Nat.ltb 6 depth); intros []
               | intros (n' & arr & _ & Hn & _); inversion Hn]).
  - cbn [findArraysOfObjects]. destruct (Nat.ltb_spec 6 depth) as [Hd|Hd].
    + split; [intros [] | intros (n & arr & Hle & _); lia].
    + rewrite in_app_iff, head_describes, overPrefix_In. split.
      * intros [Hhere|(i & x & Hi & Hnth & Hin)].
        -- exists 0%nat, items. split; [lia|]. split; [constructor | exact Hhere].
        -- destruct (isObjectLike x); [|destruct Hin].
           rewrite Forall_forall in IH.
           apply (IH x (nth_error_In _ _ Hnth)) in Hin.
           destruct Hin as (n & arr & Hle & Hn & Hdesc). exists (S n), arr.
           split; [lia|]. split; [econstructor; eassumption | exact Hdesc].
      * intros (n & arr & Hle & Hn & Hdesc).
        inversion Hn as [ | d0 items0 i x v Hi Hnth Hnest | ]; subst.
        -- left. exact Hdesc.
        -- right. exists i, x. split; [exact Hi|]. split; [exact Hnth|].
           rewrite (reachedAt_array_objectLike _ _ _ Hnest).
           rewrite Forall_forall in IH. apply (IH x (nth_error_In _ _ Hnth)).
           exists d0, arr. split; [lia|]. split; assumption.
  - cbn [findArraysOfObjects]. destruct (Nat.ltb_spec 6 depth) as [Hd|Hd].
    + split; [intros [] | intros (n & arr & Hle & _); lia].
    + rewrite in_flat_map. split.
      * intros ([k x] & Hx & Hin). rewrite Forall_forall in IH.
        apply (IH (k, x) Hx) in Hin. destruct Hin as (n & arr & Hle & Hn & Hdesc).
        exists (S n), arr. split; [lia|]. split; [econstructor; eassumption | exact Hdesc].
      * intros (n & arr & Hle & Hn & Hdesc).
        inversion Hn as [ | | d0 props0 k x v Hx Hnest ]; subst.
        exists (k, x). split; [assumption|].
        rewrite Forall_forall in IH. apply (IH (k, x) Hx).
        exists d0, arr. split; [lia|]. split; assumption.
Qed.

Lemma nonempty_In {A} (l : list A) : Nat.ltb 0 (length l) = true <-> exists x, In x l.
Proof.
  destruct l as [|x tl]; cbn.
  - split; [discriminate | intros (x & [])].
  - split; [intros _; exists x; left; reflexivity | reflexivity].
Qed.

(** X15.  The interceptor records exactly the arrays it can reach (at most
    six levels down, through the first three elements of arrays and through
    property values) whose first element is a plain object of at least two
    keys; it flags a response exactly when there is such an array; and so a
    table-shaped array of the background detector that lies within that
    reach always has its response flagged. *)
Theorem containsTableData_reach :
  forall data : json,
    (forall fd : Found,
        In fd (findArraysOfObjects data 0) <->
        exists d arr, (d <= 6)%nat /\ reachedAt d data (JArr arr) /\ describes fd arr) /\
    (containsTableData data = true <->
     exists d arr firstProps tl,
       (d <= 6)%nat /\ reachedAt d data (JArr arr) /\
       arr = JObj firstProps :: tl /\ (2 <= length firstProps)%nat) /\
    (forall d arr,
        (d <= 6)%nat -> reachedAt d data (JArr arr) -> looksLikeTable arr = true ->
        containsTableData data = true).
Proof.
  intro data.
  assert (Hin : forall fd : Found,
             In fd (findArraysOfObjects data 0) <->
             exists d arr, (d <= 6)%nat /\ reachedAt d data (JArr arr) /\ describes fd arr).
  { intro fd. rewrite findArraysOfObjects_In. cbn [Nat.add]. reflexivity. }
  assert (Hflag : containsTableData data = true <->
                  exists d arr firstProps tl,
                    (d <= 6)%nat /\ reachedAt d data (JArr arr) /\
                    arr = JObj firstProps :: tl /\ (2 <= length firstProps)%nat).
  { unfold containsTableData. split.
    - destruct (isObjectLike data); cbn [negb]; [|discriminate].
      intro H. apply nonempty_In in H. destruct H as (fd & Hfd).
      apply Hin in Hfd. destruct Hfd as (d & arr & Hd & Hr & fp & tl & -> & H2 & _).
      exists d, (JObj fp :: tl), fp, tl. auto.
    - intros (d & arr & fp & tl & Hd & Hr & -> & H2).
      rewrite (reachedAt_array_objectLike _ _ _ Hr). cbn [negb].
      apply nonempty_In. eexists. apply Hin.
      exists d, (JObj fp :: tl). split; [exact Hd|]. split; [exact Hr|].
      exists fp, tl. auto. }
  split; [exact Hin|]. split; [exact Hflag|].
  intros d arr Hd Hr Hlooks. apply Hflag.
  unfold looksLikeTable in Hlooks.
  destruct arr as [|[| | | | |fp] tl]; try discriminate.
  apply andb_true_iff in Hlooks. destruct Hlooks as [H2 _].
  apply Nat.leb_le in H2. rewrite length_map in H2.
  exists d, (JObj fp :: tl), fp, tl. auto.
Qed.

Lemma containsTableData_reach_witness :
  containsTableData (JObj [("rows", JArr [record ["id"; "name"]; JNull])]) = true.
Proof.
  apply (containsTableData_reach (JObj [("rows", JArr [record ["id"; "name"]; JNull])])).
  exists 1%nat, [record ["id"; "name"]; JNull],
    [("id", JNum 1); ("name", JNum 1)], [JNull].
  split; [lia|]. split; [|split; [reflexivity | cbn [length]; lia]].
  eapply reached_prop; [left; reflexivity | constructor].
Defined.

(* ----------------------------------------------------------------- *)
(** *** The scrolling scrape *)

Section SweepFacts.
Variable setScrollTop : Q -> Q.
Variable extract : Q -> Map RowData.
Variable step maxTop : Q.
Hypothesis Hclamp : clamps setScrollTop maxTop.
Hypothesis Hmax : 0 <= maxTop.
Hypothesis Hstep : 2 <= step.

Lemma clamp_low (x : Q) : x <= 0 -> setScrollTop x == 0.
Proof.
  intro H. rewrite (Hclamp x).
  rewrite (Q.max_r x 0) by exact H. apply Q.min_l. exact Hmax.
Qed.

Lemma clamp_mid (x : Q) : 0 <= x -> x <= maxTop -> setScrollTop x == x.
Proof.
  intros H0 H1. rewrite (Hclamp x).
  rewrite (Q.max_l x 0) by exact H0. apply Q.min_l. exact H1.
Qed.

Lemma clamp_high (x : Q) : maxTop <= x -> setScrollTop x == maxTop.
Proof.
  intro H. rewrite (Hclamp x).
  rewrite (Q.max_l x 0) by lra. apply Q.min_r. exact H.
Qed.

Lemma sweepTop_range (k : nat) :
  0 <= sweepTop setScrollTop step k /\ sweepTop setScrollTop step k <= maxTop.
Proof.
  assert (R : forall x, 0 <= setScrollTop x /\ setScrollTop x <= maxTop).
  { intro x. destruct (Qlt_le_dec x 0) as [L|L].
    - rewrite (clamp_low x) by lra. lra.
    - destruct (Qlt_le_dec x maxTop) as [L'|L'].
      + rewrite (clamp_mid x) by lra. lra.
      + rewrite (clamp_high x) by lra. lra. }
  destruct k; cbn [sweepTop]; apply R.
Qed.

Lemma sweepTop_clamped (k : nat) :
  sweepTop setScrollTop step k == Qmin (multiple step k) maxTop.
Proof.
  induction k.
  - cbn [sweepTop]. rewrite (clamp_low 0) by lra. rewrite multiple_0.
    symmetry. apply Q.min_l. exact Hmax.
  - cbn [sweepTop]. rewrite multiple_S.
    assert (M0 : 0 <= multiple step k).
    { pose proof (multiple_mono step 0 k) as M. rewrite multiple_0 in M. apply M; [lra|lia]. }
    destruct (Qlt_le_dec (multiple step k) maxTop) as [L|L].
    + rewrite (Q.min_l (multiple step k) maxTop) in IHk by lra.
      destruct (Qlt_le_dec (multiple step k + step) maxTop) as [L'|L'].
      * rewrite clamp_mid by lra. rewrite (Q.min_l (multiple step k + step)) by lra. lra.
      * rewrite clamp_high by lra. rewrite (Q.min_r (multiple step k + step)) by lra. lra.
    + rewrite (Q.min_r (multiple step k) maxTop) in IHk by lra.
      rewrite clamp_high by lra. rewrite (Q.min_r (multiple step k + step)) by lra. lra.
Qed.

Lemma sweepLoop_step (fuel : nat) (top prev : Q) (c : nat) (rows : Map RowData) :
  (c < 3)%nat ->
  sweepLoop setScrollTop extract step (S fuel) top prev c rows =
  sweepLoop setScrollTop extract step fuel
    (setScrollTop (top + step)) (setScrollTop (top + step))
    (if Qltb (Qabs (setScrollTop (top + step) - prev)) 2 then S c else O)
    (mergeRows rows (extract top)).
Proof.
  intro H. cbn [sweepLoop]. apply Nat.ltb_lt in H. rewrite H. reflexivity.
Qed.

Lemma sweepPasses_cons (j m : nat) :
  sweepPasses setScrollTop extract step j (S m) =
  extract (sweepTop setScrollTop step j) :: sweepPasses setScrollTop extract step (S j) m.
Proof. reflexivity. Qed.

(** At the bottom the loop runs until three turns in a row have left the
    container where it was. *)
Lemma sweepLoop_settles (r : nat) :
  forall (j c : nat) (prev : Q) (rows : Map RowData) (fuel : nat),
    (c + r = 3)%nat ->
    sweepTop setScrollTop step j == maxTop ->
    Qabs (sweepTop setScrollTop step j - prev) < 2 ->
    (r < fuel)%nat ->
    sweepLoop setScrollTop extract step fuel (sweepTop setScrollTop step j) prev c rows =
    Some (mergePasses rows (sweepPasses setScrollTop extract step j r),
          sweepTop setScrollTop step (j + r)).
Proof.
  induction r; intros j c prev rows fuel Hc Hj Hp Hf.
  - destruct fuel; [lia|]. cbn [sweepLoop].
    replace c with 3%nat by lia. cbn. rewrite Nat.add_0_r. reflexivity.
  - destruct fuel; [lia|]. rewrite sweepLoop_step by lia.
    change (setScrollTop (sweepTop setScrollTop step j + step))
      with (sweepTop setScrollTop step (S j)).
    assert (Hj' : sweepTop setScrollTop step (S j) == maxTop).
    { cbn [sweepTop]. apply clamp_high. lra. }
    assert (E : Qltb (Qabs (sweepTop setScrollTop step (S j) - prev)) 2 = true).
    { apply Qltb_spec.
      assert (Q : Qabs (sweepTop setScrollTop step (S j) - prev)
                  == Qabs (sweepTop setScrollTop step j - prev)).
      { apply Qabs_wd. lra. }
      rewrite Q. exact Hp. }
    rewrite E. rewrite sweepPasses_cons. unfold mergePasses. cbn [fold_left].
    replace (j + S r)%nat with (S j + r)%nat by lia.
    apply IHr; [lia|exact Hj'| |lia].
    assert (Q : Qabs (sweepTop setScrollTop step (S j) - sweepTop setScrollTop step (S j)) == Qabs 0).
    { apply Qabs_wd. lra. }
    rewrite Q. cbn. lra.
Qed.

(** Below the bottom the loop steps down by [verticalStep] with the counter
    at zero, and settles once it arrives. *)
Lemma sweepLoop_descends (M : nat) :
  forall (j : nat) (prev : Q) (rows : Map RowData),
    sweepTop setScrollTop step j < maxTop ->
    maxTop <= sweepTop setScrollTop step j + multiple step M ->
    prev <= sweepTop setScrollTop step j ->
    exists m : nat,
      (3 <= m <= M + 3)%nat /\
      sweepTop setScrollTop step (j + m) == maxTop /\
      (exists k, (j < k /\ k + 2 <= j + m)%nat /\ sweepTop setScrollTop step k == maxTop) /\
      forall fuel, (m < fuel)%nat ->
        sweepLoop setScrollTop extract step fuel (sweepTop setScrollTop step j) prev 0 rows =
        Some (mergePasses rows (sweepPasses setScrollTop extract step j m),
              sweepTop setScrollTop step (j + m)).
Proof.
  induction M; intros j prev rows Hlt Hle Hprev.
  - rewrite multiple_0 in Hle. lra.
  - pose proof (sweepTop_range j) as [Hj0 _].
    destruct (Qlt_le_dec (sweepTop setScrollTop step j + step) maxTop) as [L|L].
    + assert (Hn : sweepTop setScrollTop step (S j) == sweepTop setScrollTop step j + step).
      { cbn [sweepTop]. apply clamp_mid; lra. }
      destruct (IHM (S j) (sweepTop setScrollTop step (S j))
                    (mergeRows rows (extract (sweepTop setScrollTop step j))))
        as (m & Hm & Hend & (k & Hk & Hkb) & Hrun).
      * lra.
      * rewrite multiple_S in Hle. lra.
      * lra.
      * exists (S m). split; [lia|]. split; [|split].
        -- replace (j + S m)%nat with (S j + m)%nat by lia. exact Hend.
        -- exists k. split; [lia|exact Hkb].
        -- intros fuel Hf. destruct fuel; [lia|]. rewrite sweepLoop_step by lia.
           change (setScrollTop (sweepTop setScrollTop step j + step))
             with (sweepTop setScrollTop step (S j)).
           assert (E : Qltb (Qabs (sweepTop setScrollTop step (S j) - prev)) 2 = false).
           { apply Qltb_false. rewrite Qabs_pos by lra. lra. }
           rewrite E. rewrite sweepPasses_cons. unfold mergePasses. cbn [fold_left].
           replace (j + S m)%nat with (S j + m)%nat by lia.
           apply Hrun. lia.
    + assert (Hn : sweepTop setScrollTop step (S j) == maxTop).
      { cbn [sweepTop]. apply clamp_high. lra. }
      set (c := if Qltb (Qabs (sweepTop setScrollTop step (S j) - prev)) 2 then 1%nat else 0%nat).
      assert (Hc : (c <= 1)%nat) by (unfold c; destruct (Qltb _ _); lia).
      exists (S (3 - c)). split; [lia|]. split; [|split].
      * replace (j + S (3 - c))%nat with (S j + (3 - c))%nat by lia.
        clear - Hclamp Hmax Hstep Hn. induction (3 - c)%nat as [|n IH].
        -- rewrite Nat.add_0_r. exact Hn.
        -- replace (S j + S n)%nat with (S (S j + n)) by lia. cbn [sweepTop].
           apply clamp_high. lra.
      * exists (S j). split; [lia|exact Hn].
      * intros fuel Hf. destruct fuel; [lia|]. rewrite sweepLoop_step by lia.
        change (setScrollTop (sweepTop setScrollTop step j + step))
          with (sweepTop setScrollTop step (S j)).
        rewrite sweepPasses_cons. unfold mergePasses. cbn [fold_left].
        replace (j + S (3 - c))%nat with (S j + (3 - c))%nat by lia.
        replace (if Qltb (Qabs (sweepTop setScrollTop step (S j) - prev)) 2 then 1%nat else 0%nat)
          with c by reflexivity.
        apply (sweepLoop_settles (3 - c)); [lia|exact Hn| |lia].
        assert (Q : Qabs (sweepTop setScrollTop step (S j) - sweepTop setScrollTop step (S j)) == Qabs 0).
        { apply Qabs_wd. lra. }
        rewrite Q. cbn. lra.
Qed.

Lemma verticalSweep_run (N : nat) (rows : Map RowData) :
  maxTop <= multiple step N ->
  exists m k0 : nat,
    (3 <= m <= N + 3)%nat /\ (k0 + 2 <= m)%nat /\
    sweepTop setScrollTop step k0 == maxTop /\
    sweepTop setScrollTop step m == maxTop /\
    forall fuel, (m < fuel)%nat ->
      verticalSweep setScrollTop extract step fuel rows =
      Some (mergePasses rows (sweepPasses setScrollTop extract step 0 m),
            sweepTop setScrollTop step m).
Proof.
  intro HN.
  assert (H0 : sweepTop setScrollTop step 0 == 0).
  { cbn [sweepTop]. apply clamp_low. lra. }
  assert (Hall : maxTop == 0 -> forall k, sweepTop setScrollTop step k == maxTop).
  { intros Hz k. pose proof (sweepTop_range k). lra. }
  destruct (Qlt_le_dec 0 maxTop) as [L|L].
  - destruct (sweepLoop_descends N 0%nat (-1) rows)
      as (m & Hm & Hend & (k & Hk & Hkb) & Hrun); [lra..|].
    exists m, k. repeat split; try lia; try assumption.
  - assert (Hz : maxTop == 0) by lra.
    exists 3%nat, 0%nat. repeat split; try lia; try (apply Hall; exact Hz).
    intros fuel Hf. unfold verticalSweep.
    apply (sweepLoop_settles 3 0%nat 0%nat (-1) rows fuel); [lia|apply Hall; exact Hz| |lia].
    assert (Q : Qabs (sweepTop setScrollTop step 0 - -1) == Qabs 1).
    { apply Qabs_wd. lra. }
    rewrite Q. cbn. lra.
Qed.

End SweepFacts.

(** X16.  One vertical sweep over a container that clamps [scrollTop] to the
    interval from 0 to [maxScrollTop], with a step of at least 2 (the code's
    step is at least 150): the loop ends, after [m] turns with
    [3 <= m <= N + 3] where [N] steps cover [maxScrollTop]; the accumulator is
    the merge, in order, of the rows rendered at each turn; turn [k] extracts
    at [min (k * verticalStep) maxScrollTop]; at least two turns extract at
    the bottom, and the container is left at the bottom. *)
Theorem verticalSweep_reaches_bottom
    (setScrollTop : Q -> Q) (extractRenderedRows : Q -> Map RowData)
    (verticalStep maxScrollTop : Q) (allRows : Map RowData) (N : nat) :
  clamps setScrollTop maxScrollTop ->
  0 <= maxScrollTop ->
  2 <= verticalStep ->
  maxScrollTop <= multiple verticalStep N ->
  exists m : nat,
    (3 <= m <= N + 3)%nat /\
    (forall fuel, (m < fuel)%nat ->
       verticalSweep setScrollTop extractRenderedRows verticalStep fuel allRows =
       Some (mergePasses allRows
               (sweepPasses setScrollTop extractRenderedRows verticalStep 0 m),
             sweepTop setScrollTop verticalStep m)) /\
    (forall k, sweepTop setScrollTop verticalStep k
               == Qmin (multiple verticalStep k) maxScrollTop) /\
    (exists k, (k + 2 <= m)%nat /\ sweepTop setScrollTop verticalStep k == maxScrollTop) /\
    sweepTop setScrollTop verticalStep m == maxScrollTop.
Proof.
  intros Hclamp Hmax Hstep HN.
  destruct (verticalSweep_run setScrollTop extractRenderedRows verticalStep maxScrollTop
              Hclamp Hmax Hstep N allRows HN) as (m & k0 & Hm & Hk0 & Hb & Hend & Hrun).
  exists m. split; [exact Hm|]. split; [exact Hrun|]. split; [|split].
  - apply (sweepTop_clamped setScrollTop verticalStep maxScrollTop); assumption.
  - exists k0. split; assumption.
  - exact Hend.
Qed.

Lemma verticalSweep_reaches_bottom_witness :
  let grid := fun top : Q =>
    if Qltb top 500 then [("r_a", mkRowData 0 [("f", "A")])]
    else [("r_b", mkRowData 1 [("f", "B")])] in
  exists m : nat,
    (3 <= m <= 3 + 3)%nat /\
    (forall fuel, (m < fuel)%nat ->
       verticalSweep (clampTo 1000) grid 360 fuel [] =
       Some (mergePasses [] (sweepPasses (clampTo 1000) grid 360 0 m),
             sweepTop (clampTo 1000) 360 m)) /\
    (forall k, sweepTop (clampTo 1000) 360 k == Qmin (multiple 360 k) 1000) /\
    (exists k, (k + 2 <= m)%nat /\ sweepTop (clampTo 1000) 360 k == 1000) /\
    sweepTop (clampTo 1000) 360 m == 1000.
Proof.
  intro grid.
  apply (verticalSweep_reaches_bottom (clampTo 1000) grid 360 1000 [] 3).
  - intro x. reflexivity.
  - lra.
  - lra.
  - vm_compute. discriminate.
Defined.







